(** * Signal lifecycle engine of the Hyperliquid signal system

    A shallow embedding of the ingestion worker, the price monitor, the
    performance calculator and the shared utilities, followed by the
    properties established about them.

    Conventions of the embedding.
    - A JavaScript [number] that carries a price, a size, a percentage or
      a rate is an exact rational ([Q]); rounding of binary floating point
      and the values [NaN] and [Infinity] are not modelled.  Timestamps
      and HTTP statuses are integers ([Z]), indices are naturals.
    - The D1 tables are finite maps keyed by their primary key or unique
      index.  A column that holds JSON ([targets_json]) holds the parsed
      value.
    - Asynchronous code is sequential state passing over a [World]: the
      database, the two queues, the clock, the debug log and a list of
      pending faults that says which of the next statements sent to D1
      or to a queue is rejected.  [try]/[catch] is a combinator of the
      monad.  The clock stands still during a run, so the readings that
      the code takes one after the other are one value here.  Waiting
      ([sleep], the rate limiter) only takes time and is left out of the
      workers; the rate limiter and the circuit breaker are embedded on
      their own, with the clock as an argument.
    - [parseFloat] and [parseInt] are parameters of the ingestion worker.
    - Free text that is only shown to a human (the [notes] column, the
      body of a notification, the other log lines) is left out. *)

From Stdlib Require Import QArith Qround Qabs Qminmax ZArith String Ascii List Lia Lqa.
From Stdlib Require Import DecimalString Sorting.Permutation Sorting.Sorted Qpower.
From stdpp Require Import gmap strings list fin_maps.

Open Scope Q_scope.
Open Scope string_scope.

(** The comparisons [x > y] and [x < y] of two numbers; [x <= y] is
    [Qle_bool x y]. *)
Definition Qgtb (x y : Q) : bool := negb (Qle_bool x y).
Definition Qltb (x y : Q) : bool := negb (Qle_bool y x).

(* ===================================================================== *)
(** * shared/performance.ts *)
(* ===================================================================== *)

Module PerformanceCalculator.

(** [PerformanceCalculator.calculatePnL] *)
Definition calculatePnL (entryPrice exitPrice positionSize : Q)
    (signalType : string) (fundingRate durationHours : Q) : Q :=
  let directionMultiplier : Q := if String.eqb signalType "LONG" then 1 else -1 in
  let priceDiff := exitPrice - entryPrice in
  let tradePnL := directionMultiplier * priceDiff * positionSize in
  let fundingCost := fundingRate * positionSize * entryPrice * (durationHours / 8) in
  tradePnL - fundingCost.

(** The formula of the specification, in its own words: the price delta
    times the size, signed by the direction, minus the absolute value
    of [fundingRate * size * entryPrice * ceil (durationHours / 8)]. *)
Definition calculatePnL_spec (entryPrice exitPrice positionSize : Q)
    (signalType : string) (fundingRate durationHours : Q) : Q :=
  let directionMultiplier : Q := if String.eqb signalType "LONG" then 1 else -1 in
  let fundingPeriods : Q := inject_Z (Qceiling (durationHours / 8)) in
  let fundingCost := fundingRate * positionSize * entryPrice * fundingPeriods in
  directionMultiplier * (exitPrice - entryPrice) * positionSize - Qabs fundingCost.

(** [PerformanceCalculator.determineOutcome] *)
Definition determineOutcome (status : string) (pnl : Q) : string :=
  if String.eqb status "TP_HIT" then "WIN"
  else if String.eqb status "SL_HIT" then "LOSS"
  else if String.eqb status "PARTIAL_TP" then "PARTIAL"
  else if Qgtb pnl 0 then "WIN" else "LOSS".

End PerformanceCalculator.

(* ===================================================================== *)
(** * shared/utils.ts *)
(* ===================================================================== *)

Module Utils.

(** ** [generateEventId] *)

(** The base64 alphabet of RFC 4648, as [btoa] uses it. *)
Definition b64char (n : N) : ascii :=
  if (n <? 26)%N then ascii_of_N (65 + n)
  else if (n <? 52)%N then ascii_of_N (97 + (n - 26))
  else if (n <? 62)%N then ascii_of_N (48 + (n - 52))
  else if (n =? 62)%N then "+"%char else "/"%char.

(** Three bytes make four characters; one or two trailing bytes are
    padded with [=]. *)
Fixpoint btoa_bytes (l : list N) : string :=
  match l with
  | [] => ""
  | [a] =>
      String (b64char (N.shiftr a 2))
        (String (b64char (N.shiftl (N.land a 3) 4)) "==")
  | [a; b] =>
      String (b64char (N.shiftr a 2))
        (String (b64char (N.lor (N.shiftl (N.land a 3) 4) (N.shiftr b 4)))
           (String (b64char (N.shiftl (N.land b 15) 2)) "="))
  | a :: b :: c :: rest =>
      String (b64char (N.shiftr a 2))
        (String (b64char (N.lor (N.shiftl (N.land a 3) 4) (N.shiftr b 4)))
           (String (b64char (N.lor (N.shiftl (N.land b 15) 2) (N.shiftr c 6)))
              (String (b64char (N.land c 63)) (btoa_bytes rest))))
  end.

Fixpoint bytes_of_string (s : string) : list N :=
  match s with
  | EmptyString => []
  | String c s' => N_of_ascii c :: bytes_of_string s'
  end.

(** The platform's [btoa].  A string here is a sequence of 8-bit
    characters, which is exactly the domain on which [btoa] does not
    throw. *)
Definition btoa (s : string) : string := btoa_bytes (bytes_of_string s).

(** The character class [[a-zA-Z0-9]]. *)
Definition is_alnum (c : ascii) : bool :=
  let n := N_of_ascii c in
  ((97 <=? n) && (n <=? 122) || (65 <=? n) && (n <=? 90)
   || (48 <=? n) && (n <=? 57))%N.

(** [s.replace(/[^a-zA-Z0-9]/g, '')] *)
Fixpoint strip_non_alnum (s : string) : string :=
  match s with
  | EmptyString => EmptyString
  | String c s' =>
      if is_alnum c then String c (strip_non_alnum s') else strip_non_alnum s'
  end.

(** [s.substring(0, n)] *)
Definition substring0 (n : nat) (s : string) : string := String.substring 0 n s.

(** An integer interpolated into a template string. *)
Definition string_of_Z (z : Z) : string := NilZero.string_of_int (Z.to_int z).

(** [generateEventId]: the timestamp is in milliseconds and is rounded
    down to the minute before it enters the identifier. *)
Definition generateEventId (walletAddress pair : string) (timestamp : Z)
    (direction : string) : string :=
  let data :=
    walletAddress ++ "-" ++ pair ++ "-" ++ direction ++ "-"
      ++ string_of_Z (timestamp / 60000)%Z in
  substring0 32 (strip_non_alnum (btoa data)).

(** [calculateNotionalValue], with its default contract multiplier
    passed explicitly. *)
Definition calculateNotionalValue (price size contractMultiplier : Q) : Q :=
  price * size * contractMultiplier.

(** ** [withRetry] *)

(** What an operation can throw: an [ApiError] with its optional HTTP
    status, the [RetryableError] that [fetchWithTimeout] raises on a
    timeout, or any other error. *)
Inductive Error :=
| ApiError (status : option Z)
| RetryableError
| OtherError.

(** One invocation of the wrapped operation. *)
Inductive Attempt (T : Type) :=
| Resolved (v : T)
| Rejected (e : Error).
Arguments Resolved {T} v.
Arguments Rejected {T} e.

Record RetryOptions := {
  maxRetries : Z;
  baseDelay : Q;
  maxDelay : Q;
  backoffMultiplier : Q
}.

Definition defaultRetryOptions : RetryOptions :=
  {| maxRetries := 3; baseDelay := 1000; maxDelay := 10000;
     backoffMultiplier := 2 |}.

(** How [withRetry] settles: with the value of the operation, or by
    throwing [lastError], which is still [undefined] ([None]) when the
    loop body never ran. *)
Inductive Settled (T : Type) :=
| Fulfilled (v : T)
| Threw (lastError : option Error).
Arguments Fulfilled {T} v.
Arguments Threw {T} lastError.

(** A run of [withRetry]: how it settled, how many times the operation
    was invoked, and the delays it slept, in order. *)
Record RetryRun (T : Type) := {
  settled : Settled T;
  calls : nat;
  sleeps : list Q
}.
Arguments settled {T} r.
Arguments calls {T} r.
Arguments sleeps {T} r.

(** [error instanceof ApiError && error.status && error.status < 500] *)
Definition nonRetryable (e : Error) : bool :=
  match e with
  | ApiError (Some status) => negb (status =? 0)%Z && (status <? 500)%Z
  | _ => false
  end.

(** [Math.min(baseDelay * Math.pow(backoffMultiplier, attempt), maxDelay)] *)
Definition backoffDelay (options : RetryOptions) (attempt : Z) : Q :=
  Qmin (baseDelay options * backoffMultiplier options ^ attempt)
    (maxDelay options).

Section WithRetry.
Context {T : Type}.
(** [operation k] is the outcome of the invocation number [k] of the
    wrapped thunk, and [random k] the value of [Math.random()] drawn
    after it failed. *)
Variable operation : nat -> Attempt T.
Variable random : nat -> Q.
Variable options : RetryOptions.

(** The [for] loop: [fuel] is the number of iterations left before
    [attempt <= options.maxRetries] fails. *)
Fixpoint retryLoop (fuel : nat) (attempt : Z) (lastError : option Error)
    (invoked : nat) (slept : list Q) : RetryRun T :=
  match fuel with
  | O => {| settled := Threw lastError; calls := invoked; sleeps := slept |}
  | S fuel' =>
      match operation invoked with
      | Resolved v =>
          {| settled := Fulfilled v; calls := S invoked; sleeps := slept |}
      | Rejected error =>
          if nonRetryable error then
            {| settled := Threw (Some error); calls := S invoked;
               sleeps := slept |}
          else if (attempt =? maxRetries options)%Z then
            {| settled := Threw (Some error); calls := S invoked;
               sleeps := slept |}
          else
            let delay := backoffDelay options attempt in
            let jitteredDelay := delay + random invoked * 1000 in
            retryLoop fuel' (attempt + 1)%Z (Some error) (S invoked)
              (slept ++ [jitteredDelay])%list
      end
  end.

Definition withRetry : RetryRun T :=
  retryLoop (Z.to_nat (maxRetries options + 1)) 0%Z None 0%nat [].
End WithRetry.

End Utils.

(* ===================================================================== *)
(** * shared/types.ts *)
(* ===================================================================== *)

Module Types.

(** [HyperliquidFill]; only the fields that are read. *)
Record HyperliquidFill := {
  fill_coin : string;
  fill_px : string;
  fill_time : Z;
  fill_side : string
}.

(** [HyperliquidUserFills]; the payload is untyped when it arrives, so
    [fills] may be missing. *)
Record HyperliquidUserFills := {
  fills : option (list HyperliquidFill)
}.

(** The [position] object of an asset position.  A field is [None]
    when the payload does not carry it. *)
Record RawPosition := {
  szi : option string;
  entryPx : option string;
  leverage_value : option string
}.

Record AssetPosition := {
  coin : string;
  position : option RawPosition
}.

Record HyperliquidClearinghouseState := {
  assetPositions : option (list AssetPosition)
}.

Record WalletPosition := {
  wallet_address : string;
  wp_pair : string;
  position_type : string;
  wp_entry_timestamp : Z;
  wp_entry_price : Q;
  trade_size : Q;
  leverage : Z;
  funding_rate : Q;
  wp_last_updated : Z;
  open_event_id : string
}.

Record SignalEvent := {
  se_type : string;
  se_data : WalletPosition
}.

(** [NotificationEvent], without the message text. *)
Record NotificationEvent := {
  ne_type : string;
  ne_signal_id : string;
  chat_id : string
}.

Record Config := {
  wallet_count : Z;
  time_window_min : Z;
  min_trade_size : Q;
  ignored_pairs : list string;
  required_leverage_min : Z;
  poll_interval_sec : Z;
  monitored_pairs : list string
}.

End Types.

(* ===================================================================== *)
(** * shared/api-clients.ts *)
(* ===================================================================== *)

Module ApiClients.
Import Utils Types.

(** What [fetchWithTimeout] does on one call: it answers with an HTTP
    status and a body, it is aborted by the timeout, or it fails in the
    network. *)
Inductive Fetch (Body : Type) :=
| Response (status : Z) (body : Body)
| TimedOut
| NetworkFailure.
Arguments Response {Body} status body.
Arguments TimedOut {Body}.
Arguments NetworkFailure {Body}.

(** [response.ok] *)
Definition ok (status : Z) : bool := (200 <=? status)%Z && (status <=? 299)%Z.

(** The thunk that [HyperliquidClient.getClearinghouseState] hands to
    [withRetry], as a function of what the fetch does.  The wait for a
    rate-limiter slot only takes time. *)
Definition clearinghouseOperation
    (fetch : nat -> Fetch HyperliquidClearinghouseState)
    (k : nat) : Attempt (option HyperliquidClearinghouseState) :=
  match fetch k with
  | TimedOut => Rejected RetryableError
  | NetworkFailure => Rejected OtherError
  | Response status data =>
      if negb (ok status) then
        if (status =? 429)%Z then Rejected (ApiError (Some status))
        else if (status >=? 500)%Z then Rejected (ApiError (Some status))
        else Resolved None
      else Resolved (Some data)
  end.

(** [HyperliquidClient.getClearinghouseState] with the default retry
    options. *)
Definition getClearinghouseState
    (fetch : nat -> Fetch HyperliquidClearinghouseState) (random : nat -> Q)
    : RetryRun (option HyperliquidClearinghouseState) :=
  withRetry (clearinghouseOperation fetch) random defaultRetryOptions.

End ApiClients.



(* ===================================================================== *)
(** * The world the workers run in *)
(* ===================================================================== *)

Module Runtime.
Import Types.

(** ** The D1 tables *)

(** A row of [signals]; the key [signal_id] is kept by the table. *)
Record SignalRow := {
  pair : string;
  type : string;
  entry_timestamp : Z;
  entry_price : Q;
  avg_trade_size : Q;
  stop_loss : Q;
  targets_json : list Q;
  status : string;
  created_at : Z;
  last_updated : option Z
}.

(** A row of [signal_targets]; the unique index
    [(signal_id, target_index)] is kept by the table. *)
Record TargetRow := {
  target_percent : Q;
  target_price : Q;
  is_hit : bool;
  hit_timestamp : option Z
}.

(** A row of [performance]; the primary key [(signal_id, timeframe)] is
    kept by the table. *)
Record PerformanceMetrics := {
  outcome : string;
  pnl : Q;
  duration_sec : Z;
  max_drawdown_pct : Q;
  updated_at : Z
}.

Record DB := {
  signals : gmap string SignalRow;
  signal_targets : gmap string (gmap nat TargetRow);
  performance : gmap (string * string) PerformanceMetrics;
  (** unique index [(wallet_address, pair, open_event_id)] *)
  wallet_positions : gmap (string * string * string) WalletPosition;
  (** [event_id] to [created_at] *)
  ingested_events : gmap string Z
}.

Definition set_signals (f : gmap string SignalRow -> gmap string SignalRow)
    (d : DB) : DB :=
  {| signals := f (signals d); signal_targets := signal_targets d;
     performance := performance d; wallet_positions := wallet_positions d;
     ingested_events := ingested_events d |}.

Definition set_signal_targets
    (f : gmap string (gmap nat TargetRow) -> gmap string (gmap nat TargetRow))
    (d : DB) : DB :=
  {| signals := signals d; signal_targets := f (signal_targets d);
     performance := performance d; wallet_positions := wallet_positions d;
     ingested_events := ingested_events d |}.

Definition set_performance
    (f : gmap (string * string) PerformanceMetrics
         -> gmap (string * string) PerformanceMetrics) (d : DB) : DB :=
  {| signals := signals d; signal_targets := signal_targets d;
     performance := f (performance d); wallet_positions := wallet_positions d;
     ingested_events := ingested_events d |}.

Definition set_wallet_positions
    (f : gmap (string * string * string) WalletPosition
         -> gmap (string * string * string) WalletPosition) (d : DB) : DB :=
  {| signals := signals d; signal_targets := signal_targets d;
     performance := performance d; wallet_positions := f (wallet_positions d);
     ingested_events := ingested_events d |}.

Definition set_ingested_events (f : gmap string Z -> gmap string Z) (d : DB) : DB :=
  {| signals := signals d; signal_targets := signal_targets d;
     performance := performance d; wallet_positions := wallet_positions d;
     ingested_events := f (ingested_events d) |}.

(** ** The world *)

Record World := {
  db : DB;
  (** [NOTIFICATION_QUEUE], oldest message first *)
  notification_queue : list NotificationEvent;
  (** [SIGNAL_QUEUE], oldest message first *)
  signal_queue : list SignalEvent;
  (** [Date.now()] *)
  now : Z;
  (** the signal ids of the [Checking signal ...] lines sent to the
      logger, oldest first *)
  checking_log : list string;
  (** the fate of the next statements sent to D1 or to a queue, in the
      order they are sent: [true] rejects the statement, [false] lets it
      through, and so does an exhausted list *)
  faults : list bool
}.

Definition set_db (f : DB -> DB) (w : World) : World :=
  {| db := f (db w); notification_queue := notification_queue w;
     signal_queue := signal_queue w; now := now w;
     checking_log := checking_log w; faults := faults w |}.

Definition set_notification_queue
    (f : list NotificationEvent -> list NotificationEvent) (w : World) : World :=
  {| db := db w; notification_queue := f (notification_queue w);
     signal_queue := signal_queue w; now := now w;
     checking_log := checking_log w; faults := faults w |}.

Definition set_signal_queue (f : list SignalEvent -> list SignalEvent)
    (w : World) : World :=
  {| db := db w; notification_queue := notification_queue w;
     signal_queue := f (signal_queue w); now := now w;
     checking_log := checking_log w; faults := faults w |}.

Definition set_checking_log (f : list string -> list string) (w : World) : World :=
  {| db := db w; notification_queue := notification_queue w;
     signal_queue := signal_queue w; now := now w;
     checking_log := f (checking_log w); faults := faults w |}.

Definition set_faults (f : list bool -> list bool) (w : World) : World :=
  {| db := db w; notification_queue := notification_queue w;
     signal_queue := signal_queue w; now := now w;
     checking_log := checking_log w; faults := f (faults w) |}.

(** ** Asynchronous computations *)

(** A promise settles by returning a value or by throwing. *)
Inductive Outcome (A : Type) :=
| Return (a : A)
| Throw.
Arguments Return {A} a.
Arguments Throw {A}.

Definition Async (A : Type) : Type := World -> Outcome A * World.

Definition ret {A} (a : A) : Async A := fun w => (Return a, w).

Definition throw {A} : Async A := fun w => (Throw, w).

(** [await m] followed by the rest of the function. *)
Definition bind {A B} (m : Async A) (k : A -> Async B) : Async B :=
  fun w =>
    match m w with
    | (Return a, w') => k a w'
    | (Throw, w') => (Throw, w')
    end.

(** [try { m } catch (error) { handler }] *)
Definition try_catch {A} (m : Async A) (handler : Async A) : Async A :=
  fun w =>
    match m w with
    | (Return a, w') => (Return a, w')
    | (Throw, w') => handler w'
    end.

Notation "'let*' x ':=' m 'in' k" := (bind m (fun x => k))
  (at level 10, x name, m at level 100, k at level 200).
Notation "m ';;' k" := (bind m (fun _ => k))
  (at level 100, k at level 200, right associativity).

(** [for (const x of l) { await body(x) }] *)
Fixpoint for_of {A} (l : list A) (body : A -> Async unit) : Async unit :=
  match l with
  | [] => ret tt
  | x :: l' => body x ;; for_of l' body
  end.

(** Takes the fate of the next statement off the list of faults. *)
Definition next_fault : Async bool :=
  fun w => (Return (default false (head (faults w))), set_faults tail w).

(** The fate of the statement sent after [n] others from this world on. *)
Definition fate (n : nat) (w : World) : bool := default false (faults w !! n).

(** One statement run against D1: it is rejected, or it reads and
    updates the database in one step. *)
Definition statement {A} (run : Z -> DB -> A * DB) : Async A :=
  let* rejected := next_fault in
  if rejected : bool then throw
  else fun w =>
    let '(a, d) := run (now w) (db w) in
    (Return a, set_db (fun _ => d) w).

(** [NOTIFICATION_QUEUE.send(event)] *)
Definition notificationQueue_send (event : NotificationEvent) : Async unit :=
  let* rejected := next_fault in
  if rejected : bool then throw
  else fun w => (Return tt, set_notification_queue (fun q => (q ++ [event])%list) w).

(** [SIGNAL_QUEUE.send(event)] *)
Definition signalQueue_send (event : SignalEvent) : Async unit :=
  let* rejected := next_fault in
  if rejected : bool then throw
  else fun w => (Return tt, set_signal_queue (fun q => (q ++ [event])%list) w).

(** [Date.now()] *)
Definition Date_now : Async Z := fun w => (Return (now w), w).

(** [logger.debug(`Checking signal ${signalId}: ...`)] *)
Definition log_checking (signalId : string) : Async unit :=
  fun w => (Return tt, set_checking_log (fun l => (l ++ [signalId])%list) w).

(** ** Sorting *)

Section Sort.
Context {A : Type}.
Variable key : A -> Z.

(** Puts [x] in front of the first element whose key is not greater. *)
Fixpoint insert_desc (x : A) (l : list A) : list A :=
  match l with
  | [] => [x]
  | y :: l' => if (key y <=? key x)%Z then x :: y :: l' else y :: insert_desc x l'
  end.

(** A stable sort by decreasing key: [ORDER BY key DESC], and
    [l.sort((a, b) => key(b) - key(a))]. *)
Fixpoint sort_desc (l : list A) : list A :=
  match l with
  | [] => []
  | x :: l' => insert_desc x (sort_desc l')
  end.
End Sort.

End Runtime.


(* ===================================================================== *)
(** * shared/database.ts: [DatabaseManager] *)
(* ===================================================================== *)

Module DatabaseManager.
Import Types Runtime.

(** A signal as a query returns it: the key and the columns of its row. *)
Record Signal := {
  signal_id : string;
  row : SignalRow
}.

Definition with_status (newStatus : string) (updated : Z) (r : SignalRow) : SignalRow :=
  {| pair := pair r; type := type r; entry_timestamp := entry_timestamp r;
     entry_price := entry_price r; avg_trade_size := avg_trade_size r;
     stop_loss := stop_loss r; targets_json := targets_json r;
     status := newStatus; created_at := created_at r;
     last_updated := Some updated |}.

Definition with_hit (isHit : bool) (updated : Z) (t : TargetRow) : TargetRow :=
  {| target_percent := target_percent t; target_price := target_price t;
     is_hit := isHit;
     hit_timestamp := if isHit then Some updated else None |}.

(** [SELECT ... FROM signals WHERE status = 'OPEN' ORDER BY created_at DESC] *)
Definition select_active_signals (d : DB) : list Signal :=
  sort_desc (fun s => created_at (row s))
    (map (fun kv : string * SignalRow => {| signal_id := kv.1; row := kv.2 |})
       (filter (fun kv : string * SignalRow => status kv.2 = "OPEN")
          (map_to_list (signals d)))).

(** [getActiveSignals]: a failure is logged and thrown again. *)
Definition getActiveSignals : Async (list Signal) :=
  try_catch (statement (fun _ d => (select_active_signals d, d))) throw.

(** [updateSignalStatus]: an [UPDATE] of the row with this key, if there
    is one. *)
Definition updateSignalStatus (signalId newStatus : string) : Async unit :=
  try_catch
    (statement (fun t d =>
       (tt, set_signals (alter (with_status newStatus t) signalId) d)))
    throw.

(** [updateSignalTarget]: an [UPDATE] of the row with this signal and
    this index, if there is one. *)
Definition updateSignalTarget (signalId : string) (targetIndex : nat)
    (isHit : bool) : Async unit :=
  try_catch
    (statement (fun t d =>
       (tt, set_signal_targets
              (alter (alter (with_hit isHit t) targetIndex) signalId) d)))
    throw.

(** [checkEventExists]: answers [false] when the query fails. *)
Definition checkEventExists (eventId : string) : Async bool :=
  try_catch
    (statement (fun _ d =>
       (bool_decide (is_Some (ingested_events d !! eventId)), d)))
    (ret false).

(** [INSERT OR IGNORE INTO ingested_events] *)
Definition insert_or_ignore_event (eventId : string) (t : Z)
    (events : gmap string Z) : gmap string Z :=
  match events !! eventId with
  | Some _ => events
  | None => <[eventId := t]> events
  end.

(** [saveEvent]: a failure is logged and not thrown. *)
Definition saveEvent (eventId : string) : Async unit :=
  try_catch
    (statement (fun t d =>
       (tt, set_ingested_events (insert_or_ignore_event eventId t) d)))
    (ret tt).

(** [saveWalletPosition]: [INSERT OR REPLACE] under the unique index
    [(wallet_address, pair, open_event_id)]; a failure is logged and
    thrown again. *)
Definition saveWalletPosition (p : WalletPosition) : Async unit :=
  try_catch
    (statement (fun _ d =>
       (tt, set_wallet_positions
              (insert (wallet_address p, wp_pair p, open_event_id p) p) d)))
    throw.

End DatabaseManager.

(* ===================================================================== *)
(** * The price monitor worker *)
(* ===================================================================== *)

Module PriceMonitor.
Import Types Runtime DatabaseManager PerformanceCalculator.

(** What the two price providers answer for a pair during one cycle:
    a price, [null], or an exception once their retries are used up. *)
Record Market := {
  hyperliquid_getMarkPrice : string -> Outcome (option Q);
  kucoin_getPrice : string -> Outcome (option Q)
}.

(** [groupSignalsByPair]: a [Map] keeps its keys in insertion order. *)
Fixpoint group_push (p : string) (signal : Signal)
    (grouped : list (string * list Signal)) : list (string * list Signal) :=
  match grouped with
  | [] => [(p, [signal])]
  | (p', members) :: rest =>
      if String.eqb p' p then (p', (members ++ [signal])%list) :: rest
      else (p', members) :: group_push p signal rest
  end.

Definition groupSignalsByPair (activeSignals : list Signal)
    : list (string * list Signal) :=
  fold_left (fun grouped signal => group_push (pair (row signal)) signal grouped)
    activeSignals [].

(** [getCurrentPrice]: Hyperliquid first, KuCoin when it answers [null];
    an exception of either ends in [null]. *)
Definition getCurrentPrice (market : Market) (p : string) : option Q :=
  match hyperliquid_getMarkPrice market p with
  | Throw => None
  | Return (Some hlPrice) => Some hlPrice
  | Return None =>
      match kucoin_getPrice market p with
      | Throw => None
      | Return (Some kcPrice) => Some kcPrice
      | Return None => None
      end
  end.

(** [calculatePriceLevels] *)
Definition calculatePriceLevels (entryPrice stopLossPercent : Q)
    (targets : list Q) (signalType : string) : Q * list Q :=
  if String.eqb signalType "LONG" then
    (entryPrice * (1 + stopLossPercent / 100),
     map (fun tp => entryPrice * (1 + tp / 100)) targets)
  else
    (entryPrice * (1 - Qabs stopLossPercent / 100),
     map (fun tp => entryPrice * (1 - tp / 100)) targets).

(** [isStopLossHit] *)
Definition isStopLossHit (currentPrice stopLossPrice : Q) (signalType : string)
    : bool :=
  if String.eqb signalType "LONG" then Qle_bool currentPrice stopLossPrice
  else Qle_bool stopLossPrice currentPrice.

(** The loop of [checkTakeProfitHits] from index [i] on. *)
Fixpoint scanTargets (targetStatus : gmap nat bool) (currentPrice : Q)
    (signalType : string) (i : nat) (targetPrices : list Q) : list nat :=
  match targetPrices with
  | [] => []
  | targetPrice :: rest =>
      let isAlreadyHit := default false (targetStatus !! i) in
      let hits := scanTargets targetStatus currentPrice signalType (S i) rest in
      if negb isAlreadyHit then
        let isHit :=
          if String.eqb signalType "LONG" then Qle_bool targetPrice currentPrice
          else Qle_bool currentPrice targetPrice in
        if isHit then i :: hits else hits
      else hits
  end.

(** [SELECT target_index, is_hit FROM signal_targets WHERE signal_id = ?],
    as the [Map] the rows are put in. *)
Definition select_target_status (signalId : string) (d : DB) : gmap nat bool :=
  is_hit <$> default ∅ (signal_targets d !! signalId).

(** [checkTakeProfitHits]: no hit when the query fails. *)
Definition checkTakeProfitHits (signalId : string) (currentPrice : Q)
    (targetPrices : list Q) (signalType : string) : Async (list nat) :=
  try_catch
    (let* targetStatus :=
       statement (fun _ d => (select_target_status signalId d, d)) in
     ret (scanTargets targetStatus currentPrice signalType 0 targetPrices))
    (ret []).

(** [SELECT COUNT( * ) FROM signal_targets WHERE signal_id = ? AND is_hit = 1] *)
Definition count_hit_targets (signalId : string) (d : DB) : nat :=
  size (filter (fun kv : nat * TargetRow => is_hit kv.2 = true)
          (default ∅ (signal_targets d !! signalId))).

(** [checkAllTargetsHit]: [false] when the query fails. *)
Definition checkAllTargetsHit (signalId : string) (totalTargets : nat)
    : Async bool :=
  try_catch
    (let* hitCount := statement (fun _ d => (count_hit_targets signalId d, d)) in
     ret (totalTargets <=? hitCount)%nat)
    (ret false).

Definition timeframes : list string := ["24h"; "7d"; "30d"; "all_time"].

(** [updatePerformanceMetrics]: a failure is logged and not thrown. *)
Definition updatePerformanceMetrics (signalId : string) (entryPrice exitPrice : Q)
    (signalType : string) (entryTimestamp : Z) (avgTradeSize : Q)
    (closingStatus : string) : Async unit :=
  try_catch
    (let* exitTime := Date_now in
     let durationSec := ((exitTime - entryTimestamp) / 1000)%Z in
     let durationHours := inject_Z durationSec / 3600 in
     let pnl :=
       calculatePnL entryPrice exitPrice avgTradeSize signalType 0 durationHours in
     let outcome := determineOutcome closingStatus pnl in
     for_of timeframes (fun timeframe =>
       statement (fun t d =>
         (tt, set_performance
                (insert (signalId, timeframe)
                   {| outcome := outcome; pnl := pnl; duration_sec := durationSec;
                      max_drawdown_pct := 0; updated_at := t |}) d))))
    (ret tt).

Definition notification (eventType signalId : string) : NotificationEvent :=
  {| ne_type := eventType; ne_signal_id := signalId;
     chat_id := "CONFIGURED_IN_NOTIFIER" |}.

(** [handleStopLossHit]: a failure is logged and not thrown. *)
Definition handleStopLossHit (signalId signalType : string)
    (currentPrice entryPrice avgTradeSize : Q) (entryTimestamp : Z) : Async unit :=
  try_catch
    (updateSignalStatus signalId "SL_HIT" ;;
     updatePerformanceMetrics signalId entryPrice currentPrice signalType
       entryTimestamp avgTradeSize "SL_HIT" ;;
     notificationQueue_send (notification "SL_HIT" signalId))
    (ret tt).

(** [handleTakeProfitHits]: a failure is logged and not thrown. *)
Definition handleTakeProfitHits (signalId signalType : string) (currentPrice : Q)
    (tpHits : list nat) (targets : list Q) (entryPrice avgTradeSize : Q)
    (entryTimestamp : Z) : Async unit :=
  try_catch
    (for_of tpHits (fun tpIndex => updateSignalTarget signalId tpIndex true) ;;
     let* allTargetsHit := checkAllTargetsHit signalId (length targets) in
     let newStatus := if allTargetsHit : bool then "TP_HIT" else "PARTIAL_TP" in
     updateSignalStatus signalId newStatus ;;
     (if allTargetsHit then
        updatePerformanceMetrics signalId entryPrice currentPrice signalType
          entryTimestamp avgTradeSize "TP_HIT"
      else ret tt) ;;
     notificationQueue_send (notification newStatus signalId))
    (ret tt).

(** [processSignalPriceCheck]: the transition function of one signal. *)
Definition processSignalPriceCheck (signal : Signal) (currentPrice : Q)
    : Async unit :=
  let signalId := signal_id signal in
  let signalType := type (row signal) in
  let entryPrice := entry_price (row signal) in
  let stopLossPercent := stop_loss (row signal) in
  let targets := targets_json (row signal) in
  let avgTradeSize := avg_trade_size (row signal) in
  let entryTimestamp := entry_timestamp (row signal) in
  let '(stopLossPrice, targetPrices) :=
    calculatePriceLevels entryPrice stopLossPercent targets signalType in
  log_checking signalId ;;
  if isStopLossHit currentPrice stopLossPrice signalType then
    handleStopLossHit signalId signalType currentPrice entryPrice avgTradeSize
      entryTimestamp
  else
    let* tpHits :=
      checkTakeProfitHits signalId currentPrice targetPrices signalType in
    if (0 <? length tpHits)%nat then
      handleTakeProfitHits signalId signalType currentPrice tpHits targets
        entryPrice avgTradeSize entryTimestamp
    else ret tt.

(** [processPairSignals]: without a price the signals of the pair are
    skipped; a failure on one signal is logged and the next one is
    processed. *)
Definition processPairSignals (market : Market) (p : string)
    (pairSignals : list Signal) : Async unit :=
  try_catch
    (match getCurrentPrice market p with
     | None => ret tt
     | Some currentPrice =>
         for_of pairSignals (fun signal =>
           try_catch (processSignalPriceCheck signal currentPrice) (ret tt))
     end)
    throw.

(** [monitorActivePrices] *)
Definition monitorActivePrices (market : Market) : Async unit :=
  try_catch
    (let* activeSignals := getActiveSignals in
     if (length activeSignals =? 0)%nat then ret tt
     else
       let signalsByPair := groupSignalsByPair activeSignals in
       for_of signalsByPair (fun entry =>
         try_catch (processPairSignals market entry.1 entry.2) (ret tt)))
    throw.

(** The [scheduled] handler: one monitoring cycle.  A failure is logged
    and not thrown. *)
Definition scheduled (market : Market) : Async unit :=
  try_catch (monitorActivePrices market) (ret tt).

(** The world after one cycle. *)
Definition cycle (market : Market) (w : World) : World := (scheduled market w).2.

(** The world after the cycles of a sequence of markets, one after the
    other. *)
Definition cycles (markets : list Market) (w : World) : World :=
  fold_left (fun w' market => cycle market w') markets w.

End PriceMonitor.


(* ===================================================================== *)
(** * The ingestion worker *)
(* ===================================================================== *)

Module Ingestion.
Import Types Runtime DatabaseManager Utils.

(** [field || fallback] on an optional string: a missing field and the
    empty string are both falsy. *)
Definition or_default (field : option string) (fallback : string) : string :=
  match field with
  | Some s => if String.eqb s "" then fallback else s
  | None => fallback
  end.

(** The direction a fill implies: [fill.side === 'B' ? 'LONG' : 'SHORT']. *)
Definition fillDirection (fill : HyperliquidFill) : string :=
  if String.eqb (fill_side fill) "B" then "LONG" else "SHORT".

(** The predicate of the [filter] in [findRelevantFill]. *)
Definition fillMatches (p positionType : string) (fill : HyperliquidFill) : bool :=
  if negb (String.eqb (fill_coin fill) p) then false
  else String.eqb (fillDirection fill) positionType.

(** [findRelevantFill] *)
Definition findRelevantFill (userFills : option HyperliquidUserFills)
    (p positionType : string) : option HyperliquidFill :=
  match userFills with
  | None => None
  | Some payload =>
      match fills payload with
      | None => None
      | Some allFills =>
          let recentFills :=
            sort_desc fill_time (List.filter (fillMatches p positionType) allFills) in
          head recentFills
      end
  end.

(** [await Promise.all([a, b])]: both promises are started, in this
    order, whatever becomes of the other one, and the whole is rejected
    when one of them is. *)
Definition Promise_all2 (a b : Async unit) : Async unit :=
  fun w =>
    let '(settledA, w1) := a w in
    let '(settledB, w2) := b w1 in
    match settledA, settledB with
    | Return _, Return _ => (Return tt, w2)
    | _, _ => (Throw, w2)
    end.

Section ProcessPosition.
(** The platform's [parseFloat] and [parseInt], on strings that hold a
    number. *)
Variable parseFloat : string -> Q.
Variable parseInt : string -> Z.

(** [processPosition].  [fundingRateFetch] is what
    [HyperliquidClient.getFundingRate] settles with for the pair. *)
Definition processPosition (walletAddress : string)
    (assetPosition : AssetPosition) (userFills : option HyperliquidUserFills)
    (config : Config) (fundingRateFetch : Outcome (option Q)) : Async unit :=
  let p := coin assetPosition in
  match position assetPosition with
  | None => ret tt
  | Some rawPosition =>
      let currentSize := parseFloat (or_default (szi rawPosition) "0") in
      let entryPx := parseFloat (or_default (entryPx rawPosition) "0") in
      let leverage := parseInt (or_default (leverage_value rawPosition) "1") in
      if Qeq_bool currentSize 0 then ret tt
      else if existsb (String.eqb p) (ignored_pairs config) then ret tt
      else if (0 <? length (monitored_pairs config))%nat
              && negb (existsb (String.eqb p) (monitored_pairs config))
      then ret tt
      else
        let positionType := if Qgtb currentSize 0 then "LONG" else "SHORT" in
        let absSize := Qabs currentSize in
        let notionalValue := calculateNotionalValue entryPx absSize 1 in
        if Qltb notionalValue (min_trade_size config) then ret tt
        else if (leverage <? required_leverage_min config)%Z then ret tt
        else
          let relevantFill := findRelevantFill userFills p positionType in
          let* entryTimestamp :=
            match relevantFill with
            | Some fill => ret (fill_time fill)
            | None => Date_now
            end in
          let actualEntryPrice :=
            match relevantFill with
            | Some fill => parseFloat (fill_px fill)
            | None => entryPx
            end in
          let eventId := generateEventId walletAddress p entryTimestamp positionType in
          let* alreadyProcessed := checkEventExists eventId in
          if alreadyProcessed : bool then ret tt
          else
            let fundingRate :=
              match fundingRateFetch with
              | Return (Some rate) => rate
              | _ => 0
              end in
            let* lastUpdated := Date_now in
            let newPosition :=
              {| wallet_address := walletAddress; wp_pair := p;
                 position_type := positionType;
                 wp_entry_timestamp := entryTimestamp;
                 wp_entry_price := actualEntryPrice; trade_size := absSize;
                 Types.leverage := leverage; funding_rate := fundingRate;
                 wp_last_updated := lastUpdated; open_event_id := eventId |} in
            Promise_all2 (saveWalletPosition newPosition) (saveEvent eventId) ;;
            signalQueue_send {| se_type := "new_position"; se_data := newPosition |}
  end.

End ProcessPosition.

End Ingestion.

(* ===================================================================== *)
(** * What is observed of a run *)
(* ===================================================================== *)

Module Observations.
Import Types Runtime DatabaseManager PriceMonitor.

(** The status of a signal and the hit flag of one of its rungs. *)
Definition status_of (signalId : string) (w : World) : option string :=
  status <$> (signals (db w) !! signalId).

Definition hit_flag (signalId : string) (i : nat) (w : World) : option bool :=
  is_hit <$> (default ∅ (signal_targets (db w) !! signalId) !! i).

(** How many times the transition function was entered for a signal
    between two worlds: the number of [Checking signal] lines with its
    id that the later log has more than the earlier one. *)
Definition evaluations (signalId : string) (w w' : World) : nat :=
  count_occ string_dec (drop (length (checking_log w)) (checking_log w')) signalId.

(** The row of a signal and the rows of its targets are the same in two
    worlds. *)
Definition kept (signalId : string) (w w' : World) : Prop :=
  signals (db w') !! signalId = signals (db w) !! signalId
  /\ signal_targets (db w') !! signalId = signal_targets (db w) !! signalId.

(** No hit flag that is set in [w] is unset in [w']. *)
Definition hits_kept (w w' : World) : Prop :=
  forall signalId i,
    hit_flag signalId i w = Some true -> hit_flag signalId i w' = Some true.

(** A computation relates every world to the world it leaves. *)
Definition preserves {A} (R : World -> World -> Prop) (m : Async A) : Prop :=
  forall w, R w (m w).2.

(** A computation never throws. *)
Definition returns {A} (m : Async A) : Prop :=
  forall w, exists a, (m w).1 = Return a.

(** What a piece of the monitor may write: the status of one signal,
    with one of the listed values; the hit flags of that signal, set to
    true; rows of [performance]; notifications whose type is one of the
    listed values; and lines of the [Checking signal] log. *)
Record Footprint := {
  fp_signal : string;
  fp_statuses : list string;
  fp_targets : bool;
  fp_log : bool
}.

Definition db_step (F : Footprint) (d d' : DB) : Prop :=
  d' = d
  \/ (exists st t, In st (fp_statuses F)
        /\ d' = set_signals (alter (with_status st t) (fp_signal F)) d)
  \/ (fp_targets F = true
      /\ exists i t,
           d' = set_signal_targets
                  (alter (alter (with_hit true t) i) (fp_signal F)) d)
  \/ (exists k m, d' = set_performance (insert k m) d).

Inductive touches (F : Footprint) : World -> World -> Prop :=
| touches_refl w : touches F w w
| touches_faults w w' f : touches F w w' -> touches F w (set_faults f w')
| touches_db w w' d' :
    touches F w w' -> db_step F (db w') d' ->
    touches F w (set_db (fun _ => d') w')
| touches_notify w w' ev :
    touches F w w' -> In (ne_type ev) (fp_statuses F) ->
    touches F w (set_notification_queue (fun q => (q ++ [ev])%list) w')
| touches_log w w' :
    touches F w w' -> fp_log F = true ->
    touches F w (set_checking_log (fun l => (l ++ [fp_signal F])%list) w').

(** The footprints of the two branches of [processSignalPriceCheck]. *)
Definition stop_loss_footprint (signalId : string) : Footprint :=
  {| fp_signal := signalId; fp_statuses := ["SL_HIT"]; fp_targets := false;
     fp_log := false |}.

Definition take_profit_footprint (signalId : string) : Footprint :=
  {| fp_signal := signalId; fp_statuses := ["TP_HIT"; "PARTIAL_TP"];
     fp_targets := true; fp_log := false |}.

Definition evaluation_footprint (signalId : string) : Footprint :=
  {| fp_signal := signalId; fp_statuses := ["SL_HIT"; "TP_HIT"; "PARTIAL_TP"];
     fp_targets := true; fp_log := true |}.

(** One footprint allows what the other does. *)
Definition fp_le (F G : Footprint) : Prop :=
  fp_signal F = fp_signal G
  /\ (forall st, In st (fp_statuses F) -> In st (fp_statuses G))
  /\ (fp_targets F = true -> fp_targets G = true)
  /\ (fp_log F = true -> fp_log G = true).

(** The members of the groups whose pair is kept. *)
Definition members (keep : string -> bool) (grouped : list (string * list Signal))
    : list Signal :=
  concat (map (fun entry : string * list Signal =>
                 if keep entry.1 then entry.2 else []) grouped).

(** One of the providers has a price for the pair. *)
Definition has_price (market : Market) (p : string) : bool :=
  match getCurrentPrice market p with Some _ => true | None => false end.

(** The signals whose transition function a cycle enters, in order: the
    members of the groups whose pair has a price. *)
Definition evaluated (market : Market) (d : DB) : list Signal :=
  concat (map (fun entry : string * list Signal =>
                 match getCurrentPrice market entry.1 with
                 | Some _ => entry.2
                 | None => []
                 end)
            (groupSignalsByPair (select_active_signals d))).

(** The hit flags of the first [n] rungs of a signal. *)
Definition hit_flags (signalId : string) (n : nat) (w : World) : list (option bool) :=
  map (fun i => hit_flag signalId i w) (seq 0 n).

(** The status of a signal after each cycle of a sequence. *)
Fixpoint status_trace (signalId : string) (markets : list Market) (w : World)
    : list (option string) :=
  match markets with
  | [] => []
  | market :: rest =>
      let w' := cycle market w in
      status_of signalId w' :: status_trace signalId rest w'
  end.

End Observations.

(* ===================================================================== *)
(** * Worked inputs *)
(* ===================================================================== *)

Module Samples.
Import Types Runtime DatabaseManager PriceMonitor Observations.

(** Reading of a decimal literal with an optional sign and fraction,
    standing for [parseFloat] and [parseInt] on the sample payloads. *)
Definition digit_of (c : ascii) : option Z :=
  let n := Z.of_N (N_of_ascii c) in
  if ((48 <=? n) && (n <=? 57))%Z then Some (n - 48)%Z else None.

Fixpoint read_digits (s : string) (acc : Z) (count : nat) : Z * nat * string :=
  match s with
  | EmptyString => (acc, count, s)
  | String c s' =>
      match digit_of c with
      | Some d => read_digits s' (10 * acc + d)%Z (S count)
      | None => (acc, count, s)
      end
  end.

Definition unsigned_decimal (s : string) : Q :=
  let '(whole, _, afterWhole) := read_digits s 0%Z 0%nat in
  match afterWhole with
  | String "."%char fraction =>
      let '(numerator, places, _) := read_digits fraction 0%Z 0%nat in
      inject_Z whole + inject_Z numerator / inject_Z (10 ^ Z.of_nat places)
  | _ => inject_Z whole
  end.

Definition decimal (s : string) : Q :=
  match s with
  | String "-"%char s' => - unsigned_decimal s'
  | _ => unsigned_decimal s
  end.

Definition integer (s : string) : Z :=
  match s with
  | String "-"%char s' => (- (read_digits s' 0 0%nat).1.1)%Z
  | _ => (read_digits s 0%Z 0%nat).1.1
  end.

Definition empty_db : DB :=
  {| signals := ∅; signal_targets := ∅; performance := ∅;
     wallet_positions := ∅; ingested_events := ∅ |}.

Definition world_of (d : DB) (t : Z) (pending : list bool) : World :=
  {| db := d; notification_queue := []; signal_queue := []; now := t;
     checking_log := []; faults := pending |}.

(** A market in which Hyperliquid quotes the same price for every pair. *)
Definition quote (price : Q) : Market :=
  {| hyperliquid_getMarkPrice := fun _ => Return (Some price);
     kucoin_getPrice := fun _ => Return None |}.

Definition open_target (percent price : Q) : TargetRow :=
  {| target_percent := percent; target_price := price; is_hit := false;
     hit_timestamp := None |}.

(** The ladder of the specification: LONG at 100.00 with targets 2.0,
    3.5 and 5.0 percent. *)
Definition ladder_row : SignalRow :=
  {| pair := "ETH"; type := "LONG"; entry_timestamp := 0;
     entry_price := 100; avg_trade_size := 1; stop_loss := -2.5;
     targets_json := [2.0; 3.5; 5.0]; status := "OPEN"; created_at := 0;
     last_updated := None |}.

Definition ladder_signal : Signal := {| signal_id := "sig-1"; row := ladder_row |}.

Definition ladder_db : DB :=
  set_signal_targets
    (fun _ => {[ "sig-1" :=
       <[0%nat := open_target 2.0 102]>
         (<[1%nat := open_target 3.5 103.5]>
            (<[2%nat := open_target 5.0 105]> ∅)) ]})
    (set_signals (fun _ => {[ "sig-1" := ladder_row ]}) empty_db).

Definition ladder_world : World := world_of ladder_db 3600000 [].

(** The stop-loss example of the specification: LONG at 2450.50 with a
    stop-loss of -2.5 percent. *)
Definition eth_row : SignalRow :=
  {| pair := "ETH"; type := "LONG"; entry_timestamp := 0;
     entry_price := 2450.50; avg_trade_size := 1; stop_loss := -2.5;
     targets_json := [2.0; 3.5; 5.0]; status := "OPEN"; created_at := 0;
     last_updated := None |}.

Definition eth_signal : Signal := {| signal_id := "sig-eth"; row := eth_row |}.

Definition eth_db : DB := set_signals (fun _ => {[ "sig-eth" := eth_row ]}) empty_db.

Definition eth_world : World := world_of eth_db 3600000 [].

(** A wallet with one ETH long, as the mock API serves it. *)
Definition wallet : string := "0xecb63caa47c7c4e77f60f1ce858cf28dc2b82b00".

Definition eth_long : AssetPosition :=
  {| coin := "ETH";
     position := Some {| szi := Some "10.5"; entryPx := Some "2450.50";
                         leverage_value := Some "5" |} |}.

Definition config : Config :=
  {| wallet_count := 5; time_window_min := 10; min_trade_size := 0;
     ignored_pairs := []; required_leverage_min := 1; poll_interval_sec := 60;
     monitored_pairs := [] |}.

Definition fill (c px : string) (t : Z) (side : string) : HyperliquidFill :=
  {| fill_coin := c; fill_px := px; fill_time := t; fill_side := side |}.

(** Recent fills of the wallet: two ETH buys half a minute apart, the
    older one first, an ETH sell and a BTC buy. *)
Definition recent_fills : list HyperliquidFill :=
  [ fill "ETH" "2449.00" 1700000000000 "B";
    fill "ETH" "2451.00" 1700000030000 "B";
    fill "ETH" "2460.00" 1700000050000 "A";
    fill "BTC" "42100.00" 1700000055000 "B" ].

Definition user_fills : option HyperliquidUserFills :=
  Some {| fills := Some recent_fills |}.

(** One poll of the wallet at [t = 1700000100000] against the database
    [d], with the faults [pending]. *)
Definition poll (pending : list bool) (d : DB) : Outcome unit * World :=
  Ingestion.processPosition decimal integer wallet eth_long user_fills config
    (Return (Some 0.0001)) (world_of d 1700000100000 pending).

(** The key of the ETH long of the wallet. *)
Definition eth_long_key : string := "MHhlY2I2M2NhYTQ3YzdjNGU3N2Y2MGYx".

(** The position and the event that a first poll without faults stores
    and publishes. *)
Definition stored_position : WalletPosition :=
  {| wallet_address := wallet; wp_pair := "ETH"; position_type := "LONG";
     wp_entry_timestamp := 1700000030000;
     wp_entry_price := decimal "2451.00"; trade_size := Qabs (decimal "10.5");
     leverage := 5; funding_rate := 0.0001;
     wp_last_updated := 1700000100000; open_event_id := eth_long_key |}.

Definition published_event : SignalEvent :=
  {| se_type := "new_position"; se_data := stored_position |}.

(** Both rows of an event exist, or neither does. *)
Definition both_or_neither (walletAddress p eventId : string) (d : DB) : Prop :=
  (is_Some (wallet_positions d !! (walletAddress, p, eventId))
   /\ is_Some (ingested_events d !! eventId))
  \/ (wallet_positions d !! (walletAddress, p, eventId) = None
      /\ ingested_events d !! eventId = None).

End Samples.

(* ===================================================================== *)
(** * shared/utils.ts: the other helpers *)
(* ===================================================================== *)

Module Helpers.

(** ** [withRetry] *)

(** The [jitteredDelay] that [withRetry] sleeps after the failure of
    invocation [k]. *)
Definition jitteredDelay (random : nat -> Q) (options : Utils.RetryOptions) (k : nat)
    : Q :=
  Utils.backoffDelay options (Z.of_nat k) + random k * 1000.

(** Invocation [k] of the operation fails with an error that
    [withRetry] retries. *)
Definition retried {T} (operation : nat -> Utils.Attempt T) (k : nat) : Prop :=
  exists e, operation k = Utils.Rejected e /\ Utils.nonRetryable e = false.

(** ** [isValidWalletAddress] *)

(** The character class [[a-fA-F0-9]]. *)
Definition is_hex (c : ascii) : bool :=
  let n := N_of_ascii c in
  ((97 <=? n) && (n <=? 102) || (65 <=? n) && (n <=? 70)
   || (48 <=? n) && (n <=? 57))%N.

(** [[a-fA-F0-9]{n}$] *)
Fixpoint hex_digits (n : nat) (s : string) : bool :=
  match n, s with
  | O, EmptyString => true
  | S n', String c s' => is_hex c && hex_digits n' s'
  | _, _ => false
  end.

(** [/^0x[a-fA-F0-9]{40}$/.test(address)] *)
Definition isValidWalletAddress (address : string) : bool :=
  match address with
  | String "0"%char (String "x"%char digits) => hex_digits 40 digits
  | _ => false
  end.

(** Every character of a string is in [[a-zA-Z0-9]]. *)
Fixpoint all_alnum (s : string) : bool :=
  match s with
  | EmptyString => true
  | String c s' => Utils.is_alnum c && all_alnum s'
  end.

(** The four characters that [btoa] makes of three bytes. *)
Definition sextets (a b c : ascii) : list ascii :=
  [ Utils.b64char (N.shiftr (N_of_ascii a) 2);
    Utils.b64char (N.lor (N.shiftl (N.land (N_of_ascii a) 3) 4) (N.shiftr (N_of_ascii b) 4));
    Utils.b64char (N.lor (N.shiftl (N.land (N_of_ascii b) 15) 2) (N.shiftr (N_of_ascii c) 6));
    Utils.b64char (N.land (N_of_ascii c) 63) ].

(** The first [k] groups of three characters of a string are there and
    alphanumeric. *)
Fixpoint groups_alnum (k : nat) (s : string) : bool :=
  match k, s with
  | O, _ => true
  | S k', String a (String b (String c s')) =>
      Utils.is_alnum a && Utils.is_alnum b && Utils.is_alnum c && groups_alnum k' s'
  | _, _ => false
  end.

Fixpoint take_groups (k : nat) (s : string) : string :=
  match k, s with
  | S k', String a (String b (String c s')) =>
      String a (String b (String c (take_groups k' s')))
  | _, _ => EmptyString
  end.

(** ** [batchArray] *)

Section BatchArray.
Context {T : Type}.

(** [array.slice(start, end)]: a negative index counts from the end of
    the array, and both are clamped to it. *)
Definition slice (array : list T) (start finish : Z) : list T :=
  let len := Z.of_nat (length array) in
  let clamp (index : Z) : Z :=
    if (index <? 0)%Z then Z.max (len + index) 0 else Z.min index len in
  let k := clamp start in
  let final := clamp finish in
  take (Z.to_nat (final - k)) (drop (Z.to_nat k) array).

Variable array : list T.
Variable batchSize : Z.

(** The [for] loop of [batchArray] from index [i] on; [None] when the
    loop is still running after [fuel] iterations. *)
Fixpoint batchLoop (fuel : nat) (i : Z) (batches : list (list T))
    : option (list (list T)) :=
  if (i <? Z.of_nat (length array))%Z then
    match fuel with
    | O => None
    | S fuel' =>
        batchLoop fuel' (i + batchSize)%Z
          (batches ++ [slice array i (i + batchSize)])%list
    end
  else Some batches.

Definition batchArray (fuel : nat) : option (list (list T)) := batchLoop fuel 0%Z [].
End BatchArray.

End Helpers.

(** ** [RateLimiter] *)

Module RateLimiter.

(** [Math.min(...requests)], which is [Infinity] ([None]) without
    arguments. *)
Definition Math_min (requests : list Z) : option Z :=
  match requests with
  | [] => None
  | time :: rest => Some (fold_left Z.min rest time)
  end.

Section WaitForSlot.
Variable maxRequests : Z.
Variable windowMs : Z.
(** [wake now waitTime] is what the clock reads when [sleep(waitTime)],
    started at [now], has resolved; [None] is a wait of [Infinity]. *)
Variable wake : Z -> option Z -> Z.

(** [requests.filter(time => now - time < this.windowMs)] *)
Definition in_window (now : Z) (requests : list Z) : list Z :=
  List.filter (fun time => (now - time <? windowMs)%Z) requests.

(** [waitForSlot], called at [now] by one caller at a time with the
    recorded [requests]: the time at which the slot is granted and the
    requests recorded then, or [None] when the caller is still waiting
    after [fuel] sleeps. *)
Fixpoint waitForSlot (fuel : nat) (now : Z) (requests : list Z)
    : option (Z * list Z) :=
  let requests := in_window now requests in
  let granted := Some (now, (requests ++ [now])%list) in
  if (maxRequests <=? Z.of_nat (length requests))%Z then
    let waitTime :=
      match Math_min requests with
      | Some oldestRequest => Some (windowMs - (now - oldestRequest) + 100)%Z
      | None => None
      end in
    if match waitTime with Some t => (0 <? t)%Z | None => true end then
      match fuel with
      | O => None
      | S fuel' => waitForSlot fuel' (wake now waitTime) requests
      end
    else granted
  else granted.
End WaitForSlot.

End RateLimiter.

(** ** [createCircuitBreaker] *)

Module CircuitBreaker.
Import Utils.

Inductive State := CLOSED | OPEN | HALF_OPEN.

(** The variables that the closure of [createCircuitBreaker] holds. *)
Record Breaker := {
  failures : Z;
  lastFailureTime : Z;
  state : State
}.

Definition created : Breaker :=
  {| failures := 0; lastFailureTime := 0; state := CLOSED |}.

(** How [execute] settles: with the value of the operation, with the
    error of the operation, or with [Error('Circuit breaker is OPEN')]
    before the operation is invoked. *)
Inductive Execution (T : Type) :=
| Passed (v : T)
| Failed (e : Error)
| Refused.
Arguments Passed {T} v.
Arguments Failed {T} e.
Arguments Refused {T}.

(** What holds of the breaker between two calls. *)
Definition breaker_consistent (failureThreshold : Z) (b : Breaker) : Prop :=
  (0 <= failures b <= failureThreshold)%Z
  /\ (state b = OPEN <-> failures b = failureThreshold).

Definition is_open (s : State) : bool :=
  match s with OPEN => true | _ => false end.

Definition is_half_open (s : State) : bool :=
  match s with HALF_OPEN => true | _ => false end.

Section Execute.
Context {T : Type}.
Variable failureThreshold : Z.
Variable resetTimeoutMs : Z.

(** [execute(operation)] called at [now]; [operation] is what the
    operation settles with if it is invoked. *)
Definition execute (now : Z) (operation : Attempt T) (b : Breaker)
    : Execution T * Breaker :=
  let b :=
    if is_open (state b) && (resetTimeoutMs <? now - lastFailureTime b)%Z then
      {| failures := 0; lastFailureTime := lastFailureTime b; state := HALF_OPEN |}
    else b in
  if is_open (state b) then (Refused, b)
  else
    match operation with
    | Resolved result =>
        (Passed result,
         if is_half_open (state b) then
           {| failures := 0; lastFailureTime := lastFailureTime b; state := CLOSED |}
         else b)
    | Rejected error =>
        let failures' := (failures b + 1)%Z in
        (Failed error,
         {| failures := failures'; lastFailureTime := now;
            state := if (failureThreshold <=? failures')%Z then OPEN else state b |})
    end.

(** A sequence of calls, each with the time at which it is made and
    what its operation settles with; the breaker they leave. *)
Definition executions (calls : list (Z * Attempt T)) (b : Breaker) : Breaker :=
  fold_left (fun b' call => (execute call.1 call.2 b').2) calls b.

(** The settlements of the calls of a sequence, in order. *)
Fixpoint settlements (calls : list (Z * Attempt T)) (b : Breaker)
    : list (Execution T) :=
  match calls with
  | [] => []
  | call :: rest =>
      let '(settled, b') := execute call.1 call.2 b in
      settled :: settlements rest b'
  end.

Definition rejected (call : Z * Attempt T) : bool :=
  match call.2 with Rejected _ => true | Resolved _ => false end.
End Execute.

End CircuitBreaker.

(* ===================================================================== *)
(** * shared/performance.ts: [calculateMaxDrawdown] *)
(* ===================================================================== *)

Module Drawdown.

Record PricePoint := {
  price : Q;
  timestamp : Z
}.

(** [currentPnLPercent] of one price point. *)
Definition currentPnLPercent (entryPrice : Q) (signalType : string)
    (pricePoint : PricePoint) : Q :=
  if String.eqb signalType "LONG" then
    ((price pricePoint - entryPrice) / entryPrice) * 100
  else
    ((entryPrice - price pricePoint) / entryPrice) * 100.

(** [PerformanceCalculator.calculateMaxDrawdown] *)
Definition calculateMaxDrawdown (entryPrice : Q) (priceHistory : list PricePoint)
    (signalType : string) : Q :=
  let maxDrawdown :=
    fold_left
      (fun maxDrawdown pricePoint =>
         let current := currentPnLPercent entryPrice signalType pricePoint in
         if Qltb current maxDrawdown then current else maxDrawdown)
      priceHistory 0 in
  Qabs maxDrawdown.

End Drawdown.

(* ===================================================================== *)
(** * The ingestion worker: [processWallet] *)
(* ===================================================================== *)

Module WalletIngestion.
Import Types Runtime DatabaseManager Utils Ingestion.

Section ProcessWallet.
Variable parseFloat : string -> Q.
Variable parseInt : string -> Z.

(** [processWallet].  [clearinghouseFetch] and [fillsFetch] are what
    [getClearinghouseState] and [getUserFills] settle with, and
    [fundingRateFetch] what [getFundingRate] settles with for a pair. *)
Definition processWallet (walletAddress : string)
    (clearinghouseFetch : Outcome (option HyperliquidClearinghouseState))
    (fillsFetch : Outcome (option HyperliquidUserFills))
    (config : Config) (fundingRateFetch : string -> Outcome (option Q))
    : Async unit :=
  try_catch
    (match clearinghouseFetch, fillsFetch with
     | Return clearinghouseState, Return userFills =>
         match clearinghouseState with
         | None => ret tt
         | Some state =>
             for_of (default [] (assetPositions state)) (fun assetPosition =>
               try_catch
                 (processPosition parseFloat parseInt walletAddress assetPosition
                    userFills config (fundingRateFetch (coin assetPosition)))
                 (ret tt))
         end
     | _, _ => throw
     end)
    throw.

(** The tests that a position passes before [processPosition] looks its
    key up. *)
Definition qualifies (config : Config) (assetPosition : AssetPosition) : Prop :=
  exists rawPosition,
    position assetPosition = Some rawPosition
    /\ let currentSize := parseFloat (or_default (szi rawPosition) "0") in
       let entryPx := parseFloat (or_default (entryPx rawPosition) "0") in
       let leverage := parseInt (or_default (leverage_value rawPosition) "1") in
       ~ currentSize == 0
       /\ ~ In (coin assetPosition) (ignored_pairs config)
       /\ (monitored_pairs config = []
           \/ In (coin assetPosition) (monitored_pairs config))
       /\ min_trade_size config <= entryPx * Qabs currentSize * 1
       /\ (required_leverage_min config <= leverage)%Z.
End ProcessWallet.

(** The key under which every position of a well-formed wallet address
    is recorded. *)
Definition walletKey (walletAddress : string) : string :=
  btoa (substring0 24 walletAddress).

End WalletIngestion.

(* ===================================================================== *)
(** * Housekeeping statements *)
(* ===================================================================== *)

Module Housekeeping.
Import Types Runtime.

(** [DELETE FROM ingested_events WHERE created_at < ?] *)
Definition delete_events_before (cutoffTime : Z) (events : gmap string Z)
    : gmap string Z :=
  filter (fun kv : string * Z => (cutoffTime <= kv.2)%Z) events.

(** [DatabaseManager.cleanupOldEvents]: a failure is logged and not
    thrown. *)
Definition cleanupOldEvents (olderThanMs : Z) : Async unit :=
  try_catch
    (let* t := Date_now in
     let cutoffTime := (t - olderThanMs)%Z in
     statement (fun _ d =>
       (tt, set_ingested_events (delete_events_before cutoffTime) d)))
    (ret tt).

(** The default of [olderThanMs]: seven days. *)
Definition sevenDays : Z := 7 * 24 * 60 * 60 * 1000.

(** [DELETE FROM performance WHERE timeframe != 'all_time' AND updated_at < ?] *)
Definition delete_performance_before (cutoffTime : Z)
    (rows : gmap (string * string) PerformanceMetrics)
    : gmap (string * string) PerformanceMetrics :=
  filter (fun kv : string * string * PerformanceMetrics =>
            ~ (kv.1.2 <> "all_time" /\ (updated_at kv.2 < cutoffTime)%Z)) rows.

(** [cleanupOldPerformanceData] of the performance tracker: a failure
    is logged and not thrown. *)
Definition cleanupOldPerformanceData : Async unit :=
  try_catch
    (let* t := Date_now in
     let ninetyDaysAgo := (t - 90 * 24 * 60 * 60 * 1000)%Z in
     statement (fun _ d =>
       (tt, set_performance (delete_performance_before ninetyDaysAgo) d)))
    (ret tt).

End Housekeeping.

(* ===================================================================== *)
(** * shared/api-clients.ts: prices and alerts *)
(* ===================================================================== *)

Module PriceClients.
Import Utils Types ApiClients Runtime PriceMonitor.

(** An entry of [assetCtxs]; [markPx] is [None] when the payload does
    not carry it. *)
Record AssetCtx := {
  ctx_coin : string;
  markPx : option string
}.

(** The body of a [metaAndAssetCtxs] response: [None] stands for a body
    that is falsy, [assetCtxs] may be missing. *)
Record AssetCtxs := {
  assetCtxs : option (list AssetCtx)
}.

Section MarkPrice.
Variable parseFloat : string -> Q.

(** The loop over [data.assetCtxs]: the first entry of the pair with a
    truthy [markPx]. *)
Fixpoint findMarkPrice (p : string) (entries : list AssetCtx) : option Q :=
  match entries with
  | [] => None
  | assetCtx :: rest =>
      match markPx assetCtx with
      | Some px =>
          if String.eqb (ctx_coin assetCtx) p && negb (String.eqb px "")
          then Some (parseFloat px)
          else findMarkPrice p rest
      | None => findMarkPrice p rest
      end
  end.

(** The thunk that [HyperliquidClient.getMarkPrice] hands to
    [withRetry]. *)
Definition markPriceOperation (p : string)
    (fetch : nat -> Fetch (option AssetCtxs)) (k : nat) : Attempt (option Q) :=
  match fetch k with
  | TimedOut => Rejected RetryableError
  | NetworkFailure => Rejected OtherError
  | Response status data =>
      if negb (ok status) then Rejected (ApiError (Some status))
      else
        match data with
        | Some {| assetCtxs := Some entries |} => Resolved (findMarkPrice p entries)
        | _ => Resolved None
        end
  end.

(** [HyperliquidClient.getMarkPrice] with the default retry options. *)
Definition getMarkPrice (p : string) (fetch : nat -> Fetch (option AssetCtxs))
    (random : nat -> Q) : RetryRun (option Q) :=
  withRetry (markPriceOperation p fetch) random defaultRetryOptions.

(** What the caller of a retried operation sees. *)
Definition awaited {T} (run : RetryRun T) : Outcome T :=
  match settled run with
  | Fulfilled v => Return v
  | Threw _ => Throw
  end.

(** The market of a cycle in which Hyperliquid is asked through
    [getMarkPrice]; [fetch p] is what the fetches for the pair do. *)
Definition market_of (fetch : string -> nat -> Fetch (option AssetCtxs))
    (random : nat -> Q) (kucoin : string -> Outcome (option Q)) : Market :=
  {| hyperliquid_getMarkPrice := fun p => awaited (getMarkPrice p (fetch p) random);
     kucoin_getPrice := kucoin |}.
End MarkPrice.

(** The stop price and the target prices that
    [TelegramClient.sendFormattedSignalAlert] prints. *)
Definition alertPriceLevels (signalType : string) (entryPrice stopLoss : Q)
    (targets : list Q) : Q * list Q :=
  let slPrice :=
    if String.eqb signalType "LONG" then entryPrice * (1 + stopLoss / 100)
    else entryPrice * (1 - stopLoss / 100) in
  let targetPrices :=
    map (fun tp =>
           if String.eqb signalType "LONG" then entryPrice * (1 + tp / 100)
           else entryPrice * (1 - tp / 100)) targets in
  (slPrice, targetPrices).

End PriceClients.

(* ===================================================================== *)
(** * shared/performance.ts: [calculateWalletPerformance] *)
(* ===================================================================== *)

Module WalletStats.

(** A row of the first query: a signal the wallet took part in, with
    the outcome and the PnL of its [performance] row for the timeframe,
    [None] without such a row. *)
Record Participation := {
  sp_outcome : option string;
  sp_pnl : option Q
}.

Record WalletPerformance := {
  success_rate : Q;
  win_loss_ratio : Q;
  total_pnl : Q;
  avg_pnl_per_trade : Q;
  participation_rate : Q;
  total_signals : nat;
  wins : nat;
  losses : nat
}.

(** [s.outcome === outcome] *)
Definition has_outcome (outcome : string) (s : Participation) : bool :=
  match sp_outcome s with
  | Some o => String.eqb o outcome
  | None => false
  end.

Definition count (n : nat) : Q := inject_Z (Z.of_nat n).

(** [calculateWalletPerformance], from the rows of its first query and
    the count of its second one ([None] when that query returns no
    row). *)
Definition calculateWalletPerformance (signalParticipations : list Participation)
    (systemCount : option Z) : WalletPerformance :=
  let totalSignals := length signalParticipations in
  if (totalSignals =? 0)%nat then
    {| success_rate := 0; win_loss_ratio := 0; total_pnl := 0;
       avg_pnl_per_trade := 0; participation_rate := 0; total_signals := 0;
       wins := 0; losses := 0 |}
  else
    let wins := length (List.filter (has_outcome "WIN") signalParticipations) in
    let losses := length (List.filter (has_outcome "LOSS") signalParticipations) in
    let totalPnL :=
      fold_left (fun sum s => sum + default 0 (sp_pnl s)) signalParticipations 0 in
    let systemSignalCount :=
      match systemCount with
      | Some c => if (c =? 0)%Z then 1%Z else c
      | None => 1%Z
      end in
    {| success_rate :=
         if (0 <? totalSignals)%nat then (count wins / count totalSignals) * 100 else 0;
       win_loss_ratio :=
         if (0 <? losses)%nat then count wins / count losses else count wins;
       total_pnl := totalPnL;
       avg_pnl_per_trade :=
         if (0 <? totalSignals)%nat then totalPnL / count totalSignals else 0;
       participation_rate := (count totalSignals / inject_Z systemSignalCount) * 100;
       total_signals := totalSignals;
       wins := wins;
       losses := losses |}.

End WalletStats.

(* ===================================================================== *)
(** * More of what is observed of a run *)
(* ===================================================================== *)

Module MoreObservations.
Import Types Runtime DatabaseManager PriceMonitor Observations.

(** The database, the notification queue and the log are the same in
    two worlds. *)
Definition quiet (w w' : World) : Prop :=
  db w' = db w
  /\ notification_queue w' = notification_queue w
  /\ checking_log w' = checking_log w.

(** The comparison of [checkTakeProfitHits] for one target price. *)
Definition targetReached (signalType : string) (currentPrice targetPrice : Q) : bool :=
  if String.eqb signalType "LONG" then Qle_bool targetPrice currentPrice
  else Qle_bool currentPrice targetPrice.

(** The rows of the targets of a signal. *)
Definition target_rows (signalId : string) (d : DB) : gmap nat TargetRow :=
  default ∅ (signal_targets d !! signalId).

(** A row that [updatePerformanceMetrics] writes when a signal is
    closed: [exitTime] is the reading of the clock from which the
    duration is computed, once for the four rows, and [updatedAt] the
    reading that is taken for the row itself. *)
Definition closing_metrics (signal : Signal) (exitPrice : Q) (closingStatus : string)
    (exitTime updatedAt : Z) : PerformanceMetrics :=
  let durationSec := ((exitTime - entry_timestamp (row signal)) / 1000)%Z in
  let durationHours := inject_Z durationSec / 3600 in
  let pnl :=
    PerformanceCalculator.calculatePnL (entry_price (row signal)) exitPrice
      (avg_trade_size (row signal)) (type (row signal)) 0 durationHours in
  {| outcome := PerformanceCalculator.determineOutcome closingStatus pnl;
     pnl := pnl; duration_sec := durationSec; max_drawdown_pct := 0;
     updated_at := updatedAt |}.

(** The groups are those of the signals processed so far: the pairs are
    distinct, and the group of a pair holds the processed signals of
    that pair, in their order, and at least one. *)
Definition grouping (processed : list Signal) (grouped : list (string * list Signal))
    : Prop :=
  List.NoDup (map fst grouped)
  /\ (forall p members, In (p, members) grouped ->
        members <> []
        /\ members = List.filter (fun s => String.eqb (pair (row s)) p) processed)
  /\ (forall s, In s processed -> In (pair (row s)) (map fst grouped)).

(** Footprints of the pieces of [handleTakeProfitHits]. *)
Definition targets_footprint (signalId : string) : Footprint :=
  {| fp_signal := signalId; fp_statuses := []; fp_targets := true; fp_log := false |}.

Definition reading_footprint (signalId : string) : Footprint :=
  {| fp_signal := signalId; fp_statuses := []; fp_targets := false; fp_log := false |}.

Definition closing_footprint (signalId newStatus : string) : Footprint :=
  {| fp_signal := signalId; fp_statuses := [newStatus]; fp_targets := false;
     fp_log := false |}.

End MoreObservations.

(* ===================================================================== *)
(** * More worked inputs *)
(* ===================================================================== *)

Module MoreSamples.
Import Utils.

(** An operation that times out twice and then answers. *)
Definition flaky (k : nat) : Attempt Z :=
  if (k <? 2)%nat then Rejected RetryableError else Resolved 7%Z.

(** An upstream that is down: every invocation ends in a 503. *)
Definition down (k : nat) : Attempt Z := Rejected (ApiError (Some 503%Z)).

Definition half (k : nat) : Q := 1 # 2.

(** A BTC short of the sample wallet, and the account state that holds
    it next to the ETH long. *)
Definition btc_short : Types.AssetPosition :=
  {| Types.coin := "BTC";
     Types.position :=
       Some {| Types.szi := Some "-0.5"; Types.entryPx := Some "42100.00";
               Types.leverage_value := Some "10" |} |}.

Definition two_positions : Types.HyperliquidClearinghouseState :=
  {| Types.assetPositions := Some [Samples.eth_long; btc_short] |}.

(** Hyperliquid answers every request with a 503, while KuCoin would
    quote 106 for every pair. *)
Definition outage (p : string) (k : nat) : ApiClients.Fetch (option PriceClients.AssetCtxs) :=
  ApiClients.Response 503 None.

Definition kucoin_quotes (p : string) : Runtime.Outcome (option Q) :=
  Runtime.Return (Some 106).

(** A SHORT signal at 100 with a stop-loss of -2.5 percent. *)
Definition short_row : Runtime.SignalRow :=
  {| Runtime.pair := "BTC"; Runtime.type := "SHORT"; Runtime.entry_timestamp := 0;
     Runtime.entry_price := 100; Runtime.avg_trade_size := 1;
     Runtime.stop_loss := -2.5; Runtime.targets_json := [2.0; 3.5; 5.0];
     Runtime.status := "OPEN"; Runtime.created_at := 0;
     Runtime.last_updated := None |}.

Definition short_signal : DatabaseManager.Signal :=
  {| DatabaseManager.signal_id := "sig-short"; DatabaseManager.row := short_row |}.

Definition short_world : Runtime.World :=
  Samples.world_of
    (Runtime.set_signals (fun _ => {[ "sig-short" := short_row ]}) Samples.empty_db)
    3600000 [].

(** Performance rows written at [t = 0], seen a hundred days later. *)
Definition stale_metrics : Runtime.PerformanceMetrics :=
  {| Runtime.outcome := "WIN"; Runtime.pnl := 5; Runtime.duration_sec := 60;
     Runtime.max_drawdown_pct := 0; Runtime.updated_at := 0 |}.

Definition stale_world : Runtime.World :=
  Samples.world_of
    (Runtime.set_performance
       (fun _ => <[("sig-1", "all_time") := stale_metrics]>
                   (<[("sig-1", "24h") := stale_metrics]> ∅))
       Samples.empty_db)
    8640000000 [].

(** Calls of a breaker: a failure, a success, a failure. *)
Definition mixed_calls : list (Z * Attempt Z) :=
  [ (0%Z, Rejected OtherError); (10%Z, Resolved 5%Z); (20%Z, Rejected RetryableError) ].

(** A breaker that opened at [t = 30] on its third failure. *)
Definition opened : CircuitBreaker.Breaker :=
  {| CircuitBreaker.failures := 3; CircuitBreaker.lastFailureTime := 30;
     CircuitBreaker.state := CircuitBreaker.OPEN |}.

(** Prices seen after an entry at 100. *)
Definition dips : list Drawdown.PricePoint :=
  [ {| Drawdown.price := 98; Drawdown.timestamp := 1 |};
    {| Drawdown.price := 103; Drawdown.timestamp := 2 |};
    {| Drawdown.price := 95; Drawdown.timestamp := 3 |} ].

(** A timer that fires exactly when it is due. *)
Definition punctual (t : Z) (waitTime : option Z) : Z :=
  match waitTime with Some d => (t + d)%Z | None => t end.

End MoreSamples.


(* ===================================================================== *)
(** * Properties of the performance calculator *)
(* ===================================================================== *)

Section PerformanceFacts.
Import PerformanceCalculator.

Lemma Qgtb_true (x y : Q) : Qgtb x y = true <-> y < x.
Proof.
  unfold Qgtb. rewrite negb_true_iff, <- not_true_iff_false, Qle_bool_iff.
  split; [apply Qnot_le_lt | apply Qlt_not_le].
Qed.

Lemma Qltb_true (x y : Q) : Qltb x y = true <-> x < y.
Proof. apply (Qgtb_true y x). Qed.

(** What [calculatePnL] computes, for either direction: the funding term
    keeps the sign of the rate and is proportional to the duration. *)
Lemma calculatePnL_LONG (entryPrice exitPrice positionSize fundingRate durationHours : Q) :
  calculatePnL entryPrice exitPrice positionSize "LONG" fundingRate durationHours
  == (exitPrice - entryPrice) * positionSize
     - fundingRate * positionSize * entryPrice * (durationHours / 8).
Proof. unfold calculatePnL. simpl. ring. Qed.

Lemma calculatePnL_SHORT (entryPrice exitPrice positionSize fundingRate durationHours : Q) :
  calculatePnL entryPrice exitPrice positionSize "SHORT" fundingRate durationHours
  == (entryPrice - exitPrice) * positionSize
     - fundingRate * positionSize * entryPrice * (durationHours / 8).
Proof. unfold calculatePnL. simpl. ring. Qed.

(** C4, on the code: with a negative funding rate held for one funding
    interval [calculatePnL] adds the funding as a credit, and with half
    an interval it charges half of it, where the stated formula charges
    the absolute value for a whole interval in both cases. *)
Theorem calculatePnL_funding_signed_and_prorated :
  calculatePnL 2000 2100 1 "LONG" (-0.0001) 8 == 100.2
  /\ calculatePnL_spec 2000 2100 1 "LONG" (-0.0001) 8 == 99.8
  /\ calculatePnL 2000 2100 1 "LONG" 0.0001 4 == 99.9
  /\ calculatePnL_spec 2000 2100 1 "LONG" 0.0001 4 == 99.8.
Proof. repeat split; vm_compute; reflexivity. Qed.

(** C5: with zero funding a SHORT entered at 42100.00 and closed at
    41000.00 with size 1 makes exactly +1100.00 and a LONG with the same
    prices exactly -1100.00, whatever the duration. *)
Theorem calculatePnL_sign_example (durationHours : Q) :
  calculatePnL 42100.00 41000.00 1 "SHORT" 0 durationHours == 1100.00
  /\ calculatePnL 42100.00 41000.00 1 "LONG" 0 durationHours == - 1100.00.
Proof.
  split.
  - rewrite calculatePnL_SHORT. field.
  - rewrite calculatePnL_LONG. field.
Qed.

(** C10: for a status other than TP_HIT, SL_HIT and PARTIAL_TP the
    outcome is WIN exactly when the PnL is strictly positive and LOSS
    otherwise; with a PnL of zero it is LOSS. *)
Theorem determineOutcome_by_pnl_sign (closeStatus : string) (pnl : Q) :
  closeStatus <> "TP_HIT" -> closeStatus <> "SL_HIT" -> closeStatus <> "PARTIAL_TP" ->
  (determineOutcome closeStatus pnl = "WIN" <-> 0 < pnl)
  /\ (determineOutcome closeStatus pnl = "LOSS" <-> ~ 0 < pnl)
  /\ determineOutcome closeStatus 0 = "LOSS".
Proof.
  intros Htp Hsl Hpartial. unfold determineOutcome.
  apply String.eqb_neq in Htp, Hsl, Hpartial. rewrite Htp, Hsl, Hpartial.
  split; [| split].
  - destruct (Qgtb pnl 0) eqn:Hgt.
    + apply Qgtb_true in Hgt. tauto.
    + split; [discriminate |]. intros Hpos. apply Qgtb_true in Hpos. congruence.
  - destruct (Qgtb pnl 0) eqn:Hgt.
    + apply Qgtb_true in Hgt. split; [discriminate | tauto].
    + split; [| reflexivity]. intros _ Hpos. apply Qgtb_true in Hpos. congruence.
  - reflexivity.
Qed.

Lemma determineOutcome_by_pnl_sign_witness :
  (determineOutcome "CLOSED_MANUAL" 0 = "WIN" <-> 0 < 0)
  /\ (determineOutcome "CLOSED_MANUAL" 0 = "LOSS" <-> ~ 0 < 0)
  /\ determineOutcome "CLOSED_MANUAL" 0 = "LOSS".
Proof. apply determineOutcome_by_pnl_sign; discriminate. Defined.

End PerformanceFacts.


(* ===================================================================== *)
(** * Properties of the shared utilities *)
(* ===================================================================== *)

Section SortFacts.
Import Runtime.
Context {A : Type}.
Variable key : A -> Z.

Lemma insert_desc_perm (x : A) (l : list A) :
  Permutation (insert_desc key x l) (x :: l).
Proof.
  induction l as [| y l IH]; simpl; [reflexivity |].
  destruct (key y <=? key x)%Z; [reflexivity |].
  rewrite IH. apply perm_swap.
Qed.

Lemma sort_desc_perm (l : list A) : Permutation (sort_desc key l) l.
Proof.
  induction l as [| x l IH]; simpl; [reflexivity |].
  rewrite insert_desc_perm. by apply perm_skip.
Qed.

Lemma sort_desc_In (l : list A) (x : A) : In x (sort_desc key l) <-> In x l.
Proof.
  split; apply Permutation_in; [| symmetry]; apply sort_desc_perm.
Qed.

Lemma head_insert_desc (x : A) (l : list A) :
  head (insert_desc key x l)
  = match head l with
    | Some y => if (key y <=? key x)%Z then Some x else Some y
    | None => Some x
    end.
Proof. destruct l as [| y l]; simpl; [reflexivity |]. by destruct (key y <=? key x)%Z. Qed.

(** The first element of the sorted list has the greatest key. *)
Lemma head_sort_desc_max (l : list A) (x : A) :
  head (sort_desc key l) = Some x ->
  forall y, In y l -> (key y <= key x)%Z.
Proof.
  revert x. induction l as [| a l IH]; intros x Hhead y Hy; [destruct Hy |].
  simpl in Hhead. rewrite head_insert_desc in Hhead.
  destruct (head (sort_desc key l)) as [top |] eqn:Htop.
  - specialize (IH top eq_refl).
    destruct (key top <=? key a)%Z eqn:Hcmp; inversion Hhead; subst x.
    + apply Z.leb_le in Hcmp. destruct Hy as [-> | Hy]; [lia |].
      specialize (IH y Hy). lia.
    + apply Z.leb_gt in Hcmp. destruct Hy as [-> | Hy]; [lia | by apply IH].
  - inversion Hhead; subst x.
    destruct (sort_desc key l) as [| b s] eqn:Hsorted; [| discriminate].
    pose proof (sort_desc_perm l) as Hperm. rewrite Hsorted in Hperm.
    apply Permutation_nil in Hperm. subst l. destruct Hy as [-> | []]. lia.
Qed.

Lemma head_sort_desc_In (l : list A) (x : A) :
  head (sort_desc key l) = Some x -> In x l.
Proof.
  intros Hhead. apply sort_desc_In.
  destruct (sort_desc key l); [discriminate |]. inversion Hhead. by left.
Qed.

Lemma head_sort_desc_None (l : list A) : head (sort_desc key l) = None <-> l = [].
Proof.
  split.
  - intros Hhead. pose proof (sort_desc_perm l) as Hperm.
    destruct (sort_desc key l); [| discriminate].
    by apply Permutation_nil in Hperm.
  - by intros ->.
Qed.

End SortFacts.

Section RetryFacts.
Import Utils ApiClients Types.
Context {T : Type}.
Variable operation : nat -> Attempt T.
Variable random : nat -> Q.
Variable options : RetryOptions.

Lemma retryLoop_calls_bounded (fuel : nat) (attempt : Z) (lastError : option Error)
    (invoked : nat) (slept : list Q) :
  (calls (retryLoop operation random options fuel attempt lastError invoked slept)
   <= invoked + fuel)%nat.
Proof.
  revert attempt lastError invoked slept.
  induction fuel as [| fuel IH]; intros attempt lastError invoked slept; simpl.
  - lia.
  - destruct (operation invoked) as [v | e]; simpl; [lia |].
    destruct (nonRetryable e); simpl; [lia |].
    destruct (attempt =? maxRetries options)%Z; simpl; [lia |].
    specialize (IH (attempt + 1)%Z (Some e) (S invoked) (slept ++ [backoffDelay options attempt + random invoked * 1000])%list).
    lia.
Qed.

(** The operation is invoked at most [maxRetries + 1] times. *)
Lemma withRetry_calls_bounded :
  (calls (withRetry operation random options)
   <= Z.to_nat (maxRetries options + 1))%nat.
Proof. unfold withRetry. apply (retryLoop_calls_bounded _ 0%Z None 0%nat []). Qed.

(** A first failure that [nonRetryable] recognises is thrown at once. *)
Lemma withRetry_nonRetryable_immediate (e : Error) :
  (0 <= maxRetries options)%Z ->
  operation 0%nat = Rejected e -> nonRetryable e = true ->
  withRetry operation random options
  = {| settled := Threw (Some e); calls := 1; sleeps := [] |}.
Proof.
  intros Hmax Hop Hnon. unfold withRetry.
  destruct (Z.to_nat (maxRetries options + 1)) as [| fuel] eqn:Hfuel; [lia |].
  simpl. by rewrite Hop, Hnon.
Qed.

End RetryFacts.

Section UtilsFacts.
Import Utils ApiClients Types.

(** Every [ApiError] with a status from 1 to 499 counts as not
    retryable, the rate-limit status 429 included. *)
Lemma nonRetryable_client_status (status : Z) :
  (0 < status < 500)%Z -> nonRetryable (ApiError (Some status)) = true.
Proof.
  intros Hs. simpl. apply andb_true_iff. split.
  - apply negb_true_iff, Z.eqb_neq. lia.
  - apply Z.ltb_lt. lia.
Qed.

(** Timeouts, errors without a status and statuses from 500 on are
    retried. *)
Lemma nonRetryable_transient (status : Z) :
  (500 <= status)%Z ->
  nonRetryable RetryableError = false
  /\ nonRetryable OtherError = false
  /\ nonRetryable (ApiError (Some status)) = false.
Proof.
  intros Hs. repeat split. simpl. apply andb_false_iff. right. apply Z.ltb_ge. lia.
Qed.

(** A server that keeps answering 503 is asked [maxRetries + 1 = 4]
    times, with the delay doubling from one second. *)
Example getClearinghouseState_503 (state : HyperliquidClearinghouseState) :
  let run := getClearinghouseState (fun _ => Response 503 state) (fun _ => 0) in
  settled run = Threw (Some (ApiError (Some 503%Z)))
  /\ calls run = 4%nat
  /\ Forall2 Qeq (sleeps run) [1000; 2000; 4000].
Proof.
  repeat split. repeat constructor; vm_compute; reflexivity.
Qed.

(** A timeout followed by an answer is retried once. *)
Example getClearinghouseState_timeout_then_ok (state : HyperliquidClearinghouseState) :
  let run :=
    getClearinghouseState
      (fun k => match k with O => TimedOut | _ => Response 200 state end)
      (fun _ => 0) in
  settled run = Fulfilled (Some state) /\ calls run = 2%nat.
Proof. split; reflexivity. Qed.

(** C8, on the code: a rate-limited answer (HTTP 429) is thrown to the
    caller after a single invocation of the operation and without any
    delay: [withRetry] does not retry it. *)
Theorem withRetry_rate_limited_not_retried
    (state : HyperliquidClearinghouseState) (random : nat -> Q) :
  let run := getClearinghouseState (fun _ => Response 429 state) random in
  settled run = Threw (Some (ApiError (Some 429%Z)))
  /\ calls run = 1%nat
  /\ sleeps run = [].
Proof. repeat split. Qed.

Example btoa_hello : btoa "Hello, World!" = "SGVsbG8sIFdvcmxkIQ==".
Proof. reflexivity. Qed.

Example btoa_padding : btoa "ab" = "YWI=" /\ btoa "a" = "YQ==" /\ btoa "abc" = "YWJj".
Proof. repeat split. Qed.

Example generateEventId_sample :
  generateEventId "0xecb63caa47c7c4e77f60f1ce858cf28dc2b82b00" "ETH"
    1700000000000 "LONG" = "MHhlY2I2M2NhYTQ3YzdjNGU3N2Y2MGYx".
Proof. vm_compute. reflexivity. Qed.

(** Thirty-two characters of base64 hold twenty-four bytes: for a wallet
    address of forty-two characters the identifier is cut inside the
    address, before the pair, the direction and the minute. *)
Example generateEventId_truncated :
  generateEventId "0xecb63caa47c7c4e77f60f1ce858cf28dc2b82b00" "ETH"
    1700000000000 "LONG"
  = generateEventId "0xecb63caa47c7c4e77f60f1ce858cf28dc2b82b00" "BTC"
      1800000000000 "SHORT".
Proof. vm_compute. reflexivity. Qed.

(** The key: [generateEventId] is a function of the wallet, the pair,
    the direction and the minute of the timestamp. *)
Lemma generateEventId_minute (walletAddress p direction : string) (t1 t2 : Z) :
  (t1 / 60000 = t2 / 60000)%Z ->
  generateEventId walletAddress p t1 direction
  = generateEventId walletAddress p t2 direction.
Proof. unfold generateEventId. by intros ->. Qed.

End UtilsFacts.


(* ===================================================================== *)
(** * Properties of the ingestion worker *)
(* ===================================================================== *)

Section IngestionFacts.
Import Types Runtime DatabaseManager Utils Ingestion Samples.

Lemma fillMatches_true (p positionType : string) (f : HyperliquidFill) :
  fillMatches p positionType f = true
  <-> fill_coin f = p /\ fillDirection f = positionType.
Proof.
  unfold fillMatches.
  destruct (String.eqb_spec (fill_coin f) p) as [Hc | Hc]; simpl.
  - rewrite String.eqb_eq. tauto.
  - split; [discriminate | tauto].
Qed.

(** What [findRelevantFill] answers on a list of fills. *)
Lemma findRelevantFill_chosen (allFills : list HyperliquidFill) (p positionType : string) :
  match findRelevantFill (Some {| fills := Some allFills |}) p positionType with
  | Some chosen =>
      In chosen allFills
      /\ fill_coin chosen = p /\ fillDirection chosen = positionType
      /\ forall other, In other allFills -> fill_coin other = p ->
           fillDirection other = positionType ->
           (fill_time other <= fill_time chosen)%Z
  | None =>
      forall other, In other allFills ->
        ~ (fill_coin other = p /\ fillDirection other = positionType)
  end.
Proof.
  unfold findRelevantFill. simpl.
  destruct (head _) as [chosen |] eqn:Hhead.
  - pose proof (head_sort_desc_In _ _ _ Hhead) as Hin.
    apply filter_In in Hin as [Hin Hm]. apply fillMatches_true in Hm as [Hc Hd].
    repeat split; trivial.
    intros other Hother Hoc Hod.
    apply (head_sort_desc_max _ _ _ Hhead).
    apply filter_In. split; [done |]. by apply fillMatches_true.
  - apply head_sort_desc_None in Hhead.
    intros other Hother Hm. apply fillMatches_true in Hm.
    assert (Hin : In other (List.filter (fillMatches p positionType) allFills))
      by (apply filter_In; done).
    rewrite Hhead in Hin. destruct Hin.
Qed.

Lemma snoc_not_self {A} (l : list A) (x : A) : l <> (l ++ [x])%list.
Proof.
  intros Heq. apply (f_equal length) in Heq. rewrite length_app in Heq.
  simpl in Heq. lia.
Qed.

Lemma snoc_inj {A} (l : list A) (x y : A) : (l ++ [x] = l ++ [y])%list -> x = y.
Proof. intros Heq. apply app_inv_head in Heq. by inversion Heq. Qed.

Ltac unfold_async :=
  unfold Promise_all2, saveWalletPosition, saveEvent, checkEventExists,
    signalQueue_send, statement, next_fault, Date_now, try_catch, bind,
    throw, ret.

(** The fates of the four statements that [processPosition] can send. *)
Ltac split_faults fs :=
  destruct fs as [| [|] [| [|] [| [|] [| [|] fs]]]].

Section Parsers.
Variable parseFloat : string -> Q.
Variable parseInt : string -> Z.

(** A position that [processPosition] leaves in [wallet_positions] was
    there before, or it carries the time and price of the fill that
    [findRelevantFill] chose, or, without such a fill, the clock and the
    entry price of the snapshot. *)
Lemma processPosition_entry_data walletAddress assetPosition userFills config
    fundingRateFetch (w : World) (k : string * string * string) (pos : WalletPosition) :
  let run := processPosition parseFloat parseInt walletAddress assetPosition
               userFills config fundingRateFetch w in
  wallet_positions (db run.2) !! k = Some pos ->
  wallet_positions (db w) !! k = Some pos
  \/ exists rawPosition,
       position assetPosition = Some rawPosition
       /\ match findRelevantFill userFills (coin assetPosition) (position_type pos) with
          | Some fill =>
              wp_entry_timestamp pos = fill_time fill
              /\ wp_entry_price pos = parseFloat (fill_px fill)
          | None =>
              wp_entry_timestamp pos = now w
              /\ wp_entry_price pos = parseFloat (or_default (entryPx rawPosition) "0")
          end.
Proof.
  cbv zeta. unfold processPosition.
  destruct (position assetPosition) as [rawPosition |]; [| by left].
  repeat match goal with
  | |- context [if ?c then ret tt else _] => destruct c; [by left |]
  end.
  destruct w as [d nq sq t lg fs].
  destruct (findRelevantFill userFills (coin assetPosition) _) as [f |] eqn:Hfill.
  all: split_faults fs; unfold_async; simpl.
  all: try match goal with
       | |- context [bool_decide ?P] => destruct (bool_decide P)
       end; simpl.
  all: try (by left).
  all: match goal with
       | |- <[?k0:=_]> _ !! _ = _ -> _ =>
           destruct (decide (k = k0)) as [-> | Hne];
           [rewrite lookup_insert_eq; intros [= <-]; right
           | rewrite lookup_insert_ne by done; by left]
       end.
  all: exists rawPosition; split; [reflexivity |]; simpl; rewrite Hfill; done.
Qed.

(** A position that passes the tests of [processPosition] fails each of
    its guards. *)
Lemma qualifies_guards (config : Config) (assetPosition : AssetPosition)
    (rawPosition : RawPosition) :
  position assetPosition = Some rawPosition ->
  WalletIngestion.qualifies parseFloat parseInt config assetPosition ->
  Qeq_bool (parseFloat (or_default (szi rawPosition) "0")) 0 = false
  /\ existsb (String.eqb (coin assetPosition)) (ignored_pairs config) = false
  /\ (0 <? length (monitored_pairs config))%nat
     && negb (existsb (String.eqb (coin assetPosition)) (monitored_pairs config))
     = false
  /\ Qltb (calculateNotionalValue (parseFloat (or_default (entryPx rawPosition) "0"))
             (Qabs (parseFloat (or_default (szi rawPosition) "0"))) 1)
       (min_trade_size config) = false
  /\ (parseInt (or_default (leverage_value rawPosition) "1")
      <? required_leverage_min config)%Z = false.
Proof.
  intros Hpos (raw & Hraw & Hsize & Hign & Hmon & Hnot & Hlev).
  rewrite Hpos in Hraw. injection Hraw as <-. cbv zeta in *.
  assert (Hexists : forall l,
            existsb (String.eqb (coin assetPosition)) l = true
            <-> In (coin assetPosition) l).
  { intros l. rewrite existsb_exists. split.
    - intros (x & Hin & Heq). apply String.eqb_eq in Heq. by subst x.
    - intros Hin. exists (coin assetPosition). split; [done |].
      apply String.eqb_refl. }
  split.
  { destruct (Qeq_bool _ 0) eqn:Hzero; [| done].
    exfalso. apply Hsize. by apply Qeq_bool_eq. }
  split.
  { destruct (existsb _ (ignored_pairs config)) eqn:Hin; [| done].
    exfalso. apply Hign. by apply Hexists. }
  split.
  { destruct Hmon as [-> | Hin]; [done |].
    apply Hexists in Hin. rewrite Hin. apply andb_false_r. }
  split.
  { unfold Qltb. apply negb_false_iff, Qle_bool_iff. exact Hnot. }
  by apply Z.ltb_ge.
Qed.

(** A position that passes the tests and whose key is not recorded is
    stored and published when D1 and the queue accept the four
    statements: with the time and price of the fill that
    [findRelevantFill] chose, and without such a fill with the clock
    and the entry price of the snapshot. *)
Lemma processPosition_stores walletAddress assetPosition userFills config
    fundingRateFetch (w : World) (rawPosition : RawPosition) :
  position assetPosition = Some rawPosition ->
  WalletIngestion.qualifies parseFloat parseInt config assetPosition ->
  let positionType :=
    if Qgtb (parseFloat (or_default (szi rawPosition) "0")) 0 then "LONG" else "SHORT" in
  let relevantFill := findRelevantFill userFills (coin assetPosition) positionType in
  let entryTimestamp :=
    match relevantFill with Some fill => fill_time fill | None => now w end in
  let actualEntryPrice :=
    match relevantFill with
    | Some fill => parseFloat (fill_px fill)
    | None => parseFloat (or_default (entryPx rawPosition) "0")
    end in
  let eventId :=
    generateEventId walletAddress (coin assetPosition) entryTimestamp positionType in
  ingested_events (db w) !! eventId = None ->
  (forall k, (k < 4)%nat -> fate k w = false) ->
  let run := processPosition parseFloat parseInt walletAddress assetPosition
               userFills config fundingRateFetch w in
  exists pos,
    run.1 = Return tt
    /\ wallet_positions (db run.2) !! (walletAddress, coin assetPosition, eventId)
       = Some pos
    /\ signal_queue run.2
       = (signal_queue w ++ [{| se_type := "new_position"; se_data := pos |}])%list
    /\ position_type pos = positionType
    /\ wp_entry_timestamp pos = entryTimestamp
    /\ wp_entry_price pos = actualEntryPrice.
Proof.
  intros Hpos Hqualifies positionType relevantFill entryTimestamp actualEntryPrice
    eventId Hnew Hfates.
  destruct (qualifies_guards config assetPosition rawPosition Hpos Hqualifies)
    as (Hsize & Hign & Hmon & Hnot & Hlev).
  unfold processPosition. rewrite Hpos, Hsize, Hign, Hmon, Hnot, Hlev.
  fold positionType. fold relevantFill.
  assert (Hlookup : bool_decide (is_Some (ingested_events (db w) !! eventId)) = false).
  { apply bool_decide_eq_false. rewrite Hnew. apply is_Some_None. }
  destruct w as [d nq sq t lg fs]. unfold fate in Hfates. simpl in *.
  assert (Hfs : forall k, (k < 4)%nat -> default false (fs !! k) = false)
    by exact Hfates.
  subst eventId entryTimestamp actualEntryPrice.
  destruct relevantFill as [f |].
  all: split_faults fs; unfold_async; simpl.
  all: try (exfalso; (specialize (Hfs 0%nat ltac:(lia)); discriminate)
                     || (specialize (Hfs 1%nat ltac:(lia)); discriminate)
                     || (specialize (Hfs 2%nat ltac:(lia)); discriminate)
                     || (specialize (Hfs 3%nat ltac:(lia)); discriminate)).
  all: rewrite Hlookup; simpl.
  all: eexists; split; [reflexivity |]; split; [apply lookup_insert_eq |].
  all: repeat split.
Qed.

(** When the key of the position is in [ingested_events] and D1 answers
    the lookup, [processPosition] returns without touching the database
    or the queue. *)
Lemma processPosition_known_key walletAddress assetPosition userFills config
    fundingRateFetch (w : World) rawPosition :
  position assetPosition = Some rawPosition ->
  let positionType :=
    if Qgtb (parseFloat (or_default (szi rawPosition) "0")) 0 then "LONG" else "SHORT" in
  let entryTimestamp :=
    match findRelevantFill userFills (coin assetPosition) positionType with
    | Some fill => fill_time fill
    | None => now w
    end in
  is_Some (ingested_events (db w)
             !! generateEventId walletAddress (coin assetPosition) entryTimestamp
                  positionType) ->
  fate 0 w = false ->
  exists w',
    processPosition parseFloat parseInt walletAddress assetPosition userFills
      config fundingRateFetch w = (Return tt, w')
    /\ db w' = db w /\ signal_queue w' = signal_queue w.
Proof.
  intros Hpos positionType entryTimestamp Hkey Hfate.
  unfold processPosition. rewrite Hpos.
  repeat match goal with
  | |- context [if ?c then ret tt else _] => destruct c; [by eexists |]
  end.
  fold positionType.
  assert (Hrej : default false (head (faults w)) = false).
  { unfold fate in Hfate. by destruct (faults w). }
  destruct (findRelevantFill userFills (coin assetPosition) positionType) as [f |].
  all: unfold_async; simpl.
  all: rewrite Hrej; simpl.
  all: subst entryTimestamp; rewrite bool_decide_eq_true_2 by done.
  all: eexists; split; [reflexivity |]; simpl; done.
Qed.

(** C7, as the code has it: whenever [processPosition] publishes a
    position-open event it has raised no error, the Position row of the
    event exists, and the row of its idempotency key exists exactly when
    it existed before or D1 accepted the write of the key (the third
    statement, after the lookup and the write of the Position): a
    rejected write of the key is swallowed and leaves the Position
    without its key. *)
Theorem processPosition_published walletAddress assetPosition userFills config
    fundingRateFetch (w : World) (ev : SignalEvent) :
  let run := processPosition parseFloat parseInt walletAddress assetPosition
               userFills config fundingRateFetch w in
  signal_queue run.2 = (signal_queue w ++ [ev])%list ->
  run.1 = Return tt
  /\ wallet_positions (db run.2)
       !! (wallet_address (se_data ev), wp_pair (se_data ev), open_event_id (se_data ev))
     = Some (se_data ev)
  /\ (is_Some (ingested_events (db run.2) !! open_event_id (se_data ev))
      <-> is_Some (ingested_events (db w) !! open_event_id (se_data ev))
          \/ fate 2 w = false).
Proof.
  cbv zeta. unfold processPosition.
  destruct (position assetPosition) as [rawPosition |];
    [| intros H; by apply snoc_not_self in H].
  repeat match goal with
  | |- context [if ?c then ret tt else _] =>
      destruct c; [intros H; by apply snoc_not_self in H |]
  end.
  destruct w as [d nq sq t lg fs].
  destruct (findRelevantFill userFills (coin assetPosition) _) as [f |].
  all: split_faults fs; unfold_async; unfold fate; simpl.
  all: try (intros H; by apply snoc_not_self in H).
  all: try match goal with
       | |- context [bool_decide ?P] => destruct (bool_decide P) eqn:Hknown
       end; simpl.
  all: try (intros H; by apply snoc_not_self in H).
  all: intros Hev; apply snoc_inj in Hev; subst ev; simpl.
  all: split; [reflexivity |]; split; [apply lookup_insert_eq |].
  all: unfold insert_or_ignore_event.
  all: try match goal with
       | |- context [match ?m !! ?k with _ => _ end] =>
           destruct (m !! k) eqn:Hlook; rewrite ?Hlook
       end.
  all: rewrite ?lookup_insert_eq.
  all: split;
    [ intros Hsome; (by right) || (by left)
    | intros [Hsome | Hfate]; done || by eexists ].
Qed.

End Parsers.

(** C6: the idempotency key is a function of the wallet, the pair, the
    direction and the minute of the entry timestamp, so two timestamps
    of one minute give one key; and when the key of a position is
    already among the ingested events (and D1 answers the lookup),
    [processPosition] is a no-op: it returns normally and leaves the
    database and the queue as they were. *)
Theorem generateEventId_idempotent :
  (exists key : string -> string -> string -> Z -> string,
     forall walletAddress p direction t,
       generateEventId walletAddress p t direction
       = key walletAddress p direction (t / 60000)%Z)
  /\ (forall walletAddress p direction t1 t2,
        (t1 / 60000 = t2 / 60000)%Z ->
        generateEventId walletAddress p t1 direction
        = generateEventId walletAddress p t2 direction)
  /\ (forall parseFloat parseInt walletAddress assetPosition userFills config
             fundingRateFetch (w : World) rawPosition,
        position assetPosition = Some rawPosition ->
        let positionType :=
          if Qgtb (parseFloat (or_default (szi rawPosition) "0")) 0
          then "LONG" else "SHORT" in
        let entryTimestamp :=
          match findRelevantFill userFills (coin assetPosition) positionType with
          | Some fill => fill_time fill
          | None => now w
          end in
        is_Some (ingested_events (db w)
                   !! generateEventId walletAddress (coin assetPosition)
                        entryTimestamp positionType) ->
        fate 0 w = false ->
        exists w',
          processPosition parseFloat parseInt walletAddress assetPosition
            userFills config fundingRateFetch w = (Return tt, w')
          /\ db w' = db w /\ signal_queue w' = signal_queue w).
Proof.
  split; [| split].
  - exists (fun walletAddress p direction minute =>
      substring0 32 (strip_non_alnum (btoa
        (walletAddress ++ "-" ++ p ++ "-" ++ direction ++ "-" ++ string_of_Z minute)))).
    reflexivity.
  - intros. by apply generateEventId_minute.
  - intros. by eapply processPosition_known_key.
Qed.

(** The same payload polled a second time, after a first poll that went
    through: the key is found and nothing is stored or published. *)
Lemma generateEventId_idempotent_witness :
  generateEventId wallet "ETH" 1700000030000 "LONG"
  = generateEventId wallet "ETH" 1700000039999 "LONG"
  /\ exists w',
       processPosition decimal integer wallet eth_long user_fills config
         (Return (Some 0.0001))
         (world_of (db (poll [] empty_db).2) 1700000160000 [])
       = (Return tt, w')
       /\ db w' = db (poll [] empty_db).2 /\ signal_queue w' = [].
Proof.
  destruct generateEventId_idempotent as (_ & Hminute & Hknown). split.
  - apply Hminute. reflexivity.
  - eapply (Hknown decimal integer wallet eth_long user_fills config
              (Return (Some 0.0001))
              (world_of (db (poll [] empty_db).2) 1700000160000 [])).
    + reflexivity.
    + vm_compute. by eexists.
    + reflexivity.
Defined.

(** C7 as stated fails: when D1 rejects the write of the key (the third
    statement) the Position row is stored without its key and no error
    is raised; and when D1 rejects the write of the Position (the second
    statement) the key is recorded without the Position. *)
Lemma position_and_key_not_atomic :
  (let run := poll [false; false; true] empty_db in
   run.1 = Return tt
   /\ ~ both_or_neither wallet "ETH" eth_long_key (db run.2))
  /\ (let run := poll [false; true; false] empty_db in
      run.1 = Throw
      /\ is_Some (ingested_events (db run.2) !! eth_long_key)
      /\ wallet_positions (db run.2) !! (wallet, "ETH", eth_long_key) = None).
Proof.
  split.
  - split; [vm_compute; reflexivity |].
    intros [[_ [v Hv]] | [Hp _]]; [vm_compute in Hv | vm_compute in Hp]; discriminate.
  - split; [vm_compute; reflexivity |]. split; [| vm_compute; reflexivity].
    vm_compute. by eexists.
Qed.

(** A first poll without faults publishes the event and stores both
    rows. *)
Lemma processPosition_published_witness :
  signal_queue (poll [] empty_db).2 = [published_event]
  /\ (poll [] empty_db).1 = Return tt
  /\ wallet_positions (db (poll [] empty_db).2) !! (wallet, "ETH", eth_long_key)
     = Some stored_position
  /\ is_Some (ingested_events (db (poll [] empty_db).2) !! eth_long_key).
Proof.
  assert (Hq : signal_queue (poll [] empty_db).2
               = (signal_queue (world_of empty_db 1700000100000 [])
                  ++ [published_event])%list)
    by (vm_compute; reflexivity).
  destruct (processPosition_published decimal integer wallet eth_long user_fills
              config (Return (Some 0.0001)) (world_of empty_db 1700000100000 [])
              published_event Hq) as (Hret & Hrow & Hkey).
  split; [exact Hq |]. split; [exact Hret |]. split; [exact Hrow |].
  apply Hkey. right. reflexivity.
Defined.

(** C9: among the fills of the pair whose side implies the direction of
    the position, [findRelevantFill] answers the one with the greatest
    time, and none exactly when no fill matches (or there is no list of
    fills); the position that [processPosition] stores takes its entry
    time and price from that fill, and without one from the clock and
    the entry price of the snapshot.  And such a position is stored: a
    position that passes the tests and whose key is not recorded is
    stored and published, when D1 and the queue accept the four
    statements, with the time and price of the chosen fill, and when no
    fill matches with the clock and the entry price of the snapshot. *)
Theorem findRelevantFill_most_recent :
  (forall allFills p positionType,
     match findRelevantFill (Some {| fills := Some allFills |}) p positionType with
     | Some chosen =>
         In chosen allFills
         /\ fill_coin chosen = p /\ fillDirection chosen = positionType
         /\ forall other, In other allFills -> fill_coin other = p ->
              fillDirection other = positionType ->
              (fill_time other <= fill_time chosen)%Z
     | None =>
         forall other, In other allFills ->
           ~ (fill_coin other = p /\ fillDirection other = positionType)
     end)
  /\ (forall p positionType,
        findRelevantFill None p positionType = None
        /\ findRelevantFill (Some {| fills := None |}) p positionType = None)
  /\ (forall parseFloat parseInt walletAddress assetPosition userFills config
             fundingRateFetch (w : World) k pos,
        let run := processPosition parseFloat parseInt walletAddress assetPosition
                     userFills config fundingRateFetch w in
        wallet_positions (db run.2) !! k = Some pos ->
        wallet_positions (db w) !! k = Some pos
        \/ exists rawPosition,
             position assetPosition = Some rawPosition
             /\ match findRelevantFill userFills (coin assetPosition)
                        (position_type pos) with
                | Some fill =>
                    wp_entry_timestamp pos = fill_time fill
                    /\ wp_entry_price pos = parseFloat (fill_px fill)
                | None =>
                    wp_entry_timestamp pos = now w
                    /\ wp_entry_price pos
                       = parseFloat (or_default (entryPx rawPosition) "0")
                end)
  /\ (forall parseFloat parseInt walletAddress assetPosition rawPosition userFills
             config fundingRateFetch (w : World),
        position assetPosition = Some rawPosition ->
        WalletIngestion.qualifies parseFloat parseInt config assetPosition ->
        let positionType :=
          if Qgtb (parseFloat (or_default (szi rawPosition) "0")) 0
          then "LONG" else "SHORT" in
        let relevantFill :=
          findRelevantFill userFills (coin assetPosition) positionType in
        let entryTimestamp :=
          match relevantFill with Some fill => fill_time fill | None => now w end in
        let actualEntryPrice :=
          match relevantFill with
          | Some fill => parseFloat (fill_px fill)
          | None => parseFloat (or_default (entryPx rawPosition) "0")
          end in
        let eventId :=
          generateEventId walletAddress (coin assetPosition) entryTimestamp
            positionType in
        ingested_events (db w) !! eventId = None ->
        (forall k, (k < 4)%nat -> fate k w = false) ->
        let run := processPosition parseFloat parseInt walletAddress assetPosition
                     userFills config fundingRateFetch w in
        exists pos,
          run.1 = Return tt
          /\ wallet_positions (db run.2)
               !! (walletAddress, coin assetPosition, eventId) = Some pos
          /\ signal_queue run.2
             = (signal_queue w
                ++ [{| se_type := "new_position"; se_data := pos |}])%list
          /\ position_type pos = positionType
          /\ wp_entry_timestamp pos = entryTimestamp
          /\ wp_entry_price pos = actualEntryPrice).
Proof.
  split; [| split; [| split]].
  - apply findRelevantFill_chosen.
  - by intros.
  - intros parseFloat parseInt walletAddress assetPosition userFills config
      fundingRateFetch w k pos.
    apply (processPosition_entry_data parseFloat parseInt walletAddress
             assetPosition userFills config fundingRateFetch w k pos).
  - intros parseFloat parseInt walletAddress assetPosition rawPosition userFills
      config fundingRateFetch w Hpos Hqualifies.
    apply (processPosition_stores parseFloat parseInt walletAddress assetPosition
             userFills config fundingRateFetch w rawPosition Hpos Hqualifies).
Qed.

(** With an older and a newer ETH buy, in this order, the newer one is
    chosen and its time and price are the ones of the stored position;
    and the BTC short of the wallet, for which the fills hold no BTC
    sell, is stored and published with the time of the poll and the
    entry price of the snapshot. *)
Lemma findRelevantFill_most_recent_witness :
  findRelevantFill user_fills "ETH" "LONG"
  = Some (fill "ETH" "2451.00" 1700000030000 "B")
  /\ wallet_positions (db (poll [] empty_db).2) !! (wallet, "ETH", eth_long_key)
     = Some stored_position
  /\ wp_entry_timestamp stored_position = 1700000030000%Z
  /\ wp_entry_price stored_position = decimal "2451.00"
  /\ findRelevantFill user_fills "BTC" "SHORT" = None
  /\ (let run := processPosition decimal integer wallet MoreSamples.btc_short
                   user_fills config (Return None)
                   (world_of empty_db 1700000100000 []) in
      exists pos,
        run.1 = Return tt
        /\ wallet_positions (db run.2) !! (wallet, "BTC", eth_long_key) = Some pos
        /\ signal_queue run.2 = [{| se_type := "new_position"; se_data := pos |}]
        /\ position_type pos = "SHORT"
        /\ wp_entry_timestamp pos = 1700000100000%Z
        /\ wp_entry_price pos = decimal "42100.00").
Proof.
  assert (Hstored :
    wallet_positions (db (poll [] empty_db).2) !! (wallet, "ETH", eth_long_key)
    = Some stored_position) by (vm_compute; reflexivity).
  destruct findRelevantFill_most_recent as (_ & _ & Hdata & Hstores).
  split; [reflexivity |]. split; [exact Hstored |].
  assert (Hentry : wp_entry_timestamp stored_position = 1700000030000%Z
                   /\ wp_entry_price stored_position = decimal "2451.00").
  { destruct (Hdata decimal integer wallet eth_long user_fills config
                (Return (Some 0.0001)) (world_of empty_db 1700000100000 [])
                (wallet, "ETH", eth_long_key) stored_position Hstored)
      as [Hold | (raw & _ & Hnew)].
    - vm_compute in Hold. discriminate.
    - change (findRelevantFill user_fills (coin eth_long)
                (position_type stored_position))
        with (Some (fill "ETH" "2451.00" 1700000030000 "B")) in Hnew.
      exact Hnew. }
  destruct Hentry as [Htime Hprice].
  split; [exact Htime |]. split; [exact Hprice |]. split; [reflexivity |].
  apply (Hstores decimal integer wallet MoreSamples.btc_short
           {| szi := Some "-0.5"; entryPx := Some "42100.00";
              leverage_value := Some "10" |}
           user_fills config (Return None) (world_of empty_db 1700000100000 [])).
  - reflexivity.
  - eexists. split; [reflexivity |]. cbv zeta.
    split; [vm_compute; discriminate |].
    split; [intros [] |]. split; [by left |].
    split; [vm_compute; discriminate | vm_compute; discriminate].
  - reflexivity.
  - intros k _. unfold fate. simpl. by destruct k.
Defined.

End IngestionFacts.

(* ===================================================================== *)
(** * Properties of the price monitor *)
(* ===================================================================== *)

Section AsyncFacts.
Import Runtime Observations.
Context (R : World -> World -> Prop) `{!PreOrder R}.

Lemma preserves_ret {A} (a : A) : preserves R (ret a).
Proof. intros w. reflexivity. Qed.

Lemma preserves_throw {A} : preserves R (@throw A).
Proof. intros w. reflexivity. Qed.

Lemma preserves_bind {A B} (m : Async A) (k : A -> Async B) :
  preserves R m -> (forall a, preserves R (k a)) -> preserves R (bind m k).
Proof.
  intros Hm Hk w. unfold bind. specialize (Hm w).
  destruct (m w) as [[a |] w1]; simpl in *; [| done].
  etransitivity; [exact Hm | apply Hk].
Qed.

Lemma preserves_try_catch {A} (m handler : Async A) :
  preserves R m -> preserves R handler -> preserves R (try_catch m handler).
Proof.
  intros Hm Hh w. unfold try_catch. specialize (Hm w).
  destruct (m w) as [[a |] w1]; simpl in *; [done |].
  etransitivity; [exact Hm | apply Hh].
Qed.

Lemma preserves_for_of {A} (l : list A) (body : A -> Async unit) :
  (forall x, In x l -> preserves R (body x)) -> preserves R (for_of l body).
Proof.
  induction l as [| x l IH]; intros Hbody; simpl.
  - apply preserves_ret.
  - apply preserves_bind; [apply Hbody; by left |].
    intros _. apply IH. intros y Hy. apply Hbody. by right.
Qed.

Lemma preserves_Date_now : preserves R Date_now.
Proof. intros w. reflexivity. Qed.

(** A statement is rejected, or runs. *)
Lemma preserves_statement {A} (run : Z -> DB -> A * DB) :
  (forall w, R w (set_faults tail w)) ->
  (forall w, R w (set_db (fun _ => (run (now w) (db w)).2) w)) ->
  preserves R (statement run).
Proof.
  intros Hfault Hrun w. unfold statement, bind, next_fault, throw.
  destruct (default false (head (faults w))); simpl; [apply Hfault |].
  specialize (Hrun (set_faults tail w)). simpl in Hrun.
  destruct (run (now w) (db w)) as [a d]. simpl in *.
  etransitivity; [apply Hfault | exact Hrun].
Qed.

Lemma preserves_notificationQueue_send ev :
  (forall w, R w (set_faults tail w)) ->
  (forall w, R w (set_notification_queue (fun q => (q ++ [ev])%list) w)) ->
  preserves R (notificationQueue_send ev).
Proof.
  intros Hfault Hsend w. unfold notificationQueue_send, bind, next_fault, throw.
  destruct (default false (head (faults w))); simpl; [apply Hfault |].
  etransitivity; [apply Hfault | apply Hsend].
Qed.

End AsyncFacts.

Section ReturnsFacts.
Import Runtime Observations.

Lemma returns_ret {A} (a : A) : returns (ret a).
Proof. intros w. by exists a. Qed.

Lemma returns_try_catch {A} (m handler : Async A) :
  returns handler -> returns (try_catch m handler).
Proof.
  intros Hh w. unfold try_catch.
  destruct (m w) as [[a |] w1]; simpl; [by exists a | apply Hh].
Qed.

Lemma returns_bind {A B} (m : Async A) (k : A -> Async B) :
  returns m -> (forall a, returns (k a)) -> returns (bind m k).
Proof.
  intros Hm Hk w. unfold bind. destruct (Hm w) as [a Ha].
  destruct (m w) as [[a' |] w1]; simpl in *; [apply Hk | discriminate].
Qed.

Lemma returns_for_of {A} (l : list A) (body : A -> Async unit) :
  (forall x, returns (body x)) -> returns (for_of l body).
Proof.
  intros Hbody. induction l as [| x l IH]; simpl; [apply returns_ret |].
  apply returns_bind; [apply Hbody | by intros _].
Qed.

End ReturnsFacts.

Section TouchesFacts.
Import Types Runtime DatabaseManager PriceMonitor Observations.

Global Instance touches_preorder (F : Footprint) : PreOrder (touches F).
Proof.
  split; [intros w; constructor |].
  intros w1 w2 w3 H12 H23. induction H23.
  - done.
  - apply touches_faults; auto.
  - apply touches_db; auto.
  - apply touches_notify; auto.
  - apply touches_log; auto.
Qed.

Lemma touches_mono (F G : Footprint) (w w' : World) :
  fp_le F G -> touches F w w' -> touches G w w'.
Proof.
  intros (Hid & Hst & Htg & Hlg) H. induction H.
  - constructor.
  - apply touches_faults; auto.
  - apply touches_db; [auto |].
    destruct H0 as [-> | [(st & t & Hin & ->) | [(Ht & i & t & ->) | (k & m & ->)]]].
    + by left.
    + right; left. exists st, t. rewrite <- Hid. auto.
    + right; right; left. rewrite <- Hid. split; [auto | by exists i, t].
    + right; right; right. by exists k, m.
  - apply touches_notify; auto.
  - rewrite Hid. apply touches_log; auto.
Qed.

Lemma touches_pop (F : Footprint) (w : World) : touches F w (set_faults tail w).
Proof. apply touches_faults. constructor. Qed.

(** Reading the database touches nothing. *)
Lemma touches_query (F : Footprint) {A} (query : DB -> A) :
  preserves (touches F) (statement (fun _ d => (query d, d))).
Proof.
  apply preserves_statement; [apply _ | apply touches_pop |].
  intros w. simpl. apply touches_db; [constructor | by left].
Qed.

Lemma touches_updateSignalStatus (F : Footprint) (newStatus : string) :
  In newStatus (fp_statuses F) ->
  preserves (touches F) (updateSignalStatus (fp_signal F) newStatus).
Proof.
  intros Hin. apply preserves_try_catch; [apply _ | | apply preserves_throw; apply _].
  apply preserves_statement; [apply _ | apply touches_pop |].
  intros w. simpl. apply touches_db; [constructor |].
  right; left. by exists newStatus, (now w).
Qed.

Lemma touches_updateSignalTarget (F : Footprint) (targetIndex : nat) :
  fp_targets F = true ->
  preserves (touches F) (updateSignalTarget (fp_signal F) targetIndex true).
Proof.
  intros Htargets. apply preserves_try_catch; [apply _ | | apply preserves_throw; apply _].
  apply preserves_statement; [apply _ | apply touches_pop |].
  intros w. simpl. apply touches_db; [constructor |].
  right; right; left. split; [done |]. by exists targetIndex, (now w).
Qed.

Lemma touches_checkTakeProfitHits (F : Footprint) signalId currentPrice
    targetPrices signalType :
  preserves (touches F)
    (checkTakeProfitHits signalId currentPrice targetPrices signalType).
Proof.
  apply preserves_try_catch; [apply _ | | apply preserves_ret; apply _].
  apply preserves_bind; [apply _ | apply touches_query |].
  intros targetStatus. apply preserves_ret; apply _.
Qed.

Lemma touches_checkAllTargetsHit (F : Footprint) signalId totalTargets :
  preserves (touches F) (checkAllTargetsHit signalId totalTargets).
Proof.
  apply preserves_try_catch; [apply _ | | apply preserves_ret; apply _].
  apply preserves_bind; [apply _ | apply touches_query |].
  intros hitCount. apply preserves_ret; apply _.
Qed.

Lemma touches_updatePerformanceMetrics (F : Footprint) signalId entryPrice
    exitPrice signalType entryTimestamp avgTradeSize closingStatus :
  preserves (touches F)
    (updatePerformanceMetrics signalId entryPrice exitPrice signalType
       entryTimestamp avgTradeSize closingStatus).
Proof.
  apply preserves_try_catch; [apply _ | | apply preserves_ret; apply _].
  apply preserves_bind; [apply _ | apply preserves_Date_now; apply _ |].
  intros exitTime. apply preserves_for_of; [apply _ |].
  intros timeframe _.
  apply preserves_statement; [apply _ | apply touches_pop |].
  intros w. simpl. apply touches_db; [constructor |].
  right; right; right. by eexists _, _.
Qed.

Lemma touches_notification (F : Footprint) (eventType signalId : string) :
  In eventType (fp_statuses F) ->
  preserves (touches F) (notificationQueue_send (notification eventType signalId)).
Proof.
  intros Hin.
  apply preserves_notificationQueue_send; [apply _ | apply touches_pop |].
  intros w. apply touches_notify; [constructor | done].
Qed.

Lemma touches_handleStopLossHit signalId signalType currentPrice entryPrice
    avgTradeSize entryTimestamp :
  preserves (touches (stop_loss_footprint signalId))
    (handleStopLossHit signalId signalType currentPrice entryPrice avgTradeSize
       entryTimestamp).
Proof.
  apply preserves_try_catch; [apply _ | | apply preserves_ret; apply _].
  apply preserves_bind; [apply _ | |].
  - apply (touches_updateSignalStatus (stop_loss_footprint signalId)). by left.
  - intros _. apply preserves_bind; [apply _ | |].
    + apply touches_updatePerformanceMetrics.
    + intros _. apply touches_notification. by left.
Qed.

Lemma touches_handleTakeProfitHits signalId signalType currentPrice tpHits
    targets entryPrice avgTradeSize entryTimestamp :
  preserves (touches (take_profit_footprint signalId))
    (handleTakeProfitHits signalId signalType currentPrice tpHits targets
       entryPrice avgTradeSize entryTimestamp).
Proof.
  apply preserves_try_catch; [apply _ | | apply preserves_ret; apply _].
  apply preserves_bind; [apply _ | |].
  { apply preserves_for_of; [apply _ |]. intros tpIndex _.
    by apply (touches_updateSignalTarget (take_profit_footprint signalId)). }
  intros _. apply preserves_bind; [apply _ | apply touches_checkAllTargetsHit |].
  intros allTargetsHit. apply preserves_bind; [apply _ | |].
  { apply (touches_updateSignalStatus (take_profit_footprint signalId)).
    destruct allTargetsHit; simpl; auto. }
  intros _. apply preserves_bind; [apply _ | |].
  { destruct allTargetsHit;
      [apply touches_updatePerformanceMetrics | apply preserves_ret; apply _]. }
  intros _. apply touches_notification. destruct allTargetsHit; simpl; auto.
Qed.

(** The branch after the log line, by the outcome of the stop-loss
    test. *)
Lemma processSignalPriceCheck_branch (signal : Signal) (currentPrice : Q) (w : World) :
  let levels :=
    calculatePriceLevels (entry_price (row signal)) (stop_loss (row signal))
      (targets_json (row signal)) (type (row signal)) in
  let logged :=
    set_checking_log (fun l => (l ++ [signal_id signal])%list) w in
  touches
    (if isStopLossHit currentPrice levels.1 (type (row signal))
     then stop_loss_footprint (signal_id signal)
     else take_profit_footprint (signal_id signal))
    logged (processSignalPriceCheck signal currentPrice w).2.
Proof.
  cbv zeta. unfold processSignalPriceCheck.
  destruct (calculatePriceLevels _ _ _ _) as [stopLossPrice targetPrices]. simpl.
  unfold bind at 1. unfold log_checking at 1.
  destruct (isStopLossHit currentPrice stopLossPrice (type (row signal))).
  - apply touches_handleStopLossHit.
  - apply (preserves_bind (touches (take_profit_footprint (signal_id signal))));
      [apply touches_checkTakeProfitHits |].
    intros tpHits. destruct (0 <? length tpHits)%nat.
    + apply touches_handleTakeProfitHits.
    + apply preserves_ret; apply _.
Qed.

Lemma touches_processSignalPriceCheck (signal : Signal) (currentPrice : Q) :
  preserves (touches (evaluation_footprint (signal_id signal)))
    (processSignalPriceCheck signal currentPrice).
Proof.
  intros w. pose proof (processSignalPriceCheck_branch signal currentPrice w) as Hb.
  cbv zeta in Hb.
  etransitivity.
  - apply (touches_log (evaluation_footprint (signal_id signal)) w w);
      [constructor | reflexivity].
  - eapply touches_mono; [| exact Hb].
    destruct (isStopLossHit _ _ _); repeat split; simpl; intros; intuition.
Qed.

Lemma returns_processSignalPriceCheck (signal : Signal) (currentPrice : Q) :
  returns (processSignalPriceCheck signal currentPrice).
Proof.
  unfold processSignalPriceCheck.
  destruct (calculatePriceLevels _ _ _ _) as [stopLossPrice targetPrices].
  apply returns_bind; [intros w; by exists tt |]. intros _.
  destruct (isStopLossHit _ _ _).
  - apply returns_try_catch, returns_ret.
  - apply returns_bind; [apply returns_try_catch, returns_ret |].
    intros tpHits. destruct (0 <? length tpHits)%nat.
    + apply returns_try_catch, returns_ret.
    + apply returns_ret.
Qed.

(** ** What a footprint implies *)

Lemma touches_kept (F : Footprint) (signalId : string) (w w' : World) :
  touches F w w' -> signalId <> fp_signal F -> kept signalId w w'.
Proof.
  intros H Hne. induction H as [w | w w' f H IH | w w' d' H IH Hstep | w w' ev H IH Hin | w w' H IH Hlog].
  - by split.
  - exact IH.
  - destruct IH as [IHs IHt]. unfold kept. simpl.
    destruct Hstep as [-> | [(st & t & Hin & ->) | [(Ht & i & t & ->) | (k & m & ->)]]];
      simpl; rewrite ?lookup_alter_ne by done; by split.
  - exact IH.
  - exact IH.
Qed.

Lemma alter_hit_flag (t : Z) (i j : nat) (rungs : gmap nat TargetRow) :
  is_hit <$> (rungs !! j) = Some true ->
  is_hit <$> (alter (with_hit true t) i rungs !! j) = Some true.
Proof.
  intros Hhit. destruct (decide (i = j)) as [-> | Hne].
  - rewrite lookup_alter_eq. by destruct (rungs !! j).
  - by rewrite lookup_alter_ne.
Qed.

Lemma touches_hits_kept (F : Footprint) (w w' : World) :
  touches F w w' -> hits_kept w w'.
Proof.
  intros H. induction H as [w | w w' f H IH | w w' d' H IH Hstep | w w' ev H IH Hin | w w' H IH Hlog];
    try exact IH.
  - by intros id i.
  - intros id i Hhit. specialize (IH id i Hhit). unfold hit_flag in *. simpl.
    destruct Hstep as [-> | [(st & t & Hin & ->) | [(Ht & j & t & ->) | (k & m & ->)]]];
      simpl; try exact IH.
    destruct (decide (fp_signal F = id)) as [<- | Hne].
    + rewrite lookup_alter_eq.
      destruct (signal_targets (db w') !! fp_signal F) as [rungs |]; simpl in *;
        [by apply alter_hit_flag | done].
    + by rewrite lookup_alter_ne.
Qed.

Lemma touches_targets (F : Footprint) (w w' : World) :
  touches F w w' -> fp_targets F = false ->
  signal_targets (db w') = signal_targets (db w).
Proof.
  intros H Hno. induction H as [w | w w' f H IH | w w' d' H IH Hstep | w w' ev H IH Hin | w w' H IH Hlog];
    try exact IH; [done |].
  simpl. destruct Hstep as [-> | [(st & t & Hin & ->) | [(Ht & j & t & ->) | (k & m & ->)]]];
    simpl; try exact IH. congruence.
Qed.

Lemma touches_status (F : Footprint) (w w' : World) :
  touches F w w' ->
  signals (db w') !! fp_signal F = signals (db w) !! fp_signal F
  \/ exists st t, In st (fp_statuses F)
       /\ signals (db w') !! fp_signal F
          = with_status st t <$> (signals (db w) !! fp_signal F).
Proof.
  intros H. induction H as [w | w w' f H IH | w w' d' H IH Hstep | w w' ev H IH Hin | w w' H IH Hlog];
    try exact IH; [by left |].
  simpl. destruct Hstep as [-> | [(st & t & Hin & ->) | [(Ht & j & t & ->) | (k & m & ->)]]];
    simpl; try exact IH.
  right. exists st, t. split; [done |]. rewrite lookup_alter_eq.
  destruct IH as [-> | (st' & t' & _ & ->)]; [done |].
  by destruct (signals (db w) !! fp_signal F).
Qed.

Lemma touches_notifications (F : Footprint) (w w' : World) :
  touches F w w' ->
  exists sent,
    notification_queue w' = (notification_queue w ++ sent)%list
    /\ Forall (fun ev => In (ne_type ev) (fp_statuses F)) sent.
Proof.
  intros H. induction H as [w | w w' f H IH | w w' d' H IH Hstep | w w' ev H IH Hin | w w' H IH Hlog];
    try exact IH.
  - exists []. by rewrite app_nil_r.
  - destruct IH as (sent & Heq & Hall). exists (sent ++ [ev])%list. simpl.
    rewrite Heq. split; [by rewrite app_assoc |].
    apply Forall_app. split; [done | by constructor].
Qed.

Lemma touches_checking_log (F : Footprint) (w w' : World) :
  touches F w w' -> fp_log F = false -> checking_log w' = checking_log w.
Proof.
  intros H Hno. induction H as [w | w w' f H IH | w w' d' H IH Hstep | w w' ev H IH Hin | w w' H IH Hlog];
    try exact IH; [done | congruence].
Qed.

End TouchesFacts.

Section CycleFacts.
Import Types Runtime DatabaseManager PriceMonitor Observations.

(** ** The active signals *)

Lemma select_active_signals_In (d : DB) (s : Signal) :
  In s (select_active_signals d)
  <-> signals d !! signal_id s = Some (row s) /\ status (row s) = "OPEN".
Proof.
  unfold select_active_signals. rewrite sort_desc_In, in_map_iff. split.
  - intros ([k r] & <- & Hin). simpl.
    apply list_elem_of_In, list_elem_of_filter in Hin as [Hopen Hin].
    by apply elem_of_map_to_list in Hin.
  - intros [Hrow Hopen]. exists (signal_id s, row s). split; [by destruct s |].
    apply list_elem_of_In, list_elem_of_filter. split; [done |].
    by apply elem_of_map_to_list.
Qed.

Lemma select_active_signals_NoDup (d : DB) :
  List.NoDup (map signal_id (select_active_signals d)).
Proof.
  unfold select_active_signals.
  eapply Permutation_NoDup.
  { apply Permutation_map. symmetry. apply sort_desc_perm. }
  rewrite map_map. simpl. apply NoDup_ListNoDup.
  eapply sublist_NoDup; [apply (NoDup_fst_map_to_list (signals d)) |].
  apply (fmap_sublist fst), sublist_filter.
Qed.

(** ** Grouping by pair *)

Lemma members_group_push (keep : string -> bool) (p : string) (s : Signal)
    (grouped : list (string * list Signal)) :
  Permutation (members keep (group_push p s grouped))
    (members keep grouped ++ (if keep p then [s] else []))%list.
Proof.
  induction grouped as [| [p' ms] rest IH]; simpl.
  - unfold members. simpl. by destruct (keep p).
  - destruct (String.eqb_spec p' p) as [-> | Hne]; unfold members in *; simpl.
    + destruct (keep p); simpl; [| by rewrite app_nil_r].
      rewrite <- !app_assoc. apply Permutation_app_head, Permutation_app_comm.
    + rewrite IH. by rewrite app_assoc.
Qed.

Lemma members_fold (keep : string -> bool) (l : list Signal)
    (grouped : list (string * list Signal)) :
  Permutation
    (members keep
       (fold_left (fun g s => group_push (pair (row s)) s g) l grouped))
    (members keep grouped
     ++ List.filter (fun s => keep (pair (row s))) l)%list.
Proof.
  revert grouped. induction l as [| s l IH]; intros grouped; simpl.
  - by rewrite app_nil_r.
  - rewrite IH, members_group_push, <- app_assoc.
    apply Permutation_app_head. by destruct (keep (pair (row s))).
Qed.

Lemma members_groupSignalsByPair (keep : string -> bool) (l : list Signal) :
  Permutation (members keep (groupSignalsByPair l))
    (List.filter (fun s => keep (pair (row s))) l).
Proof. unfold groupSignalsByPair. by rewrite members_fold. Qed.

Lemma evaluated_members (market : Market) (d : DB) :
  evaluated market d
  = members (has_price market) (groupSignalsByPair (select_active_signals d)).
Proof.
  unfold evaluated, members, has_price. f_equal. apply map_ext.
  intros [p ms]. simpl. by destruct (getCurrentPrice market p).
Qed.

Lemma evaluated_perm (market : Market) (d : DB) :
  Permutation (evaluated market d)
    (List.filter (fun s => has_price market (pair (row s)))
       (select_active_signals d)).
Proof. rewrite evaluated_members. apply members_groupSignalsByPair. Qed.

Lemma evaluated_In (market : Market) (d : DB) (s : Signal) :
  In s (evaluated market d) -> In s (select_active_signals d).
Proof.
  intros Hin. eapply Permutation_in in Hin; [| apply evaluated_perm].
  by apply filter_In in Hin as [Hin _].
Qed.

Lemma group_member_In (l : list Signal) (p : string) (ms : list Signal) (s : Signal) :
  In (p, ms) (groupSignalsByPair l) -> In s ms -> In s l.
Proof.
  intros Hgroup Hs.
  assert (Hin : In s (members (fun _ => true) (groupSignalsByPair l))).
  { unfold members. apply in_concat. exists ms. split; [| done].
    apply in_map_iff. by exists (p, ms). }
  eapply Permutation_in in Hin; [| apply members_groupSignalsByPair].
  by apply filter_In in Hin as [Hin _].
Qed.

Lemma NoDup_map_filter {A B} (f : A -> B) (keep : A -> bool) (l : list A) :
  List.NoDup (map f l) -> List.NoDup (map f (List.filter keep l)).
Proof.
  induction l as [| x l IH]; simpl; [done |].
  intros Hnd. inversion Hnd as [| ? ? Hnotin Hnd']; subst.
  destruct (keep x); simpl; [| by apply IH].
  constructor; [| by apply IH].
  intros Hin. apply Hnotin. apply in_map_iff in Hin as (y & Hy & Hin).
  apply in_map_iff. exists y. split; [done |]. by apply filter_In in Hin as [Hin _].
Qed.

(** A signal is entered once when it is open and its pair has a price,
    and not at all otherwise. *)
Lemma evaluated_count (market : Market) (d : DB) (signalId : string) :
  count_occ string_dec (map signal_id (evaluated market d)) signalId
  = match signals d !! signalId with
    | Some r =>
        if decide (status r = "OPEN")
        then if has_price market (pair r) then 1%nat else 0%nat
        else 0%nat
    | None => 0%nat
    end.
Proof.
  rewrite (proj1 (Permutation_count_occ string_dec _ _)
             (Permutation_map signal_id (evaluated_perm market d)) signalId).
  set (chosen := List.filter _ _).
  assert (Hnd : List.NoDup (map signal_id chosen)).
  { apply NoDup_map_filter, select_active_signals_NoDup. }
  assert (Hin : forall r, In {| signal_id := signalId; row := r |} chosen
                  <-> signals d !! signalId = Some r /\ status r = "OPEN"
                      /\ has_price market (pair r) = true).
  { intros r. unfold chosen. rewrite filter_In, select_active_signals_In. simpl. tauto. }
  destruct (signals d !! signalId) as [r |] eqn:Hrow.
  - destruct (decide (status r = "OPEN")) as [Hopen | Hclosed].
    + destruct (has_price market (pair r)) eqn:Hprice.
      * apply NoDup_count_occ'; [done |]. apply in_map_iff.
        exists {| signal_id := signalId; row := r |}. split; [done |].
        apply Hin. done.
      * apply count_occ_not_In. intros Hmem.
        apply in_map_iff in Hmem as ([id r'] & Hid & Hmem). simpl in Hid. subst id.
        apply Hin in Hmem as (Hr' & _ & Hp). congruence.
    + apply count_occ_not_In. intros Hmem.
      apply in_map_iff in Hmem as ([id r'] & Hid & Hmem). simpl in Hid. subst id.
      apply Hin in Hmem as (Hr' & Ho & _). congruence.
  - apply count_occ_not_In. intros Hmem.
    apply in_map_iff in Hmem as ([id r'] & Hid & Hmem). simpl in Hid. subst id.
    apply Hin in Hmem as (Hr' & _ & _). congruence.
Qed.

End CycleFacts.

Section CycleRuns.
Import Types Runtime DatabaseManager PriceMonitor Observations.

(** ** The log of a cycle *)

Lemma for_of_log {A} (l : list A) (ids : A -> list string) (body : A -> Async unit) :
  (forall x w, In x l ->
     (body x w).1 = Return tt
     /\ checking_log (body x w).2 = (checking_log w ++ ids x)%list) ->
  forall w,
    (for_of l body w).1 = Return tt
    /\ checking_log (for_of l body w).2
       = (checking_log w ++ concat (map ids l))%list.
Proof.
  induction l as [| x l IH]; intros Hbody w; simpl.
  - by rewrite app_nil_r.
  - unfold bind. destruct (Hbody x w (or_introl eq_refl)) as [Hret Hlog].
    destruct (body x w) as [[[] |] w1]; simpl in *; [| discriminate].
    destruct (IH (fun y w' Hy => Hbody y w' (or_intror Hy)) w1) as [Hret' Hlog'].
    split; [done |]. by rewrite Hlog', Hlog, app_assoc.
Qed.

Lemma processSignalPriceCheck_log (signal : Signal) (currentPrice : Q) (w : World) :
  (processSignalPriceCheck signal currentPrice w).1 = Return tt
  /\ checking_log (processSignalPriceCheck signal currentPrice w).2
     = (checking_log w ++ [signal_id signal])%list.
Proof.
  split.
  - destruct (returns_processSignalPriceCheck signal currentPrice w) as [[] Hret].
    exact Hret.
  - pose proof (processSignalPriceCheck_branch signal currentPrice w) as Hb.
    cbv zeta in Hb. apply touches_checking_log in Hb; [exact Hb |].
    by destruct (isStopLossHit _ _ _).
Qed.

Lemma try_catch_ret_log (m : Async unit) (w : World) (ids : list string) :
  (m w).1 = Return tt ->
  checking_log (m w).2 = (checking_log w ++ ids)%list ->
  (try_catch m (ret tt) w).1 = Return tt
  /\ checking_log (try_catch m (ret tt) w).2 = (checking_log w ++ ids)%list.
Proof.
  unfold try_catch. destruct (m w) as [[[] |] w1]; simpl; [done | discriminate].
Qed.

Lemma processPairSignals_log (market : Market) (p : string)
    (pairSignals : list Signal) (w : World) :
  (try_catch (processPairSignals market p pairSignals) (ret tt) w).1 = Return tt
  /\ checking_log (try_catch (processPairSignals market p pairSignals) (ret tt) w).2
     = (checking_log w
        ++ (if has_price market p then map signal_id pairSignals else []))%list.
Proof.
  assert (Hinner :
    (processPairSignals market p pairSignals w).1 = Return tt
    /\ checking_log (processPairSignals market p pairSignals w).2
       = (checking_log w
          ++ (if has_price market p then map signal_id pairSignals else []))%list).
  { unfold processPairSignals, has_price.
    destruct (getCurrentPrice market p) as [currentPrice |].
    - pose proof (for_of_log pairSignals (fun s => [signal_id s])
        (fun signal => try_catch (processSignalPriceCheck signal currentPrice) (ret tt))) as Hloop.
      destruct (Hloop (fun s w' _ =>
        try_catch_ret_log _ w' [signal_id s]
          (proj1 (processSignalPriceCheck_log s currentPrice w'))
          (proj2 (processSignalPriceCheck_log s currentPrice w'))) w) as [Hret Hlog].
      unfold try_catch at 1 3.
      destruct (for_of pairSignals _ w) as [[[] |] w1]; simpl in *; [| discriminate].
      split; [done |]. rewrite Hlog. f_equal.
      clear. induction pairSignals as [| s l IH]; simpl; [done | by rewrite IH].
    - unfold try_catch, ret. simpl. by rewrite app_nil_r. }
  destruct Hinner as [Hret Hlog]. by apply try_catch_ret_log.
Qed.

Lemma concat_map_members (market : Market) (grouped : list (string * list Signal)) :
  concat (map (fun entry : string * list Signal =>
                 if has_price market entry.1 then map signal_id entry.2 else [])
            grouped)
  = map signal_id (members (has_price market) grouped).
Proof.
  unfold members. induction grouped as [| [p ms] rest IH]; simpl; [done |].
  rewrite map_app, IH. by destruct (has_price market p).
Qed.

(** The lines a cycle adds to the log: none when D1 rejects the query
    for the active signals, and otherwise one for each signal it
    enters. *)
Lemma cycle_log (market : Market) (w : World) :
  checking_log (cycle market w)
  = (checking_log w
     ++ (if fate 0 w then [] else map signal_id (evaluated market (db w))))%list.
Proof.
  unfold cycle, scheduled, monitorActivePrices, getActiveSignals, fate.
  unfold try_catch at 1 2 3. unfold bind at 1. unfold statement, bind, next_fault, throw, ret.
  replace (faults w !! 0%nat) with (head (faults w)) by (by destruct (faults w)).
  destruct (default false (head (faults w))); simpl; [by rewrite app_nil_r |].
  set (w1 := set_db _ _).
  destruct (length (select_active_signals (db w)) =? 0)%nat eqn:Hempty.
  - simpl. apply Nat.eqb_eq, length_zero_iff_nil in Hempty.
    rewrite evaluated_members, Hempty. simpl. by rewrite app_nil_r.
  - pose proof (for_of_log (groupSignalsByPair (select_active_signals (db w)))
      (fun entry => if has_price market entry.1 then map signal_id entry.2 else [])
      (fun entry => try_catch (processPairSignals market entry.1 entry.2) (ret tt))
      (fun entry w' _ => processPairSignals_log market entry.1 entry.2 w') w1)
      as [Hret Hlog].
    destruct (for_of _ _ w1) as [[[] |] w2]; simpl in *; [| discriminate].
    rewrite Hlog, concat_map_members, evaluated_members. reflexivity.
Qed.

(** ** Relations that every evaluation preserves *)

Lemma processPairSignals_preserves (R : World -> World -> Prop) `{!PreOrder R}
    (market : Market) (p : string) (pairSignals : list Signal) :
  (forall signal currentPrice, In signal pairSignals ->
     preserves R (processSignalPriceCheck signal currentPrice)) ->
  preserves R (try_catch (processPairSignals market p pairSignals) (ret tt)).
Proof.
  intros Hstep.
  apply preserves_try_catch; [done | | by apply preserves_ret].
  apply preserves_try_catch; [done | | by apply preserves_throw].
  destruct (getCurrentPrice market p) as [currentPrice |]; [| by apply preserves_ret].
  apply preserves_for_of; [done |]. intros signal Hin.
  apply preserves_try_catch; [done | by apply Hstep | by apply preserves_ret].
Qed.

(** A relation that is kept by a rejected or a reading statement and by
    the evaluation of every active signal is kept by a cycle. *)
Lemma cycle_preserves (R : World -> World -> Prop) `{!PreOrder R}
    (market : Market) (w : World) :
  (forall w0, R w0 (set_faults tail w0)) ->
  (forall w0, R w0 (set_db (fun _ => db w0) w0)) ->
  (forall signal currentPrice, In signal (select_active_signals (db w)) ->
     preserves R (processSignalPriceCheck signal currentPrice)) ->
  R w (cycle market w).
Proof.
  intros Hpop Hsame Hstep.
  unfold cycle, scheduled, monitorActivePrices, getActiveSignals.
  unfold try_catch at 1 2 3. unfold bind at 1.
  unfold statement, bind, next_fault, throw, ret.
  destruct (default false (head (faults w))); simpl; [apply Hpop |].
  set (w1 := set_db _ _).
  assert (Hw1 : R w w1).
  { etransitivity; [apply Hpop | apply (Hsame (set_faults tail w))]. }
  destruct (length (select_active_signals (db w)) =? 0)%nat; simpl; [exact Hw1 |].
  assert (Hloop : preserves R
    (for_of (groupSignalsByPair (select_active_signals (db w)))
       (fun entry => try_catch (processPairSignals market entry.1 entry.2) (ret tt)))).
  { apply preserves_for_of; [done |]. intros [p ms] Hgroup. simpl.
    apply processPairSignals_preserves; [done |].
    intros signal currentPrice Hin. apply Hstep.
    by apply (group_member_In _ p ms). }
  specialize (Hloop w1).
  destruct (for_of _ _ w1) as [[[] |] w2]; simpl in *; by etransitivity.
Qed.

Global Instance kept_preorder (signalId : string) : PreOrder (kept signalId).
Proof.
  split.
  - by intros w.
  - intros w1 w2 w3 [Hs12 Ht12] [Hs23 Ht23]. split; congruence.
Qed.

Global Instance hits_kept_preorder : PreOrder hits_kept.
Proof.
  split.
  - by intros w id i.
  - intros w1 w2 w3 H12 H23 id i Hhit. by apply H23, H12.
Qed.

(** A cycle leaves alone every signal that is not open when it starts. *)
Lemma cycle_kept (market : Market) (w : World) (signalId : string) :
  status_of signalId w <> Some "OPEN" -> kept signalId w (cycle market w).
Proof.
  intros Hclosed. apply cycle_preserves; [apply _ | by intros | by intros |].
  intros signal currentPrice Hactive w0.
  apply (touches_kept (evaluation_footprint (signal_id signal)));
    [apply touches_processSignalPriceCheck |].
  simpl. intros ->. apply select_active_signals_In in Hactive as [Hrow Hopen].
  apply Hclosed. unfold status_of. by rewrite Hrow, <- Hopen.
Qed.

Lemma cycles_kept (markets : list Market) (w : World) (signalId : string) :
  status_of signalId w <> Some "OPEN" -> kept signalId w (cycles markets w).
Proof.
  revert w. induction markets as [| market markets IH]; intros w Hclosed; simpl.
  - reflexivity.
  - pose proof (cycle_kept market w signalId Hclosed) as Hstep.
    etransitivity; [exact Hstep |]. apply IH.
    unfold status_of in *. destruct Hstep as [-> _]. exact Hclosed.
Qed.

(** No cycle unsets a hit flag. *)
Lemma cycle_hits_kept (market : Market) (w : World) : hits_kept w (cycle market w).
Proof.
  apply cycle_preserves;
    [apply _ | by intros w0 id i Hhit | by intros w0 id i Hhit |].
  intros signal currentPrice _ w0.
  apply (touches_hits_kept (evaluation_footprint (signal_id signal))),
    touches_processSignalPriceCheck.
Qed.

End CycleRuns.

Section MonitorClaims.
Import Types Runtime DatabaseManager PriceMonitor Observations Samples.

Lemma scanTargets_range targetStatus currentPrice signalType (i : nat)
    (targetPrices : list Q) (j : nat) :
  In j (scanTargets targetStatus currentPrice signalType i targetPrices) ->
  (i <= j < i + length targetPrices)%nat
  /\ default false (targetStatus !! j) = false.
Proof.
  revert i. induction targetPrices as [| targetPrice rest IH]; intros i; simpl; [done |].
  assert (Htail : In j (scanTargets targetStatus currentPrice signalType (S i) rest) ->
                  (i <= j < i + S (length rest))%nat
                  /\ default false (targetStatus !! j) = false).
  { intros Hin. destruct (IH _ Hin). split; [lia | done]. }
  destruct (default false (targetStatus !! i)) eqn:Hhit; simpl; [exact Htail |].
  destruct (if String.eqb signalType "LONG" then _ else _); [| exact Htail].
  intros [<- | Hin]; [split; [lia | done] | by apply Htail].
Qed.

(** The rungs that [checkTakeProfitHits] reports are in ascending order
    of index. *)
Lemma scanTargets_ascending targetStatus currentPrice signalType (i : nat)
    (targetPrices : list Q) :
  StronglySorted lt (scanTargets targetStatus currentPrice signalType i targetPrices).
Proof.
  revert i. induction targetPrices as [| targetPrice rest IH]; intros i; simpl;
    [constructor |].
  destruct (negb _); [| apply IH].
  destruct (if String.eqb signalType "LONG" then _ else _); [| apply IH].
  constructor; [apply IH |]. apply Forall_forall. intros j Hj.
  apply list_elem_of_In, scanTargets_range in Hj as [Hrange _]. lia.
Qed.

Lemma updateSignalStatus_accepted (signalId newStatus : string) (w : World) :
  fate 0 w = false ->
  (updateSignalStatus signalId newStatus w).1 = Return tt
  /\ signals (db (updateSignalStatus signalId newStatus w).2)
     = alter (with_status newStatus (now w)) signalId (signals (db w)).
Proof.
  intros Hfate.
  assert (Hrej : default false (head (faults w)) = false).
  { unfold fate in Hfate. by destruct (faults w). }
  unfold updateSignalStatus, try_catch, statement, bind, next_fault, throw.
  rewrite Hrej. by simpl.
Qed.

(** When D1 accepts the update of the status, [handleStopLossHit] leaves
    the signal with the status SL_HIT, whatever happens to the
    statements after it. *)
Lemma handleStopLossHit_status signalId signalType currentPrice entryPrice
    avgTradeSize entryTimestamp (w : World) :
  fate 0 w = false ->
  is_Some (signals (db w) !! signalId) ->
  status_of signalId
    (handleStopLossHit signalId signalType currentPrice entryPrice
       avgTradeSize entryTimestamp w).2
  = Some "SL_HIT".
Proof.
  intros Hfate [r Hrow].
  destruct (updateSignalStatus_accepted signalId "SL_HIT" w Hfate) as [Hret Hsignals].
  unfold handleStopLossHit. unfold try_catch at 1. unfold bind at 1.
  destruct (updateSignalStatus signalId "SL_HIT" w) as [[[] |] w1];
    simpl in Hret, Hsignals; [| discriminate].
  set (rest := bind _ _).
  assert (Hrest : touches (stop_loss_footprint signalId) w1 (rest w1).2).
  { apply (preserves_bind (touches (stop_loss_footprint signalId)));
      [apply touches_updatePerformanceMetrics |].
    intros _. apply touches_notification. by left. }
  assert (Hfinal : touches (stop_loss_footprint signalId) w1
            (let (o, w') := rest w1 in
             match o with Return a => (Return a, w') | Throw => ret tt w' end).2).
  { destruct (rest w1) as [[[] |] w2]; exact Hrest. }
  apply touches_status in Hfinal. simpl in Hfinal. unfold status_of.
  rewrite Hsignals, lookup_alter_eq, Hrow in Hfinal. simpl in Hfinal.
  destruct Hfinal as [-> | (st & t & [<- | []] & ->)]; reflexivity.
Qed.

Lemma processSignalPriceCheck_stop_loss (signal : Signal) (currentPrice : Q)
    (w : World) (r : SignalRow) :
  signals (db w) !! signal_id signal = Some r ->
  status r = "OPEN" ->
  let stopLossPrice :=
    (calculatePriceLevels (entry_price (row signal)) (stop_loss (row signal))
       (targets_json (row signal)) (type (row signal))).1 in
  let w' := (processSignalPriceCheck signal currentPrice w).2 in
  (status_of (signal_id signal) w' = Some "SL_HIT" ->
   isStopLossHit currentPrice stopLossPrice (type (row signal)) = true)
  /\ (fate 0 w = false ->
      isStopLossHit currentPrice stopLossPrice (type (row signal)) = true ->
      status_of (signal_id signal) w' = Some "SL_HIT").
Proof.
  intros Hrow Hopen stopLossPrice w'. split.
  - intros Hsl.
    pose proof (processSignalPriceCheck_branch signal currentPrice w) as Hb.
    cbv zeta in Hb. fold stopLossPrice w' in Hb.
    destruct (isStopLossHit currentPrice stopLossPrice (type (row signal))); [done |].
    apply touches_status in Hb. simpl in Hb. unfold status_of in Hsl.
    destruct Hb as [Hsame | (st & t & Hst & Hnew)].
    + rewrite Hsame in Hsl. simpl in Hsl. rewrite Hrow in Hsl. simpl in Hsl. congruence.
    + rewrite Hnew in Hsl. simpl in Hsl. rewrite Hrow in Hsl. simpl in Hsl.
      destruct Hst as [<- | [<- | []]]; discriminate.
  - intros Hfate Hhit. subst w'. unfold processSignalPriceCheck.
    fold stopLossPrice.
    destruct (calculatePriceLevels _ _ _ _) as [slp tps] eqn:Hlevels.
    simpl in stopLossPrice. subst stopLossPrice.
    unfold bind at 1. unfold log_checking. rewrite Hhit.
    apply handleStopLossHit_status; [exact Hfate | by eexists].
Qed.

Lemma isStopLossHit_LONG (currentPrice stopLossPrice : Q) :
  isStopLossHit currentPrice stopLossPrice "LONG" = true
  <-> currentPrice <= stopLossPrice.
Proof. apply Qle_bool_iff. Qed.

Lemma isStopLossHit_SHORT (currentPrice stopLossPrice : Q) :
  isStopLossHit currentPrice stopLossPrice "SHORT" = true
  <-> stopLossPrice <= currentPrice.
Proof. apply Qle_bool_iff. Qed.

(** For SHORT the stop price of [calculatePriceLevels] lies below the
    reference price, so that the reference price itself already counts
    as a hit. *)
Lemma short_stop_below_reference (entryPrice stopLossPercent : Q) (targets : list Q) :
  0 < entryPrice -> ~ stopLossPercent == 0 ->
  let stopLossPrice :=
    (calculatePriceLevels entryPrice stopLossPercent targets "SHORT").1 in
  stopLossPrice < entryPrice
  /\ isStopLossHit entryPrice stopLossPrice "SHORT" = true.
Proof.
  intros Hpos Hsl. simpl.
  assert (Habs : 0 < Qabs stopLossPercent).
  { destruct (Qlt_le_dec 0 (Qabs stopLossPercent)) as [H | H]; [exact H |].
    exfalso. apply Hsl. apply Qabs_Qle_condition in H. destruct H. lra. }
  assert (Hfrac : 0 < Qabs stopLossPercent / 100) by (apply Qlt_shift_div_l; lra).
  set (b := Qabs stopLossPercent / 100) in *.
  assert (Hless : entryPrice * (1 - b) < entryPrice).
  { assert (H1 : 1 - b < 1) by lra.
    apply Qlt_le_trans with (entryPrice * 1); [by apply Qmult_lt_l |].
    rewrite Qmult_1_r. apply Qle_refl. }
  split; [exact Hless |]. apply isStopLossHit_SHORT. by apply Qlt_le_weak.
Qed.

(** C1: the stop price is the reference times [1 + stopLossPercent/100]
    for LONG and times [1 - |stopLossPercent|/100] for SHORT; the
    stop-loss is judged hit exactly when the current price is at or
    below the stop price for LONG, at or above it for SHORT; an open
    signal gets the status SL_HIT from its evaluation only if the
    stop-loss is judged hit, and does get it then when D1 accepts the
    update of the status; and for the LONG signal at 2450.50 with a
    stop-loss of -2.5 the stop price is 2450.50 * 0.975, a price of
    2388.00 sets SL_HIT and a price of 2400.00 leaves the signal open. *)
Theorem stop_loss_direction :
  (forall entryPrice stopLossPercent targets,
     (calculatePriceLevels entryPrice stopLossPercent targets "LONG").1
     = entryPrice * (1 + stopLossPercent / 100))
  /\ (forall entryPrice stopLossPercent targets,
        (calculatePriceLevels entryPrice stopLossPercent targets "SHORT").1
        = entryPrice * (1 - Qabs stopLossPercent / 100))
  /\ (forall currentPrice stopLossPrice,
        (isStopLossHit currentPrice stopLossPrice "LONG" = true
         <-> currentPrice <= stopLossPrice)
        /\ (isStopLossHit currentPrice stopLossPrice "SHORT" = true
            <-> stopLossPrice <= currentPrice))
  /\ (forall signal currentPrice w r,
        signals (db w) !! signal_id signal = Some r ->
        status r = "OPEN" ->
        let stopLossPrice :=
          (calculatePriceLevels (entry_price (row signal)) (stop_loss (row signal))
             (targets_json (row signal)) (type (row signal))).1 in
        let w' := (processSignalPriceCheck signal currentPrice w).2 in
        (status_of (signal_id signal) w' = Some "SL_HIT" ->
         isStopLossHit currentPrice stopLossPrice (type (row signal)) = true)
        /\ (fate 0 w = false ->
            isStopLossHit currentPrice stopLossPrice (type (row signal)) = true ->
            status_of (signal_id signal) w' = Some "SL_HIT"))
  /\ (calculatePriceLevels 2450.50 (-2.5) [2.0; 3.5; 5.0] "LONG").1
     == 2450.50 * 0.975
  /\ status_of "sig-eth" (cycle (quote 2388.00) eth_world) = Some "SL_HIT"
  /\ status_of "sig-eth" (cycle (quote 2400.00) eth_world) = Some "OPEN".
Proof.
  split; [reflexivity |]. split; [reflexivity |].
  split; [intros; split; [apply isStopLossHit_LONG | apply isStopLossHit_SHORT] |].
  split; [intros signal currentPrice w r Hrow Hopen;
          apply (processSignalPriceCheck_stop_loss signal currentPrice w r Hrow Hopen) |].
  split; [reflexivity |]. split; vm_compute; reflexivity.
Qed.

(** The evaluation of the sample signal at 2388.00. *)
Lemma stop_loss_direction_witness :
  status_of "sig-eth" (processSignalPriceCheck eth_signal 2388.00 eth_world).2
  = Some "SL_HIT".
Proof.
  destruct stop_loss_direction as (_ & _ & _ & Heval & _).
  apply (Heval eth_signal 2388.00 eth_world eth_row); reflexivity.
Defined.

(** C2 as stated fails on the sweep 101, 103, 106 of the ladder at
    100.00: the first cycle hits no rung (101 is below the first target
    102) and leaves the signal open, the second hits rung 0, and the
    third does not enter the signal at all, so that the statuses are
    OPEN, PARTIAL_TP, PARTIAL_TP and rungs 1 and 2 stay unhit. *)
Lemma ladder_sweep_as_stated_fails :
  let sweep := [quote 101; quote 103; quote 106] in
  status_trace "sig-1" sweep ladder_world
  = [Some "OPEN"; Some "PARTIAL_TP"; Some "PARTIAL_TP"]
  /\ status_trace "sig-1" sweep ladder_world
     <> [Some "PARTIAL_TP"; Some "PARTIAL_TP"; Some "TP_HIT"]
  /\ hit_flags "sig-1" 3 (cycle (quote 101) ladder_world)
     = [Some false; Some false; Some false]
  /\ hit_flags "sig-1" 3 (cycles sweep ladder_world)
     = [Some true; Some false; Some false]
  /\ (let w2 := cycles [quote 101; quote 103] ladder_world in
      status_of "sig-1" w2 = Some "PARTIAL_TP"
      /\ evaluations "sig-1" w2 (cycle (quote 106) w2) = 0%nat).
Proof.
  cbv zeta. repeat split; try (vm_compute; reflexivity).
  vm_compute. discriminate.
Qed.

Lemma cycle_evaluations (market : Market) (w : World) (signalId : string) :
  fate 0 w = false ->
  evaluations signalId w (cycle market w)
  = count_occ string_dec (map signal_id (evaluated market (db w))) signalId.
Proof.
  intros Hfate. unfold evaluations. rewrite cycle_log, Hfate.
  by rewrite drop_app_length.
Qed.

(** C2, as the code has it: a cycle in which D1 answers the query for
    the active signals enters the transition function exactly once for
    every OPEN signal whose pair has a price; the rungs that an
    evaluation reports as newly hit are in ascending order of index; no
    cycle and no evaluation unsets a hit flag; and for the LONG ladder
    at 100.00 with targets 2.0, 3.5 and 5.0 percent the target prices
    are 102.00, 103.50 and 105.00, a cycle at 101 hits no rung and
    leaves the signal OPEN, a following cycle at 103 hits rung 0 and
    sets PARTIAL_TP, and the transition function applied to the signal
    at 106 after that hits rungs 1 and 2 and sets TP_HIT. *)
Theorem take_profit_ladder :
  (forall market w signalId r,
     signals (db w) !! signalId = Some r ->
     status r = "OPEN" ->
     is_Some (getCurrentPrice market (pair r)) ->
     fate 0 w = false ->
     evaluations signalId w (cycle market w) = 1%nat)
  /\ (forall targetStatus currentPrice signalType targetPrices,
        StronglySorted lt
          (scanTargets targetStatus currentPrice signalType 0 targetPrices))
  /\ (forall market w, hits_kept w (cycle market w))
  /\ (forall signal currentPrice w,
        hits_kept w (processSignalPriceCheck signal currentPrice w).2)
  /\ Forall2 Qeq
       (calculatePriceLevels 100.00 (-2.5) [2.0; 3.5; 5.0] "LONG").2
       [102.00; 103.50; 105.00]
  /\ (let w1 := cycle (quote 101) ladder_world in
      status_of "sig-1" w1 = Some "OPEN"
      /\ hit_flags "sig-1" 3 w1 = [Some false; Some false; Some false])
  /\ (let w2 := cycles [quote 101; quote 103] ladder_world in
      status_of "sig-1" w2 = Some "PARTIAL_TP"
      /\ hit_flags "sig-1" 3 w2 = [Some true; Some false; Some false])
  /\ (let w3 :=
        (processSignalPriceCheck ladder_signal 106
           (cycles [quote 101; quote 103] ladder_world)).2 in
      status_of "sig-1" w3 = Some "TP_HIT"
      /\ hit_flags "sig-1" 3 w3 = [Some true; Some true; Some true]).
Proof.
  split; [| split; [| split; [| split; [| split]]]].
  - intros market w signalId r Hrow Hopen [price Hprice] Hfate.
    rewrite cycle_evaluations, evaluated_count, Hrow by done.
    rewrite decide_True by done. unfold has_price. by rewrite Hprice.
  - intros. apply scanTargets_ascending.
  - apply cycle_hits_kept.
  - intros signal currentPrice w.
    apply (touches_hits_kept (evaluation_footprint (signal_id signal))),
      touches_processSignalPriceCheck.
  - repeat constructor; vm_compute; reflexivity.
  - cbv zeta. repeat split; vm_compute; reflexivity.
Qed.

(** The first cycle of the sweep enters the ladder signal once. *)
Lemma take_profit_ladder_witness :
  evaluations "sig-1" ladder_world (cycle (quote 101) ladder_world) = 1%nat.
Proof.
  destruct take_profit_ladder as (Honce & _).
  apply (Honce (quote 101) ladder_world "sig-1" ladder_row).
  - reflexivity.
  - reflexivity.
  - by eexists.
  - reflexivity.
Defined.

(** C3: a signal whose status is not OPEN (SL_HIT, TP_HIT or any other)
    keeps its row, and so its status, and the rows of its targets
    through every later cycle, whatever the prices and whatever fails;
    an evaluation in which the stop-loss is hit consists of the log
    line and [handleStopLossHit] alone, so that it reads and writes no
    target, sends only SL_HIT notifications and leaves the row as it was
    or with the status SL_HIT; and an evaluation in which it is not hit
    leaves the row as it was or with the status TP_HIT or PARTIAL_TP. *)
Theorem closed_signal_is_final :
  (forall markets w signalId st,
     status_of signalId w = Some st -> st <> "OPEN" ->
     let w' := cycles markets w in
     status_of signalId w' = Some st
     /\ signals (db w') !! signalId = signals (db w) !! signalId
     /\ signal_targets (db w') !! signalId = signal_targets (db w) !! signalId)
  /\ (forall signal currentPrice w,
        let stopLossPrice :=
          (calculatePriceLevels (entry_price (row signal)) (stop_loss (row signal))
             (targets_json (row signal)) (type (row signal))).1 in
        let w' := (processSignalPriceCheck signal currentPrice w).2 in
        isStopLossHit currentPrice stopLossPrice (type (row signal)) = true ->
        processSignalPriceCheck signal currentPrice w
        = handleStopLossHit (signal_id signal) (type (row signal)) currentPrice
            (entry_price (row signal)) (avg_trade_size (row signal))
            (entry_timestamp (row signal))
            (set_checking_log (fun l => (l ++ [signal_id signal])%list) w)
        /\ signal_targets (db w') = signal_targets (db w)
        /\ (exists sent,
              notification_queue w' = (notification_queue w ++ sent)%list
              /\ Forall (fun ev => ne_type ev = "SL_HIT") sent)
        /\ (signals (db w') !! signal_id signal = signals (db w) !! signal_id signal
            \/ exists t,
                 signals (db w') !! signal_id signal
                 = with_status "SL_HIT" t <$> (signals (db w) !! signal_id signal)))
  /\ (forall signal currentPrice w,
        let stopLossPrice :=
          (calculatePriceLevels (entry_price (row signal)) (stop_loss (row signal))
             (targets_json (row signal)) (type (row signal))).1 in
        let w' := (processSignalPriceCheck signal currentPrice w).2 in
        isStopLossHit currentPrice stopLossPrice (type (row signal)) = false ->
        signals (db w') !! signal_id signal = signals (db w) !! signal_id signal
        \/ exists st t,
             (st = "TP_HIT" \/ st = "PARTIAL_TP")
             /\ signals (db w') !! signal_id signal
                = with_status st t <$> (signals (db w) !! signal_id signal)).
Proof.
  split; [| split].
  - intros markets w signalId st Hst Hclosed w'.
    assert (Hkept : kept signalId w w').
    { apply cycles_kept. rewrite Hst. congruence. }
    destruct Hkept as [Hrow Htargets]. repeat split; [| done | done].
    unfold status_of in *. by rewrite Hrow.
  - intros signal currentPrice w stopLossPrice w' Hhit.
    pose proof (processSignalPriceCheck_branch signal currentPrice w) as Hb.
    cbv zeta in Hb. fold stopLossPrice w' in Hb. rewrite Hhit in Hb.
    split; [| split; [| split]].
    + unfold processSignalPriceCheck. subst stopLossPrice.
      destruct (calculatePriceLevels _ _ _ _) as [slp tps]. simpl in Hhit.
      unfold bind at 1. unfold log_checking. by rewrite Hhit.
    + by apply touches_targets in Hb.
    + apply touches_notifications in Hb as (sent & Hq & Hall).
      exists sent. split; [exact Hq |].
      eapply Forall_impl; [exact Hall |]. simpl. intros ev [Hev | []]. done.
    + apply touches_status in Hb as [Hsame | (st & t & [<- | []] & Hnew)];
        [by left | right; by exists t].
  - intros signal currentPrice w stopLossPrice w' Hmiss.
    pose proof (processSignalPriceCheck_branch signal currentPrice w) as Hb.
    cbv zeta in Hb. fold stopLossPrice w' in Hb. rewrite Hmiss in Hb.
    apply touches_status in Hb as [Hsame | (st & t & Hst & Hnew)]; [by left |].
    right. exists st, t. split; [| exact Hnew].
    destruct Hst as [<- | [<- | []]]; auto.
Qed.

(** The ladder signal stopped out at 97 and then offered 106 and 103. *)
Lemma closed_signal_is_final_witness :
  let stopped := cycle (quote 97) ladder_world in
  let later := cycles [quote 106; quote 103] stopped in
  status_of "sig-1" stopped = Some "SL_HIT"
  /\ status_of "sig-1" later = Some "SL_HIT"
  /\ signal_targets (db later) !! "sig-1" = signal_targets (db stopped) !! "sig-1".
Proof.
  cbv zeta. destruct closed_signal_is_final as (Hfinal & _).
  assert (Hstopped : status_of "sig-1" (cycle (quote 97) ladder_world) = Some "SL_HIT")
    by (vm_compute; reflexivity).
  destruct (Hfinal [quote 106; quote 103] (cycle (quote 97) ladder_world)
              "sig-1" "SL_HIT" Hstopped) as (Hstatus & _ & Htargets);
    [discriminate |].
  split; [exact Hstopped |]. split; [exact Hstatus | exact Htargets].
Defined.

End MonitorClaims.


(* ===================================================================== *)
(** * More about [withRetry] *)
(* ===================================================================== *)

Section RetryRuns.
Import Utils Helpers.
Context {T : Type}.
Variable operation : nat -> Attempt T.
Variable random : nat -> Q.
Variable options : RetryOptions.

(** One failure that is retried. *)
Lemma retryLoop_retry (fuel : nat) (e : Error) (lastError : option Error)
    (invoked : nat) (slept : list Q) :
  operation invoked = Rejected e ->
  nonRetryable e = false ->
  Z.of_nat invoked <> maxRetries options ->
  retryLoop operation random options (S fuel) (Z.of_nat invoked) lastError invoked slept
  = retryLoop operation random options fuel (Z.of_nat (S invoked)) (Some e) (S invoked)
      (slept ++ [jitteredDelay random options invoked])%list.
Proof.
  intros He Hnon Hne. simpl. rewrite He, Hnon.
  destruct (Z.eqb_spec (Z.of_nat invoked) (maxRetries options)) as [Heq | _]; [done |].
  by replace (Z.of_nat invoked + 1)%Z with (Z.pos (Pos.of_succ_nat invoked)) by lia.
Qed.

Lemma retryLoop_first_success (fuel k : nat) (v : T) (lastError : option Error)
    (invoked : nat) (slept : list Q) :
  (forall j, (j < k)%nat -> retried operation (invoked + j)) ->
  operation (invoked + k)%nat = Resolved v ->
  (k < fuel)%nat ->
  (Z.of_nat invoked + Z.of_nat fuel = maxRetries options + 1)%Z ->
  retryLoop operation random options fuel (Z.of_nat invoked) lastError invoked slept
  = {| settled := Fulfilled v; calls := S (invoked + k);
       sleeps := (slept ++ map (jitteredDelay random options) (seq invoked k))%list |}.
Proof.
  revert fuel lastError invoked slept.
  induction k as [| k IH]; intros fuel lastError invoked slept Hretried Hok Hfuel Hmax.
  - destruct fuel as [| fuel]; [lia |]. simpl.
    rewrite Nat.add_0_r in Hok. rewrite Hok. by rewrite Nat.add_0_r, app_nil_r.
  - destruct fuel as [| fuel]; [lia |].
    destruct (Hretried 0%nat ltac:(lia)) as (e & He & Hnon).
    rewrite Nat.add_0_r in He.
    rewrite (retryLoop_retry fuel e) by (try done; lia).
    rewrite (IH fuel (Some e) (S invoked)).
    + f_equal; [f_equal; lia |]. simpl. by rewrite <- app_assoc.
    + intros j Hj. replace (S invoked + j)%nat with (invoked + S j)%nat by lia.
      apply Hretried. lia.
    + by replace (S invoked + k)%nat with (invoked + S k)%nat by lia.
    + lia.
    + lia.
Qed.

Lemma retryLoop_exhausts (fuel : nat) (e : Error) (lastError : option Error)
    (invoked : nat) (slept : list Q) :
  (forall j, (j <= fuel)%nat -> retried operation (invoked + j)) ->
  operation (invoked + fuel)%nat = Rejected e ->
  (Z.of_nat invoked + Z.of_nat fuel = maxRetries options)%Z ->
  retryLoop operation random options (S fuel) (Z.of_nat invoked) lastError invoked slept
  = {| settled := Threw (Some e); calls := S (invoked + fuel);
       sleeps := (slept ++ map (jitteredDelay random options) (seq invoked fuel))%list |}.
Proof.
  revert lastError invoked slept.
  induction fuel as [| fuel IH]; intros lastError invoked slept Hretried Hlast Hmax.
  - simpl. rewrite Nat.add_0_r in *. rewrite Hlast.
    destruct (Hretried 0%nat ltac:(lia)) as (e' & He' & Hnon).
    rewrite Nat.add_0_r, Hlast in He'. injection He' as <-. rewrite Hnon.
    destruct (Z.eqb_spec (Z.of_nat invoked) (maxRetries options)) as [_ | Hne]; [| lia].
    by rewrite app_nil_r.
  - destruct (Hretried 0%nat ltac:(lia)) as (e' & He' & Hnon).
    rewrite Nat.add_0_r in He'.
    rewrite (retryLoop_retry (S fuel) e') by (try done; lia).
    rewrite (IH (Some e') (S invoked)).
    + f_equal; [f_equal; lia |]. simpl. by rewrite <- app_assoc.
    + intros j Hj. replace (S invoked + j)%nat with (invoked + S j)%nat by lia.
      apply Hretried. lia.
    + by replace (S invoked + fuel)%nat with (invoked + S fuel)%nat by lia.
    + lia.
Qed.

(** X1: [withRetry] hands back the first success: when the first [k]
    invocations fail with errors that are retried, invocation [k]
    succeeds and [k <= maxRetries], the value of that invocation is
    returned after [k + 1] invocations and [k] sleeps, the sleep after
    failure [j] being [min (baseDelay * backoffMultiplier ^ j) maxDelay]
    plus the jitter. *)
Theorem withRetry_first_success (k : nat) (v : T) :
  (forall j, (j < k)%nat ->
     exists e, operation j = Rejected e /\ nonRetryable e = false) ->
  operation k = Resolved v ->
  (Z.of_nat k <= maxRetries options)%Z ->
  withRetry operation random options
  = {| settled := Fulfilled v; calls := S k;
       sleeps := map (fun j => backoffDelay options (Z.of_nat j) + random j * 1000)
                   (seq 0 k) |}.
Proof.
  intros Hretried Hok Hmax. unfold withRetry.
  apply (retryLoop_first_success (Z.to_nat (maxRetries options + 1)) k v None 0%nat []).
  - intros j Hj. by apply Hretried.
  - exact Hok.
  - lia.
  - lia.
Qed.

(** X2: when every invocation fails with an error that is retried, the
    operation is invoked exactly [maxRetries + 1] times with
    [maxRetries] sleeps in between, and the error of the last
    invocation is thrown. *)
Theorem withRetry_exhausts (e : Error) :
  (0 <= maxRetries options)%Z ->
  (forall j, (Z.of_nat j <= maxRetries options)%Z ->
     exists e', operation j = Rejected e' /\ nonRetryable e' = false) ->
  operation (Z.to_nat (maxRetries options)) = Rejected e ->
  withRetry operation random options
  = {| settled := Threw (Some e); calls := S (Z.to_nat (maxRetries options));
       sleeps := map (fun j => backoffDelay options (Z.of_nat j) + random j * 1000)
                   (seq 0 (Z.to_nat (maxRetries options))) |}.
Proof.
  intros Hmax Hretried Hlast. unfold withRetry.
  replace (Z.to_nat (maxRetries options + 1)) with (S (Z.to_nat (maxRetries options)))
    by lia.
  apply (retryLoop_exhausts (Z.to_nat (maxRetries options)) e None 0%nat []).
  - intros j Hj. apply Hretried. lia.
  - exact Hlast.
  - lia.
Qed.

(** Whatever the operation does, the sleeps of a run are the first
    [calls - 1] entries of the schedule. *)
Lemma retryLoop_sleeps (fuel : nat) (lastError : option Error) (invoked : nat)
    (slept : list Q) :
  (Z.of_nat invoked + Z.of_nat fuel = maxRetries options + 1)%Z ->
  let run := retryLoop operation random options fuel (Z.of_nat invoked) lastError
               invoked slept in
  ((0 < fuel)%nat -> (invoked < calls run)%nat)
  /\ sleeps run
     = (slept ++ map (jitteredDelay random options)
                  (seq invoked (pred (calls run - invoked))))%list.
Proof.
  revert lastError invoked slept.
  induction fuel as [| fuel IH]; intros lastError invoked slept Hfuel; cbv zeta.
  - simpl. rewrite Nat.sub_diag. simpl. rewrite app_nil_r. split; [lia | done].
  - simpl.
    assert (Hstop : forall (s : Settled T),
      ((0 < S fuel)%nat -> (invoked < S invoked)%nat)
      /\ slept = (slept ++ map (jitteredDelay random options)
                            (seq invoked (pred (S invoked - invoked))))%list).
    { intros _. replace (S invoked - invoked)%nat with 1%nat by lia.
      simpl. rewrite app_nil_r. split; [lia | done]. }
    destruct (operation invoked) as [v | e]; [by apply (Hstop (Fulfilled v)) |].
    destruct (nonRetryable e); [by apply (Hstop (Threw None)) |].
    destruct (Z.eqb_spec (Z.of_nat invoked) (maxRetries options)) as [Heq | Hne];
      [by apply (Hstop (Threw None)) |].
    replace (Z.of_nat invoked + 1)%Z with (Z.of_nat (S invoked)) by lia.
    destruct (IH (Some e) (S invoked)
                (slept ++ [backoffDelay options (Z.of_nat invoked)
                           + random invoked * 1000])%list ltac:(lia)) as [Hle Hsl].
    assert (Hleft : (0 < fuel)%nat) by lia. specialize (Hle Hleft).
    split; [lia |]. rewrite Hsl, <- app_assoc. f_equal.
    set (n := calls _) in *.
    replace (pred (n - invoked)) with (S (pred (n - S invoked))) by lia.
    reflexivity.
Qed.

(** X3: between two invocations [withRetry] sleeps once: a run of [n]
    invocations has slept [n - 1] times, the sleep after failure [j]
    being [min (baseDelay * backoffMultiplier ^ j) maxDelay] plus the
    jitter; so with a jitter factor in [0, 1) no sleep reaches
    [maxDelay + 1000]. *)
Theorem withRetry_sleep_schedule :
  (forall k, 0 <= random k /\ random k < 1) ->
  let run := withRetry operation random options in
  sleeps run
  = map (fun j => backoffDelay options (Z.of_nat j) + random j * 1000)
      (seq 0 (pred (calls run)))
  /\ Forall (fun delay => delay < maxDelay options + 1000) (sleeps run).
Proof.
  intros Hrandom run.
  assert (Hrun : sleeps run
    = map (fun j => backoffDelay options (Z.of_nat j) + random j * 1000)
        (seq 0 (pred (calls run)))).
  { destruct (Z_le_gt_dec 0 (maxRetries options + 1)) as [Hmax | Hmax].
    - destruct (retryLoop_sleeps (Z.to_nat (maxRetries options + 1)) None 0%nat []
                  ltac:(lia)) as [_ Hsl].
      simpl in Hsl. rewrite Nat.sub_0_r in Hsl. exact Hsl.
    - subst run. unfold withRetry.
      replace (Z.to_nat (maxRetries options + 1)) with 0%nat by lia.
      reflexivity. }
  split; [exact Hrun |]. rewrite Hrun. apply List.Forall_forall.
  intros delay Hin. apply in_map_iff in Hin as (j & <- & _).
  destruct (Hrandom j) as [_ Hlt].
  assert (Hcap : backoffDelay options (Z.of_nat j) <= maxDelay options)
    by apply Q.le_min_r.
  lra.
Qed.

End RetryRuns.

Section RetryWitnesses.
Import Utils MoreSamples.

(** Two timeouts, then an answer: three invocations, two sleeps. *)
Lemma withRetry_first_success_witness :
  withRetry flaky half defaultRetryOptions
  = {| settled := Fulfilled 7%Z; calls := 3;
       sleeps := map (fun j => backoffDelay defaultRetryOptions (Z.of_nat j)
                               + half j * 1000) (seq 0 2) |}.
Proof.
  apply (withRetry_first_success flaky half defaultRetryOptions 2 7%Z).
  - intros j Hj. exists RetryableError.
    destruct j as [| [| j]]; [split; reflexivity | split; reflexivity | lia].
  - reflexivity.
  - simpl. lia.
Defined.

(** An upstream that stays down is asked four times. *)
Lemma withRetry_exhausts_witness :
  withRetry down half defaultRetryOptions
  = {| settled := Threw (Some (ApiError (Some 503%Z))); calls := 4;
       sleeps := map (fun j => backoffDelay defaultRetryOptions (Z.of_nat j)
                               + half j * 1000) (seq 0 3) |}.
Proof.
  apply (withRetry_exhausts down half defaultRetryOptions (ApiError (Some 503%Z))).
  - simpl. lia.
  - intros j _. exists (ApiError (Some 503%Z)). split; reflexivity.
  - reflexivity.
Defined.

Lemma withRetry_sleep_schedule_witness :
  sleeps (withRetry down half defaultRetryOptions)
  = map (fun j => backoffDelay defaultRetryOptions (Z.of_nat j) + half j * 1000)
      (seq 0 (pred (calls (withRetry down half defaultRetryOptions))))
  /\ Forall (fun delay => delay < maxDelay defaultRetryOptions + 1000)
       (sleeps (withRetry down half defaultRetryOptions)).
Proof.
  apply (withRetry_sleep_schedule down half defaultRetryOptions).
  intros k. split; vm_compute; [discriminate | reflexivity].
Defined.

End RetryWitnesses.

Section BackoffFacts.
Import Utils.

Lemma Qpower_ge_1 (q : Q) (n : Z) : 1 <= q -> (0 <= n)%Z -> 1 <= q ^ n.
Proof.
  intros Hq Hn. revert n Hn. apply natlike_ind.
  - simpl. lra.
  - intros n Hn IH. unfold Z.succ.
    rewrite Qpower_plus by lra.
    assert (Hone : q ^ 1 == q) by (simpl; unfold Qpower_positive; simpl; lra).
    rewrite Hone. nra.
Qed.

(** X4: with a base delay that is not negative and a multiplier of at
    least one, the delay before the jitter never decreases from one
    attempt to the next and never exceeds [maxDelay]. *)
Theorem backoffDelay_monotone (options : RetryOptions) (i j : Z) :
  0 <= baseDelay options ->
  1 <= backoffMultiplier options ->
  (0 <= i <= j)%Z ->
  backoffDelay options i <= backoffDelay options j
  /\ backoffDelay options j <= maxDelay options.
Proof.
  intros Hbase Hmult [Hi Hij]. split; [| apply Q.le_min_r].
  unfold backoffDelay. apply Q.min_le_compat_r.
  replace j with (i + (j - i))%Z by lia.
  rewrite Qpower_plus by lra.
  pose proof (Qpower_ge_1 (backoffMultiplier options) (j - i) Hmult ltac:(lia)) as Hstep.
  pose proof (Qpower_ge_1 (backoffMultiplier options) i Hmult Hi) as Hpos.
  set (a := backoffMultiplier options ^ i) in *.
  set (b := backoffMultiplier options ^ (j - i)) in *.
  set (c := baseDelay options) in *.
  assert (Hca : 0 <= c * a) by (apply Qmult_le_0_compat; lra).
  rewrite Qmult_assoc.
  apply Qle_trans with (c * a * 1); [rewrite Qmult_1_r; apply Qle_refl |].
  apply Qmult_le_compat_nonneg; split; lra.
Qed.

(** The default options: one second, then two, then four. *)
Lemma backoffDelay_monotone_witness :
  backoffDelay defaultRetryOptions 1 <= backoffDelay defaultRetryOptions 2
  /\ backoffDelay defaultRetryOptions 2 <= maxDelay defaultRetryOptions.
Proof.
  apply (backoffDelay_monotone defaultRetryOptions 1 2).
  - vm_compute. discriminate.
  - vm_compute. discriminate.
  - lia.
Defined.

End BackoffFacts.

(* ===================================================================== *)
(** * The shape of the idempotency key *)
(* ===================================================================== *)

Section EventIdFacts.
Import Utils Helpers Samples.

(** A property of characters that holds for the 256 of them. *)
Lemma ascii_forall (p : ascii -> bool) :
  forallb (fun n => p (ascii_of_nat n)) (seq 0 256) = true ->
  forall c, p c = true.
Proof.
  intros Hall c. rewrite <- (ascii_nat_embedding c).
  rewrite forallb_forall in Hall. apply Hall. apply in_seq.
  pose proof (nat_ascii_bounded c). lia.
Qed.

Lemma ascii_forall2 (p : ascii -> ascii -> bool) :
  forallb (fun n => forallb (fun m => p (ascii_of_nat n) (ascii_of_nat m)) (seq 0 256))
    (seq 0 256) = true ->
  forall a b, p a b = true.
Proof.
  intros Hall a b.
  apply (ascii_forall (fun b => p a b)).
  apply (ascii_forall
           (fun a => forallb (fun m => p a (ascii_of_nat m)) (seq 0 256)) Hall a).
Qed.

Lemma is_hex_alnum (c : ascii) : is_hex c = true -> is_alnum c = true.
Proof.
  intros Hc.
  pose proof (ascii_forall (fun c => implb (is_hex c) (is_alnum c))
                ltac:(vm_compute; reflexivity) c) as Himp.
  cbv beta in Himp. by rewrite Hc in Himp.
Qed.

(** Three alphanumeric characters give four alphanumeric characters:
    neither [+] nor [/] can come out of them. *)
Lemma sextets_alnum (a b c : ascii) :
  is_alnum a = true -> is_alnum b = true -> is_alnum c = true ->
  forallb is_alnum (sextets a b c) = true.
Proof.
  intros Ha Hb Hc. unfold sextets. cbn [forallb].
  pose proof (ascii_forall
    (fun a => implb (is_alnum a) (is_alnum (b64char (N.shiftr (N_of_ascii a) 2))))
    ltac:(vm_compute; reflexivity) a) as H1.
  pose proof (ascii_forall2
    (fun a b => implb (is_alnum a && is_alnum b)
       (is_alnum (b64char (N.lor (N.shiftl (N.land (N_of_ascii a) 3) 4)
                             (N.shiftr (N_of_ascii b) 4)))))
    ltac:(vm_compute; reflexivity) a b) as H2.
  pose proof (ascii_forall2
    (fun b c => implb (is_alnum b && is_alnum c)
       (is_alnum (b64char (N.lor (N.shiftl (N.land (N_of_ascii b) 15) 2)
                             (N.shiftr (N_of_ascii c) 6)))))
    ltac:(vm_compute; reflexivity) b c) as H3.
  pose proof (ascii_forall
    (fun c => implb (is_alnum c) (is_alnum (b64char (N.land (N_of_ascii c) 63))))
    ltac:(vm_compute; reflexivity) c) as H4.
  cbv beta in H1, H2, H3, H4.
  rewrite Ha in H1. rewrite Ha, Hb in H2. rewrite Hb, Hc in H3. rewrite Hc in H4.
  cbn [implb andb] in H1, H2, H3, H4.
  by rewrite H1, H2, H3, H4.
Qed.

Lemma btoa_group (a b c : ascii) (s : string) :
  btoa (String a (String b (String c s)))
  = match sextets a b c with
    | [s1; s2; s3; s4] => String s1 (String s2 (String s3 (String s4 (btoa s))))
    | _ => EmptyString
    end.
Proof. reflexivity. Qed.

Lemma substring0_S (n : nat) (c : ascii) (s : string) :
  substring0 (S n) (String c s) = String c (substring0 n s).
Proof. reflexivity. Qed.

Lemma substring0_0 (s : string) : substring0 0 s = EmptyString.
Proof. by destruct s. Qed.

(** While the data starts with groups of alphanumeric characters, the
    key is the encoding of these groups alone. *)
Lemma strip_groups (k : nat) (s : string) :
  groups_alnum k s = true ->
  substring0 (4 * k) (strip_non_alnum (btoa s)) = btoa (take_groups k s).
Proof.
  revert s. induction k as [| k IH]; intros s Hs.
  - simpl. by rewrite substring0_0.
  - destruct s as [| a [| b [| c s]]]; try discriminate.
    cbn [groups_alnum] in Hs.
    apply andb_prop in Hs as [Hs Hrest]. apply andb_prop in Hs as [Hs Hc].
    apply andb_prop in Hs as [Ha Hb].
    pose proof (sextets_alnum a b c Ha Hb Hc) as Hsex.
    cbn [take_groups]. rewrite !btoa_group.
    unfold sextets in *. cbn [forallb] in Hsex.
    apply andb_prop in Hsex as [H1 Hsex]. apply andb_prop in Hsex as [H2 Hsex].
    apply andb_prop in Hsex as [H3 Hsex]. apply andb_prop in Hsex as [H4 _].
    cbn [strip_non_alnum]. rewrite H1, H2, H3, H4.
    replace (4 * S k)%nat with (S (S (S (S (4 * k))))) by lia.
    rewrite !substring0_S. by rewrite IH.
Qed.

Lemma append_String (c : ascii) (w s : string) :
  String c w ++ s = String c (w ++ s).
Proof. reflexivity. Qed.

Lemma groups_alnum_app (k : nat) (w s : string) :
  all_alnum w = true -> (3 * k <= String.length w)%nat ->
  groups_alnum k (w ++ s) = true /\ take_groups k (w ++ s) = substring0 (3 * k) w.
Proof.
  revert w. induction k as [| k IH]; intros w Hw Hlen.
  - simpl. by rewrite substring0_0.
  - destruct w as [| a [| b [| c w]]]; simpl in Hlen; try lia.
    cbn [all_alnum] in Hw.
    apply andb_prop in Hw as [Ha Hw]. apply andb_prop in Hw as [Hb Hw].
    apply andb_prop in Hw as [Hc Hw].
    destruct (IH w Hw ltac:(lia)) as [Hg Ht].
    rewrite !append_String. cbn [groups_alnum take_groups].
    rewrite Ha, Hb, Hc, Hg, Ht.
    replace (3 * S k)%nat with (S (S (S (3 * k)))) by lia.
    by rewrite !substring0_S.
Qed.

Lemma hex_digits_alnum (n : nat) (s : string) :
  hex_digits n s = true -> all_alnum s = true /\ String.length s = n.
Proof.
  revert s. induction n as [| n IH]; intros [| c s] Hs; try discriminate.
  - done.
  - simpl in Hs. apply andb_prop in Hs as [Hc Hs].
    destruct (IH s Hs) as [Hall Hlen]. simpl.
    by rewrite (is_hex_alnum c Hc), Hall, Hlen.
Qed.

Lemma isValidWalletAddress_alnum (address : string) :
  isValidWalletAddress address = true ->
  all_alnum address = true /\ String.length address = 42%nat.
Proof.
  unfold isValidWalletAddress.
  destruct address as [| c0 [| c1 digits]]; try discriminate.
  - by destruct c0 as [[] [] [] [] [] [] [] []].
  - intros Hvalid.
    assert (Hhex : hex_digits 40 digits = true /\ c0 = "0"%char /\ c1 = "x"%char).
    { destruct c0 as [[] [] [] [] [] [] [] []]; try discriminate.
      destruct c1 as [[] [] [] [] [] [] [] []]; try discriminate. done. }
    destruct Hhex as (Hhex & -> & ->).
    destruct (hex_digits_alnum 40 digits Hhex) as [Hall Hlen].
    cbn [all_alnum String.length]. rewrite Hall, Hlen. done.
Qed.

Lemma all_alnum_strip (s : string) : all_alnum (strip_non_alnum s) = true.
Proof.
  induction s as [| c s IH]; [done |]. simpl.
  destruct (is_alnum c) eqn:Hc; [| done]. simpl. by rewrite Hc.
Qed.

Lemma all_alnum_substring0 (n : nat) (s : string) :
  all_alnum s = true -> all_alnum (substring0 n s) = true.
Proof.
  revert s. induction n as [| n IH]; intros s Hs.
  - by rewrite substring0_0.
  - destruct s as [| c s]; [done |]. rewrite substring0_S.
    simpl in *. apply andb_prop in Hs as [Hc Hs]. by rewrite Hc, IH.
Qed.

Lemma length_substring0 (n : nat) (s : string) :
  (String.length (substring0 n s) <= n)%nat.
Proof.
  revert s. induction n as [| n IH]; intros s.
  - by rewrite substring0_0.
  - destruct s as [| c s]; [simpl; lia |]. rewrite substring0_S. simpl.
    specialize (IH s). lia.
Qed.

(** X5: whatever the wallet address, the pair, the time and the
    direction are, the key has at most 32 characters and all of them
    are in [[a-zA-Z0-9]]. *)
Theorem generateEventId_shape (walletAddress p : string) (timestamp : Z)
    (direction : string) :
  (String.length (generateEventId walletAddress p timestamp direction) <= 32)%nat
  /\ all_alnum (generateEventId walletAddress p timestamp direction) = true.
Proof.
  unfold generateEventId. split.
  - apply length_substring0.
  - apply all_alnum_substring0, all_alnum_strip.
Qed.

(** The key of a well-formed wallet address is the encoding of the
    first 24 characters of the address. *)
Lemma generateEventId_wallet_prefix (walletAddress p : string) (timestamp : Z)
    (direction : string) :
  isValidWalletAddress walletAddress = true ->
  generateEventId walletAddress p timestamp direction
  = btoa (substring0 24 walletAddress).
Proof.
  intros Hvalid. unfold generateEventId. cbv zeta.
  destruct (isValidWalletAddress_alnum walletAddress Hvalid) as [Hall Hlen].
  destruct (groups_alnum_app 8 walletAddress
              ("-" ++ p ++ "-" ++ direction ++ "-" ++ string_of_Z (timestamp / 60000))
              Hall ltac:(lia)) as [Hg Ht].
  change 32%nat with (4 * 8)%nat. rewrite (strip_groups 8 _ Hg), Ht. reflexivity.
Qed.

(** X6: for a wallet address that [isValidWalletAddress] accepts, the
    32 characters that [generateEventId] keeps encode only the first 24
    characters of the address: the key is the same for every pair,
    direction and time. *)
Theorem generateEventId_valid_wallet (walletAddress : string) :
  isValidWalletAddress walletAddress = true ->
  forall p timestamp direction p' timestamp' direction',
    generateEventId walletAddress p timestamp direction
    = btoa (substring0 24 walletAddress)
    /\ generateEventId walletAddress p timestamp direction
       = generateEventId walletAddress p' timestamp' direction'.
Proof.
  intros Hvalid p timestamp direction p' timestamp' direction'.
  rewrite !(generateEventId_wallet_prefix walletAddress) by done. done.
Qed.

(** An ETH long and a BTC short of the sample wallet, a day apart. *)
Lemma generateEventId_valid_wallet_witness :
  generateEventId wallet "ETH" 1700000030000 "LONG" = btoa (substring0 24 wallet)
  /\ generateEventId wallet "ETH" 1700000030000 "LONG"
     = generateEventId wallet "BTC" 1700086430000 "SHORT".
Proof.
  apply (generateEventId_valid_wallet wallet).
  vm_compute. reflexivity.
Defined.

End EventIdFacts.

(* ===================================================================== *)
(** * [batchArray] *)
(* ===================================================================== *)

Section BatchFacts.
Import Helpers.
Context {T : Type}.
Variable array : list T.
Variable batchSize : Z.

Lemma slice_inside (i : Z) :
  (0 <= i < Z.of_nat (length array))%Z -> (1 <= batchSize)%Z ->
  slice array i (i + batchSize)
  = take (Z.to_nat (Z.min batchSize (Z.of_nat (length array) - i)))
      (drop (Z.to_nat i) array).
Proof.
  intros Hi Hsize. unfold slice.
  destruct (Z.ltb_spec i 0) as [Hneg | _]; [lia |].
  destruct (Z.ltb_spec (i + batchSize) 0) as [Hneg | _]; [lia |].
  f_equal; [| f_equal]; lia.
Qed.

Lemma batchLoop_partition (fuel : nat) (i : Z) (batches : list (list T)) :
  (1 <= batchSize)%Z -> (0 <= i)%Z ->
  (Z.of_nat (length array) - i <= Z.of_nat fuel)%Z ->
  exists rest,
    batchLoop array batchSize fuel i batches = Some (batches ++ rest)%list
    /\ concat rest = drop (Z.to_nat i) array
    /\ Forall (fun batch => (1 <= Z.of_nat (length batch) <= batchSize)%Z) rest
    /\ Forall (fun batch => Z.of_nat (length batch) = batchSize) (removelast rest).
Proof.
  intros Hsize. revert i batches.
  induction fuel as [| fuel IH]; intros i batches Hi Hfuel.
  - exists []. simpl. destruct (Z.ltb_spec i (Z.of_nat (length array))); [lia |].
    rewrite app_nil_r, drop_ge by lia. repeat split; constructor.
  - simpl. destruct (Z.ltb_spec i (Z.of_nat (length array))) as [Hlt | Hge].
    + destruct (IH (i + batchSize)%Z
                  (batches ++ [slice array i (i + batchSize)])%list
                  ltac:(lia) ltac:(lia)) as (rest & Hrun & Hcat & Hlen & Hfull).
      exists (slice array i (i + batchSize) :: rest).
      rewrite Hrun, <- app_assoc. split; [done |].
      rewrite slice_inside in * by lia.
      set (m := Z.min batchSize (Z.of_nat (length array) - i)) in *.
      assert (Hm : length (take (Z.to_nat m) (drop (Z.to_nat i) array))
                   = Z.to_nat m).
      { rewrite length_take, length_drop. lia. }
      split; [| split].
      * simpl. rewrite Hcat.
        destruct (Z.le_gt_cases batchSize (Z.of_nat (length array) - i)) as [Hin | Hout].
        -- replace (Z.to_nat (i + batchSize)) with (Z.to_nat i + Z.to_nat m)%nat by lia.
           rewrite <- drop_drop. apply take_drop.
        -- rewrite (drop_ge array (Z.to_nat (i + batchSize))) by lia.
           rewrite app_nil_r. apply take_ge. rewrite length_drop. lia.
      * constructor; [rewrite Hm; lia | done].
      * destruct rest as [| next rest]; [constructor |].
        change (removelast (?x :: next :: rest)) with (x :: removelast (next :: rest)).
        constructor; [| done].
        rewrite Hm.
        destruct (Z.le_gt_cases batchSize (Z.of_nat (length array) - i)) as [Hin | Hout];
          [lia |].
        rewrite drop_ge in Hcat by lia. simpl in Hcat.
        apply Forall_inv in Hlen. apply app_eq_nil in Hcat as [-> _].
        simpl in Hlen. lia.
    + exists []. rewrite app_nil_r, drop_ge by lia. repeat split; constructor.
Qed.

(** X7: with a batch size of at least one, [batchArray] returns (after
    at most one iteration per element) batches whose concatenation is
    the array; no batch is empty or longer than the batch size, and
    every batch but the last has exactly the batch size. *)
Theorem batchArray_partition (fuel : nat) :
  (1 <= batchSize)%Z -> (length array <= fuel)%nat ->
  exists batches,
    batchArray array batchSize fuel = Some batches
    /\ concat batches = array
    /\ Forall (fun batch => (1 <= Z.of_nat (length batch) <= batchSize)%Z) batches
    /\ Forall (fun batch => Z.of_nat (length batch) = batchSize) (removelast batches).
Proof.
  intros Hsize Hfuel.
  destruct (batchLoop_partition fuel 0 [] Hsize ltac:(lia) ltac:(lia))
    as (rest & Hrun & Hcat & Hlen & Hfull).
  exists rest. by rewrite drop_0 in Hcat.
Qed.

Lemma batchLoop_stuck (fuel : nat) (i : Z) (batches : list (list T)) :
  (batchSize <= 0)%Z -> (i <= 0)%Z -> array <> [] ->
  batchLoop array batchSize fuel i batches = None.
Proof.
  intros Hsize Hi Hne. revert i batches Hi.
  assert (Hlen : (0 < Z.of_nat (length array))%Z)
    by (destruct array; [done | simpl; lia]).
  induction fuel as [| fuel IH]; intros i batches Hi; simpl;
    destruct (Z.ltb_spec i (Z.of_nat (length array))); try lia; [done |].
  apply IH. lia.
Qed.

(** X8: with a batch size of zero or less and an array that is not
    empty, the index never reaches the length of the array: the loop of
    [batchArray] is still running after any number of iterations. *)
Theorem batchArray_never_returns (fuel : nat) :
  (batchSize <= 0)%Z -> array <> [] ->
  batchArray array batchSize fuel = None.
Proof. intros Hsize Hne. by apply batchLoop_stuck. Qed.

End BatchFacts.

Section BatchWitnesses.
Import Helpers.

(** Five elements in batches of two. *)
Lemma batchArray_partition_witness :
  exists batches,
    batchArray [1; 2; 3; 4; 5]%Z 2 5 = Some batches
    /\ concat batches = [1; 2; 3; 4; 5]%Z
    /\ Forall (fun batch => (1 <= Z.of_nat (length batch) <= 2)%Z) batches
    /\ Forall (fun batch => Z.of_nat (length batch) = 2%Z) (removelast batches).
Proof.
  apply (batchArray_partition [1; 2; 3; 4; 5]%Z 2 5); simpl; lia.
Defined.

Lemma batchArray_never_returns_witness :
  batchArray [1; 2; 3]%Z 0 1000 = None.
Proof.
  apply (batchArray_never_returns [1; 2; 3]%Z 0 1000); [lia | discriminate].
Defined.

End BatchWitnesses.

(* ===================================================================== *)
(** * [RateLimiter] *)
(* ===================================================================== *)

Section RateLimiterFacts.
Import RateLimiter.

Lemma fold_left_min (rest : list Z) (first : Z) :
  let oldest := fold_left Z.min rest first in
  In oldest (first :: rest) /\ forall time, In time (first :: rest) -> (oldest <= time)%Z.
Proof.
  revert first. induction rest as [| next rest IH]; intros first; cbv zeta.
  - simpl. split; [by left |]. intros time [<- | []]. lia.
  - simpl. destruct (IH (Z.min first next)) as [Hin Hmin]. split.
    + destruct Hin as [Heq | Hin]; [| by right; right].
      rewrite <- Heq. destruct (Z.min_spec first next) as [[_ ->] | [_ ->]]; auto.
    + intros time [<- | [<- | Hrest]].
      * specialize (Hmin (Z.min first next) ltac:(by left)). lia.
      * specialize (Hmin (Z.min first next) ltac:(by left)). lia.
      * apply Hmin. by right.
Qed.

Lemma Math_min_oldest (requests : list Z) :
  match Math_min requests with
  | Some oldest => In oldest requests
  | None => requests = []
  end.
Proof.
  destruct requests as [| first rest]; [done |]. simpl.
  apply (fold_left_min rest first).
Qed.

Variable maxRequests : Z.
Variable windowMs : Z.
Variable wake : Z -> option Z -> Z.

(** A full window makes the caller wait. *)
Lemma full_window_waits (now : Z) (requests : list Z) :
  match Math_min (in_window windowMs now requests) with
  | Some oldest =>
      In oldest requests /\ (now - oldest < windowMs)%Z
      /\ (0 <? windowMs - (now - oldest) + 100)%Z = true
  | None => in_window windowMs now requests = []
  end.
Proof.
  pose proof (Math_min_oldest (in_window windowMs now requests)) as Hmin.
  destruct (Math_min (in_window windowMs now requests)) as [oldest |]; [| done].
  apply filter_In in Hmin as [Hin Hfresh]. apply Z.ltb_lt in Hfresh.
  repeat split; trivial. apply Z.ltb_lt. lia.
Qed.

Lemma in_window_later (now later : Z) (requests : list Z) :
  (now <= later)%Z ->
  in_window windowMs later (in_window windowMs now requests)
  = in_window windowMs later requests.
Proof.
  intros Hlater. unfold in_window.
  induction requests as [| time requests IH]; [done |]. simpl.
  destruct (Z.ltb_spec (now - time) windowMs) as [Hin | Hout]; simpl.
  - by rewrite IH.
  - destruct (Z.ltb_spec (later - time) windowMs); [lia | done].
Qed.

Lemma in_window_expired (later oldest : Z) (requests : list Z) :
  In oldest requests -> (windowMs <= later - oldest)%Z ->
  (length (in_window windowMs later requests) < length requests)%nat.
Proof.
  intros Hin Hold. unfold in_window.
  induction requests as [| time requests IH]; [destruct Hin |].
  pose proof (List.filter_length_le (fun time => (later - time <? windowMs)%Z) requests)
    as Hle.
  simpl. destruct Hin as [-> | Hin].
  - destruct (Z.ltb_spec (later - oldest) windowMs); [lia |]. simpl. lia.
  - specialize (IH Hin). destruct (later - time <? windowMs)%Z; simpl; lia.
Qed.

(** X9: with room for at least one request, one caller at a time and a
    timer that does not fire early, [waitForSlot] returns after at most
    one sleep: at once when fewer than [maxRequests] recorded requests
    are younger than the window, and otherwise when the oldest of them
    has left the window.  The requests it leaves recorded are those of
    the window at the time of the grant followed by the grant itself,
    and they are at most [maxRequests]. *)
Theorem waitForSlot_grants (now : Z) (requests : list Z) :
  (1 <= maxRequests)%Z ->
  (Z.of_nat (length requests) <= maxRequests)%Z ->
  (forall t waitTime, (t + waitTime <= wake t (Some waitTime))%Z) ->
  exists granted,
    waitForSlot maxRequests windowMs wake 1 now requests
    = Some (granted,
            (List.filter (fun time => (granted - time <? windowMs)%Z) requests
             ++ [granted])%list)
    /\ (Z.of_nat (length
          (List.filter (fun time => (granted - time <? windowMs)%Z) requests
           ++ [granted])%list) <= maxRequests)%Z
    /\ (if (maxRequests
            <=? Z.of_nat (length
                  (List.filter (fun time => (now - time <? windowMs)%Z) requests)))%Z
        then (now + 100 < granted)%Z else granted = now).
Proof.
  intros Hmax Hlen Hwake.
  pose proof (List.filter_length_le (fun time => (now - time <? windowMs)%Z) requests)
    as Hle.
  fold (in_window windowMs now requests) in *. cbn [waitForSlot].
  destruct (Z.leb_spec maxRequests (Z.of_nat (length (in_window windowMs now requests))))
    as [Hfull | Hroom].
  - pose proof (full_window_waits now requests) as Holdest.
    destruct (Math_min (in_window windowMs now requests)) as [oldest |].
    + destruct Holdest as (Hin & Hfresh & ->).
      set (waitTime := (windowMs - (now - oldest) + 100)%Z).
      set (later := wake now (Some waitTime)).
      assert (Hlater : (now + waitTime <= later)%Z) by apply Hwake.
      rewrite in_window_later by lia.
      pose proof (in_window_expired later oldest requests Hin ltac:(lia)) as Hgone.
      destruct (Z.leb_spec maxRequests (Z.of_nat (length (in_window windowMs later requests))));
        [lia |].
      exists later. split; [done |]. split; [| lia].
      unfold in_window in *. rewrite length_app. simpl length. lia.
    + rewrite Holdest in Hfull. simpl in Hfull. lia.
  - exists now. split; [done |]. split; [| done].
    unfold in_window in *. rewrite length_app. simpl length. lia.
Qed.

(** X10: a limiter made for no request at all never grants a slot:
    with [maxRequests <= 0] the caller is still sleeping after any
    number of sleeps, whatever the timer does. *)
Theorem waitForSlot_never_grants (fuel : nat) (now : Z) (requests : list Z) :
  (maxRequests <= 0)%Z ->
  waitForSlot maxRequests windowMs wake fuel now requests = None.
Proof.
  intros Hmax. revert now requests.
  induction fuel as [| fuel IH]; intros now requests; cbn [waitForSlot];
    (destruct (Z.leb_spec maxRequests (Z.of_nat (length (in_window windowMs now requests))));
       [| lia]);
    pose proof (full_window_waits now requests) as Holdest;
    destruct (Math_min (in_window windowMs now requests)) as [oldest |];
    try (destruct Holdest as (_ & _ & ->)); try done; apply IH.
Qed.

End RateLimiterFacts.

Section RateLimiterWitnesses.
Import RateLimiter MoreSamples.

(** Two requests a second: the third caller waits until the first
    request is 1100 ms old. *)
Lemma waitForSlot_grants_witness :
  exists granted,
    waitForSlot 2 1000 punctual 1 1500 [1000; 1200]%Z
    = Some (granted,
            (List.filter (fun time => (granted - time <? 1000)%Z) [1000; 1200]%Z
             ++ [granted])%list)
    /\ (Z.of_nat (length
          (List.filter (fun time => (granted - time <? 1000)%Z) [1000; 1200]%Z
           ++ [granted])%list) <= 2)%Z
    /\ (if (2 <=? Z.of_nat (length
                  (List.filter (fun time => (1500 - time <? 1000)%Z)
                     [1000; 1200]%Z)))%Z
        then (1500 + 100 < granted)%Z else granted = 1500%Z).
Proof.
  apply (waitForSlot_grants 2 1000 punctual 1500 [1000; 1200]%Z).
  - lia.
  - simpl. lia.
  - intros t waitTime. simpl. lia.
Defined.

Lemma waitForSlot_never_grants_witness :
  waitForSlot 0 1000 punctual 50 1500 [] = None.
Proof. apply (waitForSlot_never_grants 0 1000 punctual 50 1500 []). lia. Defined.

End RateLimiterWitnesses.

(* ===================================================================== *)
(** * [createCircuitBreaker] *)
(* ===================================================================== *)

Section CircuitBreakerFacts.
Import Utils CircuitBreaker.
Context {T : Type}.
Variable failureThreshold : Z.
Variable resetTimeoutMs : Z.

Lemma execute_consistent (now : Z) (operation : Attempt T) (b : Breaker) :
  (1 <= failureThreshold)%Z ->
  breaker_consistent failureThreshold b ->
  breaker_consistent failureThreshold
    (execute failureThreshold resetTimeoutMs now operation b).2.
Proof.
  intros Hthreshold [Hrange Hopen]. unfold execute, breaker_consistent.
  destruct b as [f last st].
  cbn [failures state lastFailureTime] in *.
  assert (Hst : (st = OPEN /\ f = failureThreshold)
                \/ (st <> OPEN /\ f < failureThreshold)%Z).
  { destruct st; [right; split; [done |] | left; split; [done | by apply Hopen]
                 | right; split; [done |]].
    all: assert (f <> failureThreshold) by (intros Hf; by apply Hopen in Hf); lia. }
  clear Hopen.
  destruct Hst as [[-> Hf] | [Hst Hf]].
  - cbn [is_open andb].
    destruct (Z.ltb_spec resetTimeoutMs (now - last));
      cbn [failures state lastFailureTime is_open is_half_open snd].
    + destruct operation as [v | e];
        cbn [failures state lastFailureTime is_open is_half_open snd].
      * split; [lia |]. split; [done | lia].
      * destruct (Z.leb_spec failureThreshold (0 + 1)).
        -- split; [lia |]. split; [lia | done].
        -- split; [lia |]. split; [done | lia].
    + split; [lia |]. split; [lia | done].
  - assert (Hclosed : is_open st = false) by (by destruct st).
    rewrite Hclosed. cbn [andb]. cbn [failures state lastFailureTime]. rewrite Hclosed.
    destruct operation as [v | e]; cbn [snd].
    + destruct (is_half_open st); cbn [failures state].
      * split; [lia |]. split; [done | lia].
      * split; [lia |]. split; [done | lia].
    + cbn [failures state].
      destruct (Z.leb_spec failureThreshold (f + 1)).
      * split; [lia |]. split; [lia | done].
      * split; [lia |]. split; [done | lia].
Qed.

(** X11: with a threshold of at least one, whatever calls are made of a
    new breaker and whenever they are made, the count of failures stays
    between zero and the threshold, and the breaker is OPEN exactly
    when the count is at the threshold. *)
Theorem executions_consistent (calls : list (Z * Attempt T)) :
  (1 <= failureThreshold)%Z ->
  let b := executions failureThreshold resetTimeoutMs calls created in
  (0 <= failures b <= failureThreshold)%Z
  /\ (state b = OPEN <-> failures b = failureThreshold).
Proof.
  intros Hthreshold.
  assert (Hstart : breaker_consistent failureThreshold created).
  { split; simpl; [lia |]. split; [done | lia]. }
  revert Hstart. generalize created. unfold executions.
  induction calls as [| call calls IH]; intros b Hb; [exact Hb |].
  simpl. apply IH. by apply execute_consistent.
Qed.

Lemma executions_closed (calls : list (Z * Attempt T)) (b : Breaker) :
  state b = CLOSED ->
  (failures b + Z.of_nat (length (List.filter rejected calls)) < failureThreshold)%Z ->
  let b' := executions failureThreshold resetTimeoutMs calls b in
  state b' = CLOSED
  /\ failures b' = (failures b + Z.of_nat (length (List.filter rejected calls)))%Z.
Proof.
  revert b. unfold executions.
  induction calls as [| [now operation] calls IH]; intros b Hclosed Hcount.
  - simpl. split; [done | lia].
  - destruct b as [f last st]. cbn [state failures] in *. subst st.
    destruct operation as [v | e];
      cbn [fold_left List.filter rejected snd fst length] in Hcount |- *.
    + apply (IH {| failures := f; lastFailureTime := last; state := CLOSED |});
        [done | exact Hcount].
    + assert (Hstep :
        (execute (T:=T) failureThreshold resetTimeoutMs now (Rejected e)
           {| failures := f; lastFailureTime := last; state := CLOSED |}).2
        = {| failures := f + 1; lastFailureTime := now; state := CLOSED |}).
      { unfold execute. cbn [state failures is_open andb snd].
        destruct (Z.leb_spec failureThreshold (f + 1)); [lia | done]. }
      rewrite Hstep.
      destruct (IH {| failures := f + 1; lastFailureTime := now; state := CLOSED |}
                  eq_refl) as [Hst Hf]; [cbn [failures]; lia |].
      split; [exact Hst |]. rewrite Hf. cbn [failures]. lia.
Qed.

(** X12: successes do not clear the count of a closed breaker: when
    the calls made of a new breaker hold one failure less than the
    threshold, in any order with any number of successes between them,
    the next failure opens the breaker. *)
Theorem executions_failures_accumulate (calls : list (Z * Attempt T)) (now : Z)
    (e : Error) :
  Z.of_nat (length (List.filter rejected calls)) = (failureThreshold - 1)%Z ->
  executions failureThreshold resetTimeoutMs (calls ++ [(now, Rejected e)])%list created
  = {| failures := failureThreshold; lastFailureTime := now; state := OPEN |}.
Proof.
  intros Hcount. unfold executions. rewrite fold_left_app. simpl.
  destruct (executions_closed calls created eq_refl) as [Hst Hf]; [simpl; lia |].
  unfold executions in Hst, Hf. simpl in Hf.
  destruct (fold_left _ calls created) as [f last st]. simpl in *. subst st f.
  unfold execute. simpl.
  replace (0 + Z.of_nat (length (List.filter rejected calls)) + 1)%Z
    with failureThreshold by lia.
  by rewrite Z.leb_refl.
Qed.

(** X13: while the breaker is OPEN and the reset timeout has not passed
    since the last failure, every call is refused before its operation
    is invoked, and the breaker stays as it is. *)
Theorem executions_refused (calls : list (Z * Attempt T)) (b : Breaker) :
  state b = OPEN ->
  Forall (fun call : Z * Attempt T =>
            (call.1 - lastFailureTime b <= resetTimeoutMs)%Z) calls ->
  executions failureThreshold resetTimeoutMs calls b = b
  /\ settlements failureThreshold resetTimeoutMs calls b = map (fun _ => Refused) calls.
Proof.
  intros Hopen Hearly. unfold executions.
  induction Hearly as [| [now operation] calls Hnow Hearly IH]; [done |].
  cbn [fold_left settlements map]. cbn [fst snd] in *.
  assert (Hstep : execute failureThreshold resetTimeoutMs now operation b = (Refused, b)).
  { unfold execute. rewrite Hopen. simpl.
    destruct (Z.ltb_spec resetTimeoutMs (now - lastFailureTime b)); [lia |].
    by rewrite Hopen. }
  rewrite Hstep. simpl. destruct IH as [-> ->]. done.
Qed.

(** X14: a probe that fails does not open the breaker again unless the
    threshold is one: after the reset timeout a failing call leaves the
    breaker HALF_OPEN with one failure counted, and the next call is
    let through whenever it is made. *)
Theorem execute_failed_probe (now : Z) (e : Error) (b : Breaker) :
  state b = OPEN ->
  (resetTimeoutMs < now - lastFailureTime b)%Z ->
  (1 < failureThreshold)%Z ->
  let b' := (execute (T:=T) failureThreshold resetTimeoutMs now (Rejected e) b).2 in
  b' = {| failures := 1; lastFailureTime := now; state := HALF_OPEN |}
  /\ forall (now' : Z) (operation : Attempt T),
       (execute failureThreshold resetTimeoutMs now' operation b').1
       = match operation with
         | Resolved v => Passed v
         | Rejected e' => Failed e'
         end.
Proof.
  intros Hopen Hreset Hthreshold. cbv zeta.
  assert (Hprobe : (execute (T:=T) failureThreshold resetTimeoutMs now (Rejected e) b).2
                   = {| failures := 1; lastFailureTime := now; state := HALF_OPEN |}).
  { unfold execute. rewrite Hopen. simpl.
    destruct (Z.ltb_spec resetTimeoutMs (now - lastFailureTime b)); [| lia].
    cbn [state failures lastFailureTime is_open snd].
    destruct (Z.leb_spec failureThreshold (0 + 1)); [lia | done]. }
  rewrite Hprobe. split; [done |].
  intros now' [v | e']; reflexivity.
Qed.

End CircuitBreakerFacts.

Section CircuitBreakerWitnesses.
Import Utils CircuitBreaker MoreSamples.

Lemma executions_consistent_witness :
  (0 <= failures (executions 3 60000 mixed_calls created) <= 3)%Z
  /\ (state (executions 3 60000 mixed_calls created) = OPEN
      <-> failures (executions 3 60000 mixed_calls created) = 3%Z).
Proof. apply (executions_consistent 3 60000 mixed_calls). lia. Defined.

(** Two failures with a success between them, then a third failure. *)
Lemma executions_failures_accumulate_witness :
  executions 3 60000 (mixed_calls ++ [(30%Z, Rejected OtherError)])%list created
  = {| failures := 3; lastFailureTime := 30; state := OPEN |}.
Proof.
  apply (executions_failures_accumulate 3 60000 mixed_calls 30 OtherError).
  reflexivity.
Defined.

(** Calls made 70 ms and one minute after the breaker opened. *)
Lemma executions_refused_witness :
  executions 3 60000 [(100%Z, Resolved 1%Z); (60030%Z, Resolved 2%Z)] opened = opened
  /\ settlements 3 60000 [(100%Z, Resolved 1%Z); (60030%Z, Resolved 2%Z)] opened
     = [Refused; Refused].
Proof.
  apply (executions_refused 3 60000 [(100%Z, Resolved 1%Z); (60030%Z, Resolved 2%Z)]
           opened).
  - reflexivity.
  - repeat constructor; simpl; lia.
Defined.

Lemma execute_failed_probe_witness :
  (execute (T:=Z) 3 60000 70000 (Rejected OtherError) opened).2
  = {| failures := 1; lastFailureTime := 70000; state := HALF_OPEN |}
  /\ forall (now' : Z) (operation : Attempt Z),
       (execute 3 60000 now' operation
          (execute (T:=Z) 3 60000 70000 (Rejected OtherError) opened).2).1
       = match operation with
         | Resolved v => Passed v
         | Rejected e' => Failed e'
         end.
Proof.
  apply (execute_failed_probe (T:=Z) 3 60000 70000 OtherError opened).
  - reflexivity.
  - simpl. lia.
  - lia.
Defined.

End CircuitBreakerWitnesses.

(* ===================================================================== *)
(** * [calculateMaxDrawdown] *)
(* ===================================================================== *)

Section DrawdownFacts.
Import Drawdown.

Lemma Qltb_false (x y : Q) : Qltb x y = false <-> y <= x.
Proof.
  unfold Qltb. rewrite negb_false_iff. apply Qle_bool_iff.
Qed.

(** The loop keeps the least of the starting value and the percentages
    of the price points. *)
Lemma lowest_percent (entryPrice : Q) (signalType : string)
    (priceHistory : list PricePoint) (start : Q) :
  let lowest :=
    fold_left
      (fun maxDrawdown pricePoint =>
         let current := currentPnLPercent entryPrice signalType pricePoint in
         if Qltb current maxDrawdown then current else maxDrawdown)
      priceHistory start in
  lowest <= start
  /\ (forall pricePoint, In pricePoint priceHistory ->
        lowest <= currentPnLPercent entryPrice signalType pricePoint)
  /\ (lowest = start
      \/ exists pricePoint, In pricePoint priceHistory
           /\ lowest = currentPnLPercent entryPrice signalType pricePoint).
Proof.
  revert start. induction priceHistory as [| point history IH]; intros start; cbv zeta.
  - simpl. split; [apply Qle_refl |]. split; [by intros ? [] | by left].
  - cbn [fold_left].
    set (current := currentPnLPercent entryPrice signalType point).
    destruct (Qltb current start) eqn:Hlt; cbv iota.
    + apply Qltb_true in Hlt.
      destruct (IH current) as (Hle & Hall & Hwhere). cbv zeta in Hle, Hall, Hwhere.
      split; [apply Qle_trans with current; [exact Hle | by apply Qlt_le_weak] |]. split.
      * intros pricePoint [<- | Hin]; [exact Hle | by apply Hall].
      * right. destruct Hwhere as [-> | (pricePoint & Hin & ->)].
        -- exists point. split; [by left | done].
        -- exists pricePoint. split; [by right | done].
    + apply Qltb_false in Hlt.
      destruct (IH start) as (Hle & Hall & Hwhere). cbv zeta in Hle, Hall, Hwhere.
      split; [exact Hle |]. split.
      * intros pricePoint [<- | Hin]; [| by apply Hall].
        apply Qle_trans with start; [exact Hle | exact Hlt].
      * destruct Hwhere as [-> | (pricePoint & Hin & ->)]; [by left |].
        right. exists pricePoint. split; [by right | done].
Qed.

(** X15: for an entry price other than zero, [calculateMaxDrawdown] is
    the largest move against the position among the price points, in
    percent of the entry price: it is never negative, no price point
    lost more, and it is zero or the loss of one of the price
    points. *)
Theorem calculateMaxDrawdown_largest_loss (entryPrice : Q)
    (priceHistory : list PricePoint) (signalType : string) :
  ~ entryPrice == 0 ->
  let drawdown := calculateMaxDrawdown entryPrice priceHistory signalType in
  0 <= drawdown
  /\ (forall pricePoint, In pricePoint priceHistory ->
        - currentPnLPercent entryPrice signalType pricePoint <= drawdown)
  /\ (drawdown == 0
      \/ exists pricePoint, In pricePoint priceHistory
           /\ drawdown == - currentPnLPercent entryPrice signalType pricePoint).
Proof.
  intros _. unfold calculateMaxDrawdown. cbv zeta.
  destruct (lowest_percent entryPrice signalType priceHistory 0)
    as (Hle & Hall & Hwhere).
  set (lowest := fold_left _ priceHistory 0) in *.
  assert (Habs : Qabs lowest == - lowest) by (by apply Qabs_neg).
  split; [apply Qabs_nonneg |]. split.
  - intros pricePoint Hin. specialize (Hall pricePoint Hin). rewrite Habs. lra.
  - destruct Hwhere as [Hzero | (pricePoint & Hin & Heq)].
    + left. rewrite Habs, Hzero. reflexivity.
    + right. exists pricePoint. split; [done |]. rewrite Habs, Heq. reflexivity.
Qed.

End DrawdownFacts.

Section DrawdownWitnesses.
Import Drawdown MoreSamples.

(** A long from 100 that dips to 98, rallies to 103 and dips to 95. *)
Lemma calculateMaxDrawdown_largest_loss_witness :
  0 <= calculateMaxDrawdown 100 dips "LONG"
  /\ (forall pricePoint, In pricePoint dips ->
        - currentPnLPercent 100 "LONG" pricePoint
        <= calculateMaxDrawdown 100 dips "LONG")
  /\ (calculateMaxDrawdown 100 dips "LONG" == 0
      \/ exists pricePoint, In pricePoint dips
           /\ calculateMaxDrawdown 100 dips "LONG"
              == - currentPnLPercent 100 "LONG" pricePoint).
Proof.
  apply (calculateMaxDrawdown_largest_loss 100 dips "LONG").
  vm_compute. discriminate.
Defined.

End DrawdownWitnesses.

(* ===================================================================== *)
(** * What the ingestion worker publishes *)
(* ===================================================================== *)

Section PublishedFacts.
Import Types Runtime DatabaseManager Utils Ingestion WalletIngestion Helpers Samples.

Ltac run_async :=
  unfold Promise_all2, saveWalletPosition, saveEvent, checkEventExists,
    signalQueue_send, statement, next_fault, Date_now, try_catch, bind,
    throw, ret.

Ltac case_faults fs :=
  destruct fs as [| [|] [| [|] [| [|] [| [|] fs]]]].

Lemma existsb_eqb (p : string) (l : list string) :
  existsb (String.eqb p) l = true <-> In p l.
Proof.
  rewrite existsb_exists. split.
  - intros (x & Hin & Heq). apply String.eqb_eq in Heq. by subst.
  - intros Hin. exists p. split; [done | apply String.eqb_refl].
Qed.

Lemma set_faults_tail_nil (w : World) : faults w = [] -> set_faults tail w = w.
Proof. destruct w as [d nq sq t lg fs]. simpl. intros ->. reflexivity. Qed.

Variable parseFloat : string -> Q.
Variable parseInt : string -> Z.

(** The tests before the lookup of the key, as [processPosition] makes
    them. *)
Lemma qualifies_tests (config : Config) (assetPosition : AssetPosition)
    (rawPosition : RawPosition) :
  position assetPosition = Some rawPosition ->
  Qeq_bool (parseFloat (or_default (szi rawPosition) "0")) 0 = false ->
  existsb (String.eqb (coin assetPosition)) (ignored_pairs config) = false ->
  (0 <? length (monitored_pairs config))%nat
  && negb (existsb (String.eqb (coin assetPosition)) (monitored_pairs config)) = false ->
  Qltb (calculateNotionalValue (parseFloat (or_default (entryPx rawPosition) "0"))
          (Qabs (parseFloat (or_default (szi rawPosition) "0"))) 1)
    (min_trade_size config) = false ->
  (parseInt (or_default (leverage_value rawPosition) "1")
   <? required_leverage_min config)%Z = false ->
  qualifies parseFloat parseInt config assetPosition.
Proof.
  intros Hpos Hsize Hign Hmon Hnot Hlev. exists rawPosition. split; [done |].
  cbv zeta. split; [by apply Qeq_bool_neq |]. split.
  { intros Hin. apply existsb_eqb in Hin. congruence. }
  split.
  { apply andb_false_iff in Hmon as [Hnone | Hin].
    - left. apply Nat.ltb_ge in Hnone. destruct (monitored_pairs config); [done |].
      simpl in Hnone. lia.
    - right. apply negb_false_iff in Hin. by apply existsb_eqb. }
  split.
  { unfold Qltb in Hnot. apply negb_false_iff, Qle_bool_iff in Hnot. exact Hnot. }
  by apply Z.ltb_ge.
Qed.

(** X17: an event that [processPosition] publishes, whatever D1 and the
    queue accept or reject, is of the type [new_position] and describes
    a position that passed every test: its size is not zero, its pair
    is not ignored and is monitored when a list of monitored pairs is
    configured, its notional value and leverage reach the configured
    minima.  The event carries the wallet and the pair, the absolute
    size, LONG for a positive size and SHORT for a negative one, the
    funding rate that was fetched or zero, and the key made of its own
    wallet, pair, entry time and direction; and the lookup of that key
    found nothing or was rejected. *)
Theorem published_position_qualifies walletAddress assetPosition userFills
    config fundingRateFetch (w : World) (ev : SignalEvent) :
  let run := processPosition parseFloat parseInt walletAddress assetPosition
               userFills config fundingRateFetch w in
  signal_queue run.2 = (signal_queue w ++ [ev])%list ->
  qualifies parseFloat parseInt config assetPosition
  /\ se_type ev = "new_position"
  /\ wallet_address (se_data ev) = walletAddress
  /\ wp_pair (se_data ev) = coin assetPosition
  /\ (exists rawPosition,
        position assetPosition = Some rawPosition
        /\ let currentSize := parseFloat (or_default (szi rawPosition) "0") in
           trade_size (se_data ev) = Qabs currentSize
           /\ (position_type (se_data ev) = "LONG" /\ 0 < currentSize
               \/ position_type (se_data ev) = "SHORT" /\ currentSize < 0)
           /\ leverage (se_data ev)
              = parseInt (or_default (leverage_value rawPosition) "1"))
  /\ funding_rate (se_data ev)
     = match fundingRateFetch with Return (Some rate) => rate | _ => 0 end
  /\ open_event_id (se_data ev)
     = generateEventId walletAddress (coin assetPosition)
         (wp_entry_timestamp (se_data ev)) (position_type (se_data ev))
  /\ (ingested_events (db w) !! open_event_id (se_data ev) = None
      \/ fate 0 w = true).
Proof.
  cbv zeta. unfold processPosition.
  destruct (position assetPosition) as [rawPosition |] eqn:Hpos;
    [| intros H; by apply snoc_not_self in H].
  destruct (Qeq_bool _ 0) eqn:Hsize; [intros H; by apply snoc_not_self in H |].
  destruct (existsb _ (ignored_pairs config)) eqn:Hign;
    [intros H; by apply snoc_not_self in H |].
  destruct (_ && _) eqn:Hmon; [intros H; by apply snoc_not_self in H |].
  destruct (Qltb _ _) eqn:Hnot; [intros H; by apply snoc_not_self in H |].
  destruct (_ <? _)%Z eqn:Hlev; [intros H; by apply snoc_not_self in H |].
  pose proof (qualifies_tests config assetPosition rawPosition Hpos Hsize Hign Hmon
                Hnot Hlev) as Hqualifies.
  set (currentSize := parseFloat (or_default (szi rawPosition) "0")) in *.
  assert (Hdirection :
    (if Qgtb currentSize 0 then "LONG" else "SHORT") = "LONG" /\ 0 < currentSize
    \/ (if Qgtb currentSize 0 then "LONG" else "SHORT") = "SHORT" /\ currentSize < 0).
  { destruct (Qgtb currentSize 0) eqn:Hgt.
    - left. split; [done |]. by apply Qgtb_true.
    - right. split; [done |]. apply Qeq_bool_neq in Hsize.
      unfold Qgtb in Hgt. apply negb_false_iff, Qle_bool_iff in Hgt.
      destruct (Qlt_le_dec currentSize 0) as [Hneg | Hpos0]; [done |].
      exfalso. apply Hsize. by apply Qle_antisym. }
  destruct w as [d nq sq t lg fs].
  destruct (findRelevantFill userFills (coin assetPosition) _) as [f |].
  all: case_faults fs; run_async; unfold fate; simpl.
  all: try (intros H; by apply snoc_not_self in H).
  all: try match goal with
       | |- context [bool_decide ?P] => destruct (bool_decide P) eqn:Hknown
       end; simpl.
  all: try (intros H; by apply snoc_not_self in H).
  all: intros Hev; apply snoc_inj in Hev; subst ev; simpl.
  all: split; [exact Hqualifies |]; split; [reflexivity |]; split; [reflexivity |].
  all: split; [reflexivity |].
  all: split; [exists rawPosition; split; [reflexivity |];
               split; [reflexivity |]; split; [exact Hdirection | reflexivity] |].
  all: split; [reflexivity |]; split; [reflexivity |].
  all: try (right; reflexivity).
  all: left; apply bool_decide_eq_false in Hknown; by apply eq_None_not_Some.
Qed.

(** Without faults [processPosition] returns, and either leaves the
    world as it was or records a key that was not there and publishes
    one event. *)
Lemma processPosition_settles walletAddress assetPosition userFills config
    fundingRateFetch (w : World) :
  faults w = [] ->
  exists w',
    processPosition parseFloat parseInt walletAddress assetPosition userFills
      config fundingRateFetch w = (Return tt, w')
    /\ faults w' = []
    /\ (w' = w
        \/ exists timestamp direction ev,
             let key :=
               generateEventId walletAddress (coin assetPosition) timestamp direction in
             ingested_events (db w) !! key = None
             /\ signal_queue w' = (signal_queue w ++ [ev])%list
             /\ is_Some (ingested_events (db w') !! key)).
Proof.
  intros Hfaults. unfold processPosition.
  destruct (position assetPosition) as [rawPosition |]; [| by exists w; auto].
  repeat match goal with
  | |- context [if ?c then ret tt else _] => destruct c; [by exists w; auto |]
  end.
  destruct w as [d nq sq t lg fs]. simpl in Hfaults. subst fs.
  set (direction := if Qgtb _ 0 then "LONG" else "SHORT").
  destruct (findRelevantFill userFills (coin assetPosition) direction) as [f |].
  all: run_async; simpl.
  all: match goal with
       | |- context [bool_decide ?P] => destruct (bool_decide P) eqn:Hknown
       end; simpl.
  all: eexists; split; [reflexivity |]; split; [reflexivity |].
  all: try (by left).
  all: right; apply bool_decide_eq_false in Hknown; apply eq_None_not_Some in Hknown.
  all: eexists _, direction, _; cbv zeta; split; [exact Hknown |].
  all: split; [reflexivity |]; simpl.
  all: unfold insert_or_ignore_event; rewrite Hknown, lookup_insert_eq; by eexists.
Qed.

End PublishedFacts.

Section WalletFacts.
Import Types Runtime DatabaseManager Utils Ingestion WalletIngestion Helpers Samples.
Variable parseFloat : string -> Q.
Variable parseInt : string -> Z.
Variable walletAddress : string.
Hypothesis well_formed : isValidWalletAddress walletAddress = true.

Lemma processPosition_wallet_seen assetPosition userFills config fundingRateFetch
    (w : World) :
  is_Some (ingested_events (db w) !! walletKey walletAddress) ->
  fate 0 w = false ->
  exists w',
    processPosition parseFloat parseInt walletAddress assetPosition userFills
      config fundingRateFetch w = (Return tt, w')
    /\ db w' = db w /\ signal_queue w' = signal_queue w.
Proof.
  intros Hseen Hfate.
  destruct (position assetPosition) as [rawPosition |] eqn:Hpos.
  - apply (processPosition_known_key parseFloat parseInt walletAddress assetPosition
             userFills config fundingRateFetch w rawPosition Hpos); [| exact Hfate].
    by rewrite generateEventId_wallet_prefix.
  - exists w. unfold processPosition. by rewrite Hpos.
Qed.

(** The loop of [processWallet] over the positions of the wallet. *)
Lemma positions_one_event (positions : list AssetPosition) userFills config
    (fundingRateFetch : string -> Outcome (option Q)) (w : World) :
  faults w = [] ->
  exists w',
    for_of positions (fun assetPosition =>
      try_catch
        (processPosition parseFloat parseInt walletAddress assetPosition
           userFills config (fundingRateFetch (coin assetPosition)))
        (ret tt)) w = (Return tt, w')
    /\ faults w' = []
    /\ (w' = w
        \/ ingested_events (db w) !! walletKey walletAddress = None
           /\ exists ev, signal_queue w' = (signal_queue w ++ [ev])%list
                /\ is_Some (ingested_events (db w') !! walletKey walletAddress)).
Proof.
  revert w. induction positions as [| assetPosition positions IH]; intros w Hfaults.
  - exists w. simpl. auto.
  - destruct (processPosition_settles parseFloat parseInt walletAddress assetPosition
                userFills config (fundingRateFetch (coin assetPosition)) w Hfaults)
      as (w1 & Hrun & Hfaults1 & Hstep).
    destruct (IH w1 Hfaults1) as (w2 & Hrest & Hfaults2 & Hnext).
    exists w2. cbn [for_of]. unfold bind at 1, try_catch at 1. rewrite Hrun.
    split; [exact Hrest |]. split; [exact Hfaults2 |].
    destruct Hstep as [-> | (timestamp & direction & ev & Hnew & Hqueue & Hkey)];
      [exact Hnext |].
    cbv zeta in Hnew, Hkey.
    rewrite generateEventId_wallet_prefix in Hnew, Hkey by exact well_formed.
    right. split; [exact Hnew |].
    destruct Hnext as [-> | [Hnone _]]; [by exists ev |].
    unfold walletKey in Hnone. rewrite Hnone in Hkey. by apply is_Some_None in Hkey.
Qed.

(** X16: the key of a well-formed wallet address does not tell its
    positions apart, so that one position hides the others.  Once the
    key of the wallet is among the ingested events, [processPosition]
    leaves the database and the queue as they are for any position of
    the wallet (when D1 answers the lookup); and when D1 and the queue
    accept every statement, one run of [processWallet] returns and
    publishes at most one event, however many positions the wallet
    holds, and none when the key of the wallet was there before. *)
Theorem processWallet_one_event :
  (forall assetPosition userFills config fundingRateFetch (w : World),
     is_Some (ingested_events (db w) !! walletKey walletAddress) ->
     fate 0 w = false ->
     exists w',
       processPosition parseFloat parseInt walletAddress assetPosition userFills
         config fundingRateFetch w = (Return tt, w')
       /\ db w' = db w /\ signal_queue w' = signal_queue w)
  /\ (forall clearinghouseState userFills config fundingRateFetch (w : World),
        faults w = [] ->
        let run := processWallet parseFloat parseInt walletAddress
                     (Return clearinghouseState) (Return userFills) config
                     fundingRateFetch w in
        run.1 = Return tt
        /\ (exists published,
              signal_queue run.2 = (signal_queue w ++ published)%list
              /\ (length published <= 1)%nat)
        /\ (is_Some (ingested_events (db w) !! walletKey walletAddress) ->
            run.2 = w)).
Proof.
  split; [apply processPosition_wallet_seen |].
  intros clearinghouseState userFills config fundingRateFetch w Hfaults.
  cbv zeta. unfold processWallet.
  destruct clearinghouseState as [state |].
  - destruct (positions_one_event (default [] (assetPositions state)) userFills
                config fundingRateFetch w Hfaults)
      as (w' & Hrun & _ & Hstep).
    set (loop := for_of _ _) in *.
    assert (Hall : try_catch loop throw w = (Return tt, w'))
      by (unfold try_catch; by rewrite Hrun).
    rewrite Hall. cbn [fst snd]. split; [done |].
    destruct Hstep as [-> | (Hnone & ev & Hqueue & _)].
    + split; [| done]. exists []. split; [by rewrite app_nil_r | simpl; lia].
    + split; [exists [ev]; split; [done | simpl; lia] |].
      intros Hseen. rewrite Hnone in Hseen. by apply is_Some_None in Hseen.
  - cbn. split; [done |]. split; [| done]. exists [].
    split; [by rewrite app_nil_r | simpl; lia].
Qed.

End WalletFacts.

Section PublishedWitnesses.
Import Types Runtime DatabaseManager Utils Ingestion WalletIngestion Helpers Samples
  MoreSamples.

(** The first poll of the sample wallet. *)
Lemma published_position_qualifies_witness :
  qualifies decimal integer config eth_long
  /\ se_type published_event = "new_position"
  /\ trade_size (se_data published_event) = Qabs (decimal "10.5")
  /\ position_type (se_data published_event) = "LONG".
Proof.
  assert (Hq : signal_queue (poll [] empty_db).2
               = (signal_queue (world_of empty_db 1700000100000 [])
                  ++ [published_event])%list)
    by (vm_compute; reflexivity).
  destruct (published_position_qualifies decimal integer wallet eth_long
              user_fills config (Return (Some 0.0001))
              (world_of empty_db 1700000100000 []) published_event Hq)
    as (Hqualifies & Htype & _ & _ & _).
  split; [exact Hqualifies |]. split; [exact Htype |]. split; reflexivity.
Defined.

(** The sample wallet holds an ETH long and a BTC short: one poll of the
    account publishes one event. *)
Lemma processWallet_one_event_witness :
  exists published,
    signal_queue
      (processWallet decimal integer wallet (Return (Some two_positions))
         (Return user_fills) config (fun _ => Return (Some 0.0001))
         (world_of empty_db 1700000100000 [])).2
    = (signal_queue (world_of empty_db 1700000100000 []) ++ published)%list
    /\ (length published <= 1)%nat.
Proof.
  assert (Hvalid : isValidWalletAddress wallet = true) by (vm_compute; reflexivity).
  destruct (processWallet_one_event decimal integer wallet Hvalid) as [_ Hrun].
  destruct (Hrun (Some two_positions) user_fills config
              (fun _ => Return (Some 0.0001))
              (world_of empty_db 1700000100000 []) eq_refl) as (_ & Hone & _).
  exact Hone.
Defined.

End PublishedWitnesses.

(* ===================================================================== *)
(** * The idempotency keys in the database *)
(* ===================================================================== *)

Section EventStoreFacts.
Import Types Runtime DatabaseManager Housekeeping Samples MoreSamples.

Lemma fate_head (w : World) (rejected : bool) :
  fate 0 w = rejected -> default false (head (faults w)) = rejected.
Proof. unfold fate. by destruct (faults w). Qed.

Lemma fate_tail (n : nat) (w : World) : fate n (set_faults tail w) = fate (S n) w.
Proof. unfold fate. simpl. by destruct (faults w). Qed.

(** X18: [saveEvent] never throws.  When D1 accepts its statement the
    key is recorded with the time of its first recording (a key that is
    there keeps its time), no other key changes, and a lookup of the
    key that D1 answers afterwards finds it; when D1 rejects the
    statement nothing is recorded and nothing is thrown. *)
Theorem saveEvent_recorded (eventId : string) (w : World) :
  (saveEvent eventId w).1 = Return tt
  /\ (fate 0 w = false ->
      let w1 := (saveEvent eventId w).2 in
      ingested_events (db w1) !! eventId
      = Some (default (now w) (ingested_events (db w) !! eventId))
      /\ (forall other, other <> eventId ->
            ingested_events (db w1) !! other = ingested_events (db w) !! other)
      /\ (fate 1 w = false -> (checkEventExists eventId w1).1 = Return true))
  /\ (fate 0 w = true -> db (saveEvent eventId w).2 = db w).
Proof.
  unfold saveEvent, checkEventExists, try_catch, statement, bind, next_fault, throw, ret.
  destruct (default false (head (faults w))) eqn:Hhead; simpl.
  - split; [done |]. split; [| done].
    intros Hfate. apply fate_head in Hfate. congruence.
  - split; [done |]. split; [| intros Hfate; apply fate_head in Hfate; congruence].
    intros _. unfold insert_or_ignore_event.
    destruct (ingested_events (db w) !! eventId) as [t0 |] eqn:Hold; simpl.
    + split; [done |]. split; [done |].
      intros Hnext. rewrite <- fate_tail in Hnext. apply fate_head in Hnext.
      simpl in Hnext. rewrite Hnext. simpl. rewrite !Hold.
      by rewrite bool_decide_eq_true_2.
    + rewrite lookup_insert_eq. split; [done |].
      split; [intros other Hother; by rewrite lookup_insert_ne |].
      intros Hnext. rewrite <- fate_tail in Hnext. apply fate_head in Hnext.
      simpl in Hnext. rewrite Hnext. simpl. rewrite Hold, lookup_insert_eq.
      by rewrite bool_decide_eq_true_2.
Qed.

(** X19: [cleanupOldEvents] never throws.  When D1 accepts its
    statement, the keys that stay are those recorded at or after
    [now - olderThanMs], with their times; so a key recorded before
    that is forgotten, and a lookup that D1 answers afterwards no
    longer finds it.  When D1 rejects the statement the database stays
    as it is. *)
Theorem cleanupOldEvents_retention (olderThanMs : Z) (w : World) :
  (cleanupOldEvents olderThanMs w).1 = Return tt
  /\ (fate 0 w = false ->
      let w1 := (cleanupOldEvents olderThanMs w).2 in
      (forall eventId t,
         ingested_events (db w1) !! eventId = Some t
         <-> ingested_events (db w) !! eventId = Some t
             /\ (now w - olderThanMs <= t)%Z)
      /\ (forall eventId t,
            ingested_events (db w) !! eventId = Some t ->
            (t < now w - olderThanMs)%Z ->
            fate 1 w = false ->
            (checkEventExists eventId w1).1 = Return false))
  /\ (fate 0 w = true -> db (cleanupOldEvents olderThanMs w).2 = db w).
Proof.
  unfold cleanupOldEvents, checkEventExists, try_catch, statement, bind, next_fault,
    Date_now, throw, ret.
  destruct (default false (head (faults w))) eqn:Hhead; simpl.
  - split; [done |]. split; [| done].
    intros Hfate. apply fate_head in Hfate. congruence.
  - split; [done |]. split; [| intros Hfate; apply fate_head in Hfate; congruence].
    intros _.
    assert (Hkept : forall eventId t,
      delete_events_before (now w - olderThanMs) (ingested_events (db w)) !! eventId
      = Some t
      <-> ingested_events (db w) !! eventId = Some t /\ (now w - olderThanMs <= t)%Z).
    { intros eventId t. unfold delete_events_before.
      by rewrite map_lookup_filter_Some. }
    split; [exact Hkept |].
    intros eventId t Hold Hexpired Hnext.
    rewrite <- fate_tail in Hnext. apply fate_head in Hnext.
    simpl in Hnext. rewrite Hnext. simpl.
    rewrite bool_decide_eq_false_2; [done |].
    intros [t' Hstill]. apply Hkept in Hstill as [Hsame Hrecent]. 
    rewrite Hold in Hsame. injection Hsame as <-. lia.
Qed.

(** X26: [cleanupOldPerformanceData] never throws, and when D1 accepts
    its statement the rows of [performance] that stay are those of the
    timeframe [all_time] and those updated in the last ninety days. *)
Theorem cleanupOldPerformanceData_keeps (w : World) :
  (cleanupOldPerformanceData w).1 = Return tt
  /\ (fate 0 w = false ->
      forall signalId timeframe metrics,
        performance (db (cleanupOldPerformanceData w).2) !! (signalId, timeframe)
        = Some metrics
        <-> performance (db w) !! (signalId, timeframe) = Some metrics
            /\ (timeframe = "all_time"
                \/ (now w - 90 * 24 * 60 * 60 * 1000 <= updated_at metrics)%Z)).
Proof.
  unfold cleanupOldPerformanceData, try_catch, statement, bind, next_fault,
    Date_now, throw, ret.
  destruct (default false (head (faults w))) eqn:Hhead; simpl.
  - split; [done |]. intros Hfate. apply fate_head in Hfate. congruence.
  - split; [done |]. intros _ signalId timeframe metrics.
    unfold delete_performance_before. rewrite map_lookup_filter_Some. simpl.
    split; intros [Hrow Hkeep]; (split; [exact Hrow |]).
    + destruct (decide (timeframe = "all_time")) as [| Hother]; [by left |].
      right. destruct (Z_le_gt_dec (now w - 7776000000) (updated_at metrics));
        [lia |].
      exfalso. apply Hkeep. split; [done | lia].
    + intros [Hother Hold]. destruct Hkeep as [-> | Hrecent]; [done | lia].
Qed.

(** A key saved at [t = 1000] and looked up again. *)
Lemma saveEvent_recorded_witness :
  ingested_events (db (saveEvent "k" (world_of empty_db 1000 [])).2) !! "k"
  = Some 1000%Z
  /\ (checkEventExists "k" (saveEvent "k" (world_of empty_db 1000 [])).2).1
     = Return true.
Proof.
  destruct (saveEvent_recorded "k" (world_of empty_db 1000 [])) as (_ & Hsaved & _).
  destruct (Hsaved eq_refl) as (Hkey & _ & Hfound).
  split; [exact Hkey | by apply Hfound].
Defined.

(** A key recorded eight days before the cleanup with the default
    retention of seven days. *)
Lemma cleanupOldEvents_retention_witness :
  (checkEventExists "k"
     (cleanupOldEvents sevenDays
        (world_of (set_ingested_events (fun _ => {[ "k" := 0%Z ]}) empty_db)
           691200000 [])).2).1
  = Return false.
Proof.
  destruct (cleanupOldEvents_retention sevenDays
              (world_of (set_ingested_events (fun _ => {[ "k" := 0%Z ]}) empty_db)
                 691200000 [])) as (_ & Hcleaned & _).
  destruct (Hcleaned eq_refl) as [_ Hforgotten].
  apply (Hforgotten "k" 0%Z).
  - reflexivity.
  - reflexivity.
  - reflexivity.
Defined.

(** A row of the timeframe 24h and one of all_time, both updated a
    hundred days before the cleanup: the second one stays. *)
Lemma cleanupOldPerformanceData_keeps_witness :
  performance (db (cleanupOldPerformanceData stale_world).2) !! ("sig-1", "all_time")
  = Some stale_metrics
  /\ performance (db (cleanupOldPerformanceData stale_world).2) !! ("sig-1", "24h")
     = None.
Proof.
  destruct (cleanupOldPerformanceData_keeps stale_world) as [_ Hkept].
  specialize (Hkept eq_refl). split.
  - apply Hkept. split; [reflexivity | by left].
  - apply eq_None_not_Some. intros [metrics Hrow].
    apply Hkept in Hrow as [Hold [Hall | Hrecent]]; [discriminate |].
    vm_compute in Hold. injection Hold as <-. vm_compute in Hrecent. by apply Hrecent.
Defined.

End EventStoreFacts.

(* ===================================================================== *)
(** * Cycles without a price *)
(* ===================================================================== *)

Section QuietFacts.
Import Utils Types ApiClients Runtime DatabaseManager PriceMonitor Observations.
Import PriceClients MoreObservations.

Global Instance quiet_preorder : PreOrder quiet.
Proof.
  split.
  - by intros w.
  - intros w1 w2 w3 (Hd12 & Hn12 & Hl12) (Hd23 & Hn23 & Hl23).
    repeat split; congruence.
Qed.

Lemma group_push_pair (p : string) (s : Signal) (grouped : list (string * list Signal)) :
  pair (row s) = p ->
  Forall (fun entry : string * list Signal =>
            Forall (fun member => pair (row member) = entry.1) entry.2) grouped ->
  Forall (fun entry : string * list Signal =>
            Forall (fun member => pair (row member) = entry.1) entry.2)
    (group_push p s grouped).
Proof.
  intros Hp. induction grouped as [| [p' ms] rest IH]; intros Hall; simpl.
  - repeat constructor. exact Hp.
  - apply Forall_cons in Hall as [Hms Hrest].
    destruct (String.eqb_spec p' p) as [-> | Hne].
    + constructor; [| exact Hrest]. simpl in *. apply Forall_app. split; [done |].
      by repeat constructor.
    + constructor; [exact Hms | by apply IH].
Qed.

(** The members of a group have the pair of the group. *)
Lemma groupSignalsByPair_pair (l : list Signal) :
  Forall (fun entry : string * list Signal =>
            Forall (fun member => pair (row member) = entry.1) entry.2)
    (groupSignalsByPair l).
Proof.
  unfold groupSignalsByPair.
  assert (Hgen : forall grouped,
    Forall (fun entry : string * list Signal =>
              Forall (fun member => pair (row member) = entry.1) entry.2) grouped ->
    Forall (fun entry : string * list Signal =>
              Forall (fun member => pair (row member) = entry.1) entry.2)
      (fold_left (fun grouped signal => group_push (pair (row signal)) signal grouped)
         l grouped)).
  { induction l as [| s l IH]; intros grouped Hall; simpl; [done |].
    apply IH. by apply group_push_pair. }
  apply Hgen. constructor.
Qed.

(** A relation that is kept by a rejected or a reading statement and by
    the evaluation of every active signal at the price of its pair is
    kept by a cycle. *)
Lemma cycle_preserves_priced (R : World -> World -> Prop) `{!PreOrder R}
    (market : Market) (w : World) :
  (forall w0, R w0 (set_faults tail w0)) ->
  (forall w0, R w0 (set_db (fun _ => db w0) w0)) ->
  (forall signal currentPrice, In signal (select_active_signals (db w)) ->
     getCurrentPrice market (pair (row signal)) = Some currentPrice ->
     preserves R (processSignalPriceCheck signal currentPrice)) ->
  R w (cycle market w).
Proof.
  intros Hpop Hsame Hstep.
  unfold cycle, scheduled, monitorActivePrices, getActiveSignals.
  unfold try_catch at 1 2 3. unfold bind at 1.
  unfold statement, bind, next_fault, throw, ret.
  destruct (default false (head (faults w))); simpl; [apply Hpop |].
  set (w1 := set_db _ _).
  assert (Hw1 : R w w1).
  { etransitivity; [apply Hpop | apply (Hsame (set_faults tail w))]. }
  destruct (length (select_active_signals (db w)) =? 0)%nat; simpl; [exact Hw1 |].
  assert (Hloop : preserves R
    (for_of (groupSignalsByPair (select_active_signals (db w)))
       (fun entry => try_catch (processPairSignals market entry.1 entry.2) (ret tt)))).
  { apply preserves_for_of; [done |]. intros [p ms] Hgroup. simpl.
    pose proof (groupSignalsByPair_pair (select_active_signals (db w))) as Hpairs.
    rewrite List.Forall_forall in Hpairs. specialize (Hpairs _ Hgroup). simpl in Hpairs.
    rewrite List.Forall_forall in Hpairs.
    apply preserves_try_catch; [done | | by apply preserves_ret].
    apply preserves_try_catch; [done | | by apply preserves_throw].
    destruct (getCurrentPrice market p) as [currentPrice |] eqn:Hprice;
      [| by apply preserves_ret].
    apply preserves_for_of; [done |]. intros signal Hin.
    apply preserves_try_catch; [done | | by apply preserves_ret].
    apply Hstep; [by apply (group_member_In _ p ms) |].
    by rewrite (Hpairs signal Hin). }
  specialize (Hloop w1).
  destruct (for_of _ _ w1) as [[[] |] w2]; simpl in *; by etransitivity.
Qed.

(** An operation that fails on every invocation makes [withRetry]
    throw. *)
Lemma retryLoop_all_rejected {T} (operation : nat -> Attempt T) (random : nat -> Q)
    (options : RetryOptions) (fuel : nat) (attempt : Z) (lastError : option Error)
    (invoked : nat) (slept : list Q) :
  (forall k, exists e, operation k = Rejected e) ->
  exists thrown,
    settled (retryLoop operation random options fuel attempt lastError invoked slept)
    = Threw thrown.
Proof.
  intros Hfail. revert attempt lastError invoked slept.
  induction fuel as [| fuel IH]; intros attempt lastError invoked slept; simpl;
    [by eexists |].
  destruct (Hfail invoked) as [e ->].
  destruct (nonRetryable e); [by eexists |].
  destruct (attempt =? maxRetries options)%Z; [by eexists |]. apply IH.
Qed.

Variable parseFloat : string -> Q.

(** X20: the fallback to KuCoin is taken only when Hyperliquid answers
    without a price, not when it fails: when every response of
    Hyperliquid is outside 200..299 (a 503 on every attempt as well as a
    404 or a 429 on the first), [getMarkPrice] throws,
    [getCurrentPrice] has no price for any pair whatever KuCoin would
    answer, and the cycle enters no signal and writes nothing to the
    database or to the notification queue. *)
Theorem hyperliquid_outage_skips_signals
    (fetch : string -> nat -> Fetch (option AssetCtxs)) (random : nat -> Q)
    (kucoin : string -> Outcome (option Q)) :
  (forall p k, exists status body,
     fetch p k = Response status body /\ ok status = false) ->
  let market := market_of parseFloat fetch random kucoin in
  (forall p, awaited (getMarkPrice parseFloat p (fetch p) random) = Throw)
  /\ (forall p, getCurrentPrice market p = None)
  /\ (forall w,
        db (cycle market w) = db w
        /\ notification_queue (cycle market w) = notification_queue w
        /\ checking_log (cycle market w) = checking_log w).
Proof.
  intros Hdown market.
  assert (Hthrow : forall p, awaited (getMarkPrice parseFloat p (fetch p) random) = Throw).
  { intros p. unfold awaited, getMarkPrice, withRetry.
    destruct (retryLoop_all_rejected (markPriceOperation parseFloat p (fetch p)) random
                defaultRetryOptions (Z.to_nat (maxRetries defaultRetryOptions + 1))
                0 None 0 []) as [thrown ->]; [| done].
    intros k. unfold markPriceOperation.
    destruct (Hdown p k) as (status & body & -> & ->). by eexists. }
  assert (Hnone : forall p, getCurrentPrice market p = None).
  { intros p. unfold getCurrentPrice, market, market_of. simpl. by rewrite Hthrow. }
  split; [exact Hthrow |]. split; [exact Hnone |].
  intros w. apply (cycle_preserves_priced quiet market w); [by intros | by intros |].
  intros signal currentPrice _ Hprice. rewrite Hnone in Hprice. discriminate.
Qed.

End QuietFacts.

Section QuietWitnesses.
Import Utils Types ApiClients Runtime DatabaseManager PriceMonitor Observations.
Import PriceClients MoreObservations Samples MoreSamples.

(** The ladder signal would be closed at 106, the price that KuCoin
    has; with Hyperliquid down it is not looked at. *)
Lemma hyperliquid_outage_skips_signals_witness :
  getCurrentPrice (market_of decimal outage half kucoin_quotes) "ETH" = None
  /\ db (cycle (market_of decimal outage half kucoin_quotes) ladder_world)
     = db ladder_world.
Proof.
  destruct (hyperliquid_outage_skips_signals decimal outage half kucoin_quotes)
    as (_ & Hnone & Hquiet).
  - intros p k. exists 503%Z, None. split; reflexivity.
  - split; [apply Hnone | apply Hquiet].
Defined.

End QuietWitnesses.

(* ===================================================================== *)
(** * What an evaluation writes *)
(* ===================================================================== *)

Section EvaluationFacts.
Import Types Runtime DatabaseManager PriceMonitor PerformanceCalculator Observations.
Import MoreObservations Samples.

Lemma scanTargets_none targetStatus currentPrice signalType (i : nat)
    (targetPrices : list Q) :
  Forall (fun targetPrice => targetReached signalType currentPrice targetPrice = false)
    targetPrices ->
  scanTargets targetStatus currentPrice signalType i targetPrices = [].
Proof.
  intros Hall. revert i. induction Hall as [| targetPrice rest Hmiss Hall IH]; intros i;
    simpl; [done |].
  unfold targetReached in Hmiss. rewrite Hmiss, IH. by destruct (negb _).
Qed.

(** X23: an evaluation at a price that reaches neither the stop price
    nor any target price writes the [Checking signal] line and nothing
    else: it returns, and the database and the notification queue are
    as they were, whatever D1 accepts or rejects. *)
Theorem processSignalPriceCheck_between_levels (signal : Signal) (currentPrice : Q)
    (w : World) :
  let levels :=
    calculatePriceLevels (entry_price (row signal)) (stop_loss (row signal))
      (targets_json (row signal)) (type (row signal)) in
  isStopLossHit currentPrice levels.1 (type (row signal)) = false ->
  Forall (fun targetPrice =>
            targetReached (type (row signal)) currentPrice targetPrice = false)
    levels.2 ->
  let run := processSignalPriceCheck signal currentPrice w in
  run.1 = Return tt
  /\ db run.2 = db w
  /\ notification_queue run.2 = notification_queue w
  /\ checking_log run.2 = (checking_log w ++ [signal_id signal])%list.
Proof.
  cbv zeta. unfold processSignalPriceCheck.
  destruct (calculatePriceLevels _ _ _ _) as [stopLossPrice targetPrices]. simpl.
  intros Hstop Hmiss. unfold bind at 1. unfold log_checking at 1. rewrite Hstop.
  unfold bind, checkTakeProfitHits, try_catch, statement, bind, next_fault, throw, ret.
  simpl. destruct (default false (head (faults w))); simpl; [done |].
  by rewrite scanTargets_none.
Qed.

(** X24: the [scheduled] handler of the price monitor never throws;
    and when D1 rejects the query for the active signals the cycle ends
    there: nothing but the fate of that statement is consumed. *)
Theorem scheduled_never_throws (market : Market) (w : World) :
  (scheduled market w).1 = Return tt
  /\ (fate 0 w = true -> cycle market w = set_faults tail w).
Proof.
  split.
  - unfold scheduled, try_catch.
    destruct (monitorActivePrices market w) as [[[] |] w1]; reflexivity.
  - intros Hfate. apply fate_head in Hfate.
    unfold cycle, scheduled, monitorActivePrices, getActiveSignals.
    unfold try_catch at 1 2 3. unfold bind at 1.
    unfold statement, bind, next_fault, throw, ret.
    by rewrite Hfate.
Qed.

(** The fate of the next statement, once for each statement of a
    close. *)
Ltac accepted fs Hfates k :=
  destruct fs as [| [|] fs];
    [ | exfalso; specialize (Hfates k ltac:(lia)); discriminate | ].

(** X21: when the stop-loss of a signal is hit and D1 and the queue
    accept the six statements of the close, the evaluation sets the
    status SL_HIT and changes nothing else of the row but the time of
    its last update; it writes a row of [performance] for each of the
    four timeframes, and the four rows agree on everything but the time
    at which each was written: the outcome LOSS whatever the sign of
    the PnL, the PnL of the price move without any funding, one and the
    same duration, a drawdown of zero; it sends one SL_HIT notification
    and leaves the targets alone.  The times that are written are
    readings of the clock, of which nothing is said here. *)
Theorem stop_loss_close_records (signal : Signal) (currentPrice : Q) (w : World)
    (r : SignalRow) :
  let levels :=
    calculatePriceLevels (entry_price (row signal)) (stop_loss (row signal))
      (targets_json (row signal)) (type (row signal)) in
  signals (db w) !! signal_id signal = Some r ->
  isStopLossHit currentPrice levels.1 (type (row signal)) = true ->
  (forall k, (k < 6)%nat -> fate k w = false) ->
  let w' := (processSignalPriceCheck signal currentPrice w).2 in
  (exists statusTime,
     signals (db w') !! signal_id signal = Some (with_status "SL_HIT" statusTime r))
  /\ (exists exitTime, forall timeframe, In timeframe timeframes ->
        exists updatedAt,
          performance (db w') !! (signal_id signal, timeframe)
          = Some (closing_metrics signal currentPrice "SL_HIT" exitTime updatedAt))
  /\ (forall exitTime updatedAt,
        let metrics :=
          closing_metrics signal currentPrice "SL_HIT" exitTime updatedAt in
        outcome metrics = "LOSS"
        /\ max_drawdown_pct metrics = 0
        /\ pnl metrics
           == (if String.eqb (type (row signal)) "LONG" then 1 else -1)
              * (currentPrice - entry_price (row signal))
              * avg_trade_size (row signal))
  /\ notification_queue w'
     = (notification_queue w ++ [notification "SL_HIT" (signal_id signal)])%list
  /\ signal_targets (db w') = signal_targets (db w).
Proof.
  cbv zeta. unfold processSignalPriceCheck.
  destruct (calculatePriceLevels _ _ _ _) as [stopLossPrice targetPrices]. simpl.
  intros Hrow Hstop Hfates. unfold bind at 1. unfold log_checking at 1. rewrite Hstop.
  destruct w as [d nq sq t lg fs]. unfold fate in Hfates. simpl in Hfates, Hrow.
  assert (Hmetrics : forall exitTime updatedAt,
    outcome (closing_metrics signal currentPrice "SL_HIT" exitTime updatedAt) = "LOSS"
    /\ max_drawdown_pct (closing_metrics signal currentPrice "SL_HIT" exitTime updatedAt)
       = 0
    /\ pnl (closing_metrics signal currentPrice "SL_HIT" exitTime updatedAt)
       == (if String.eqb (type (row signal)) "LONG" then 1 else -1)
          * (currentPrice - entry_price (row signal))
          * avg_trade_size (row signal)).
  { intros exitTime updatedAt. split; [reflexivity |]. split; [reflexivity |].
    unfold closing_metrics, PerformanceCalculator.calculatePnL. simpl.
    destruct (String.eqb (type (row signal)) "LONG"); field. }
  unfold handleStopLossHit, updateSignalStatus, updatePerformanceMetrics,
    notificationQueue_send, timeframes, for_of.
  assert (Hrows : forall (m : PerformanceMetrics) timeframe
            (rows : gmap (string * string) PerformanceMetrics),
    In timeframe ["24h"; "7d"; "30d"; "all_time"] ->
    <[(signal_id signal, "all_time") := m]>
      (<[(signal_id signal, "30d") := m]>
         (<[(signal_id signal, "7d") := m]>
            (<[(signal_id signal, "24h") := m]> rows)))
    !! (signal_id signal, timeframe) = Some m).
  { intros m timeframe rows [<- | [<- | [<- | [<- | []]]]].
    - by rewrite !lookup_insert_ne, lookup_insert_eq by congruence.
    - by rewrite !lookup_insert_ne, lookup_insert_eq by congruence.
    - by rewrite lookup_insert_ne, lookup_insert_eq by congruence.
    - by rewrite lookup_insert_eq. }
  accepted fs Hfates 0%nat; [| accepted fs Hfates 1%nat; [| accepted fs Hfates 2%nat;
    [| accepted fs Hfates 3%nat; [| accepted fs Hfates 4%nat;
      [| accepted fs Hfates 5%nat]]]]].
  all: unfold try_catch, statement, bind, next_fault, Date_now, throw, ret; simpl.
  all: rewrite lookup_alter_eq, Hrow; simpl.
  all: split; [by exists t |].
  all: split; [exists t; intros timeframe Htimeframe; exists t; by apply Hrows |].
  all: split; [exact Hmetrics |].
  all: split; reflexivity.
Qed.

Lemma count_hit_targets_size (signalId : string) (d : DB) :
  (count_hit_targets signalId d <= size (target_rows signalId d))%nat.
Proof. unfold count_hit_targets, target_rows. apply map_size_filter. Qed.

(** The statements of the monitor change no set of target rows. *)
Lemma touches_target_rows (F : Footprint) (w w' : World) (signalId : string) :
  touches F w w' ->
  dom (target_rows signalId (db w')) = dom (target_rows signalId (db w)).
Proof.
  intros H.
  induction H as [w | w w' f H IH | w w' d' H IH Hstep | w w' ev H IH Hin | w w' H IH Hlog];
    try exact IH; [done |].
  rewrite <- IH. simpl. unfold target_rows.
  destruct Hstep as [-> | [(st & t & Hin & ->) | [(Ht & j & t & ->) | (k & m & ->)]]];
    simpl; try done.
  destruct (decide (fp_signal F = signalId)) as [<- | Hne].
  - rewrite lookup_alter_eq.
    destruct (signal_targets (db w') !! fp_signal F) as [rows |]; simpl; [| done].
    apply dom_alter_L.
  - by rewrite lookup_alter_ne.
Qed.

Lemma status_unchanged (F : Footprint) (w w' : World) :
  touches F w w' -> fp_statuses F = [] ->
  status_of (fp_signal F) w' = status_of (fp_signal F) w.
Proof.
  intros H Hnone. apply touches_status in H as [Hsame | (st & t & Hin & _)].
  - unfold status_of. by rewrite Hsame.
  - rewrite Hnone in Hin. destruct Hin.
Qed.

Lemma status_closing (signalId newStatus : string) (w w' : World) :
  touches (closing_footprint signalId newStatus) w w' ->
  status_of signalId w' = status_of signalId w
  \/ status_of signalId w' = Some newStatus.
Proof.
  intros H. apply touches_status in H as [Hsame | (st & t & [<- | []] & Hnew)];
    unfold status_of; simpl in *.
  - left. by rewrite Hsame.
  - rewrite Hnew. destruct (signals (db w) !! signalId); [by right | by left].
Qed.

(** The world after [try { await m; k } catch { }]. *)
Lemma try_catch_bind_world {A} (m : Async A) (k : A -> Async unit) (w : World) :
  (try_catch (bind m k) (ret tt) w).2
  = match m w with
    | (Return a, w1) => (try_catch (k a) (ret tt) w1).2
    | (Throw, w1) => w1
    end.
Proof.
  unfold try_catch, bind. destruct (m w) as [[a |] w1]; [| done].
  by destruct (k a w1) as [[[] |] w2].
Qed.

(** What [handleTakeProfitHits] leaves when the status it finds is not
    TP_HIT and the status it leaves is. *)
Lemma handleTakeProfitHits_complete signalId signalType currentPrice tpHits targets
    entryPrice avgTradeSize entryTimestamp (w : World) :
  let w' := (handleTakeProfitHits signalId signalType currentPrice tpHits targets
               entryPrice avgTradeSize entryTimestamp w).2 in
  status_of signalId w <> Some "TP_HIT" ->
  status_of signalId w' = Some "TP_HIT" ->
  (length targets <= count_hit_targets signalId (db w'))%nat.
Proof.
  cbv zeta. intros Hbefore. unfold handleTakeProfitHits.
  rewrite try_catch_bind_world.
  pose proof (preserves_for_of (touches (targets_footprint signalId)) tpHits
                (fun tpIndex => updateSignalTarget signalId tpIndex true)
                (fun tpIndex _ =>
                   touches_updateSignalTarget (targets_footprint signalId) tpIndex
                     eq_refl) w) as Hmarks.
  destruct (for_of tpHits _ w) as [[[] |] w1]; simpl in Hmarks;
    apply (status_unchanged _ _ _) in Hmarks; try reflexivity; simpl in Hmarks.
  2: { intros Hafter. rewrite Hmarks in Hafter. congruence. }
  rewrite try_catch_bind_world.
  assert (Hcount : exists allTargetsHit w2,
    checkAllTargetsHit signalId (length targets) w1 = (Return allTargetsHit, w2)
    /\ db w2 = db w1
    /\ (allTargetsHit = true ->
        (length targets <= count_hit_targets signalId (db w1))%nat)).
  { unfold checkAllTargetsHit, try_catch, statement, bind, next_fault, throw, ret.
    destruct (default false (head (faults w1))); simpl.
    - eexists _, _. split; [reflexivity |]. split; [done | discriminate].
    - eexists _, _. split; [reflexivity |]. split; [done |].
      intros Hall. by apply Nat.leb_le. }
  destruct Hcount as (allTargetsHit & w2 & -> & Hdb & Hall).
  assert (Hstatus2 : status_of signalId w2 = status_of signalId w1)
    by (unfold status_of; by rewrite Hdb).
  set (newStatus := if allTargetsHit then "TP_HIT" else "PARTIAL_TP").
  match goal with
  | |- context [try_catch ?m (ret tt) w2] =>
      assert (Hfinal : touches (closing_footprint signalId newStatus) w2
                         (try_catch m (ret tt) w2).2)
  end.
  { apply (preserves_try_catch (touches (closing_footprint signalId newStatus)));
      [| apply preserves_ret; apply _].
    apply (preserves_bind (touches (closing_footprint signalId newStatus))).
    { apply (touches_updateSignalStatus (closing_footprint signalId newStatus)).
      by left. }
    intros _. apply (preserves_bind (touches (closing_footprint signalId newStatus))).
    { destruct allTargetsHit;
        [apply touches_updatePerformanceMetrics | apply preserves_ret; apply _]. }
    intros _. apply touches_notification. by left. }
  intros Hafter. subst newStatus.
  destruct allTargetsHit.
  - apply touches_targets in Hfinal; [| reflexivity].
    unfold count_hit_targets in *. rewrite Hfinal, Hdb. by apply Hall.
  - apply status_closing in Hfinal as [Hsame | Hpartial].
    + rewrite Hsame, Hstatus2, Hmarks in Hafter. congruence.
    + rewrite Hpartial in Hafter. discriminate.
Qed.

(** X22: TP_HIT is set only when every target is hit: when an
    evaluation takes a signal to TP_HIT, at least as many of its target
    rows are hit as it has targets; so a signal with fewer target rows
    than targets is never taken to TP_HIT. *)
Theorem take_profit_close_is_complete (signal : Signal) (currentPrice : Q) (w : World) :
  status_of (signal_id signal) w <> Some "TP_HIT" ->
  let w' := (processSignalPriceCheck signal currentPrice w).2 in
  (status_of (signal_id signal) w' = Some "TP_HIT" ->
   (length (targets_json (row signal))
    <= count_hit_targets (signal_id signal) (db w'))%nat)
  /\ ((size (target_rows (signal_id signal) (db w))
       < length (targets_json (row signal)))%nat ->
      status_of (signal_id signal) w' <> Some "TP_HIT").
Proof.
  intros Hbefore w'.
  assert (Hcomplete : status_of (signal_id signal) w' = Some "TP_HIT" ->
    (length (targets_json (row signal))
     <= count_hit_targets (signal_id signal) (db w'))%nat).
  { set (logged := set_checking_log (fun l => (l ++ [signal_id signal])%list) w).
    set (levels := calculatePriceLevels (entry_price (row signal))
                     (stop_loss (row signal)) (targets_json (row signal))
                     (type (row signal))).
    assert (Hrun : w'
      = if isStopLossHit currentPrice levels.1 (type (row signal)) then
          (handleStopLossHit (signal_id signal) (type (row signal)) currentPrice
             (entry_price (row signal)) (avg_trade_size (row signal))
             (entry_timestamp (row signal)) logged).2
        else
          match checkTakeProfitHits (signal_id signal) currentPrice levels.2
                  (type (row signal)) logged with
          | (Return tpHits, w1) =>
              if (0 <? length tpHits)%nat then
                (handleTakeProfitHits (signal_id signal) (type (row signal))
                   currentPrice tpHits (targets_json (row signal))
                   (entry_price (row signal)) (avg_trade_size (row signal))
                   (entry_timestamp (row signal)) w1).2
              else w1
          | (Throw, w1) => w1
          end).
    { subst w' levels logged. unfold processSignalPriceCheck.
      destruct (calculatePriceLevels _ _ _ _) as [stopLossPrice targetPrices].
      cbn [fst snd]. unfold bind, log_checking.
      destruct (isStopLossHit _ _ _); [done |].
      destruct (checkTakeProfitHits _ _ _ _ _) as [[tpHits |] w1]; [| done].
      by destruct (0 <? length tpHits)%nat. }
    rewrite Hrun. clear Hrun.
    assert (Hlogged : status_of (signal_id signal) logged <> Some "TP_HIT")
      by exact Hbefore.
    destruct (isStopLossHit currentPrice levels.1 (type (row signal))).
    - intros Hafter. exfalso.
      pose proof (touches_handleStopLossHit (signal_id signal) (type (row signal))
                    currentPrice (entry_price (row signal))
                    (avg_trade_size (row signal)) (entry_timestamp (row signal))
                    logged) as Hstop.
      apply (status_closing (signal_id signal) "SL_HIT") in Hstop as [Hsame | Hsl].
      + rewrite Hsame in Hafter. congruence.
      + rewrite Hsl in Hafter. discriminate.
    - pose proof (touches_checkTakeProfitHits (reading_footprint (signal_id signal))
                    (signal_id signal) currentPrice levels.2 (type (row signal))
                    logged) as Hread.
      destruct (checkTakeProfitHits _ _ _ _ logged) as [[tpHits |] w1];
        simpl in Hread;
        apply (status_unchanged _ _ _) in Hread; try reflexivity; simpl in Hread.
      + destruct (0 <? length tpHits)%nat.
        * apply handleTakeProfitHits_complete. by rewrite Hread.
        * intros Hafter. rewrite Hread in Hafter. congruence.
      + intros Hafter. rewrite Hread in Hafter. congruence. }
  split; [exact Hcomplete |].
  intros Hfew Hafter. specialize (Hcomplete Hafter).
  pose proof (count_hit_targets_size (signal_id signal) (db w')) as Hsize.
  pose proof (touches_target_rows _ w w' (signal_id signal)
                (touches_processSignalPriceCheck signal currentPrice w)) as Hdom.
  apply (f_equal size) in Hdom. rewrite !size_dom in Hdom. lia.
Qed.

End EvaluationFacts.

Section EvaluationWitnesses.
Import Types Runtime DatabaseManager PriceMonitor PerformanceCalculator Observations.
Import MoreObservations Samples MoreSamples.

(** The ladder signal at 101, between its stop at 97.50 and its first
    target at 102. *)
Lemma processSignalPriceCheck_between_levels_witness :
  (processSignalPriceCheck ladder_signal 101 ladder_world).1 = Return tt
  /\ db (processSignalPriceCheck ladder_signal 101 ladder_world).2 = db ladder_world
  /\ notification_queue (processSignalPriceCheck ladder_signal 101 ladder_world).2
     = notification_queue ladder_world
  /\ checking_log (processSignalPriceCheck ladder_signal 101 ladder_world).2
     = (checking_log ladder_world ++ ["sig-1"])%list.
Proof.
  apply (processSignalPriceCheck_between_levels ladder_signal 101 ladder_world).
  - reflexivity.
  - repeat constructor.
Defined.

(** The sample signal stopped out at 2388.00: a loss of 62.50 on a
    size of one. *)
Lemma stop_loss_close_records_witness :
  status_of "sig-eth" (processSignalPriceCheck eth_signal 2388.00 eth_world).2
  = Some "SL_HIT"
  /\ (exists exitTime updatedAt,
        performance (db (processSignalPriceCheck eth_signal 2388.00 eth_world).2)
          !! ("sig-eth", "24h")
        = Some (closing_metrics eth_signal 2388.00 "SL_HIT" exitTime updatedAt)
        /\ pnl (closing_metrics eth_signal 2388.00 "SL_HIT" exitTime updatedAt)
           == -62.50)
  /\ notification_queue (processSignalPriceCheck eth_signal 2388.00 eth_world).2
     = [notification "SL_HIT" "sig-eth"].
Proof.
  destruct (stop_loss_close_records eth_signal 2388.00 eth_world eth_row)
    as ((statusTime & Hstatus) & (exitTime & Hrows) & Hmetrics & Hsent & _).
  - reflexivity.
  - reflexivity.
  - intros k _. unfold fate. simpl. by destruct k.
  - split; [unfold status_of; change (signal_id eth_signal) with "sig-eth" in Hstatus;
            rewrite Hstatus; reflexivity |].
    split; [| exact Hsent].
    destruct (Hrows "24h") as (updatedAt & Hrow); [by left |].
    exists exitTime, updatedAt. split; [exact Hrow |].
    destruct (Hmetrics exitTime updatedAt) as (_ & _ & Hpnl).
    rewrite Hpnl. reflexivity.
Defined.

(** The ladder signal taken to TP_HIT at 106 after its first rung was
    hit at 103: its three rows are hit. *)
Lemma take_profit_close_is_complete_witness :
  (3 <= count_hit_targets "sig-1"
          (db (processSignalPriceCheck ladder_signal 106
                 (cycles [quote 101; quote 103] ladder_world)).2))%nat.
Proof.
  destruct (take_profit_close_is_complete ladder_signal 106
              (cycles [quote 101; quote 103] ladder_world)) as [Hcomplete _].
  - vm_compute. discriminate.
  - apply Hcomplete. vm_compute. reflexivity.
Defined.

(** A cycle whose query for the active signals is rejected. *)
Lemma scheduled_never_throws_witness :
  cycle (quote 106) (world_of ladder_db 3600000 [true])
  = set_faults tail (world_of ladder_db 3600000 [true]).
Proof.
  destruct (scheduled_never_throws (quote 106) (world_of ladder_db 3600000 [true]))
    as [_ Hrejected].
  apply Hrejected. reflexivity.
Defined.

End EvaluationWitnesses.

(* ===================================================================== *)
(** * The stop price of a SHORT signal *)
(* ===================================================================== *)

Section ShortFacts.
Import Types Runtime DatabaseManager PriceMonitor Observations PriceClients.
Import Samples MoreSamples.

Lemma short_stop_at_most_entry (entryPrice stopLossPercent : Q) (targets : list Q) :
  0 <= entryPrice ->
  (calculatePriceLevels entryPrice stopLossPercent targets "SHORT").1 <= entryPrice.
Proof.
  intros Hentry. simpl.
  assert (Hfraction : 0 <= Qabs stopLossPercent / 100).
  { apply Qle_shift_div_l; [reflexivity |]. rewrite Qmult_0_l. apply Qabs_nonneg. }
  set (fraction := Qabs stopLossPercent / 100) in *.
  assert (Hproduct : 0 <= entryPrice * fraction) by (by apply Qmult_le_0_compat).
  assert (Hsplit : entryPrice * (1 - fraction) == entryPrice - entryPrice * fraction)
    by ring.
  rewrite Hsplit. set (product := entryPrice * fraction) in *. lra.
Qed.

(** X29: the monitor puts the stop price of a SHORT signal below its
    entry price and judges it hit at or above it: an open SHORT signal
    is closed as SL_HIT by an evaluation at its own entry price, or at
    any price that is not below the entry price less the stop-loss
    percentage (when D1 accepts the update of the status). *)
Theorem short_signal_stopped_at_entry (signal : Signal) (currentPrice : Q) (w : World)
    (r : SignalRow) :
  signals (db w) !! signal_id signal = Some r ->
  status r = "OPEN" ->
  type (row signal) = "SHORT" ->
  0 <= entry_price (row signal) ->
  fate 0 w = false ->
  entry_price (row signal) * (1 - Qabs (stop_loss (row signal)) / 100) <= currentPrice ->
  status_of (signal_id signal) (processSignalPriceCheck signal currentPrice w).2
  = Some "SL_HIT"
  /\ status_of (signal_id signal)
       (processSignalPriceCheck signal (entry_price (row signal)) w).2
     = Some "SL_HIT".
Proof.
  intros Hrow Hopen Hshort Hentry Hfate Hprice.
  split.
  - apply (processSignalPriceCheck_stop_loss signal currentPrice w r Hrow Hopen);
      [exact Hfate |].
    rewrite Hshort. apply isStopLossHit_SHORT. exact Hprice.
  - apply (processSignalPriceCheck_stop_loss signal (entry_price (row signal)) w r
             Hrow Hopen); [exact Hfate |].
    rewrite Hshort. apply isStopLossHit_SHORT.
    by apply short_stop_at_most_entry.
Qed.

(** A short from 100 with a stop-loss of -2.5 percent, looked at while
    the price is 99: the short is in profit and is stopped out. *)
Lemma short_signal_stopped_at_entry_witness :
  status_of "sig-short" (processSignalPriceCheck short_signal 99 short_world).2
  = Some "SL_HIT"
  /\ status_of "sig-short" (processSignalPriceCheck short_signal 100 short_world).2
     = Some "SL_HIT".
Proof.
  apply (short_signal_stopped_at_entry short_signal 99 short_world short_row).
  - reflexivity.
  - reflexivity.
  - reflexivity.
  - vm_compute. discriminate.
  - reflexivity.
  - vm_compute. discriminate.
Defined.

(** X25: the alert and the monitor compute the same stop and target
    prices for a LONG signal and the same target prices for a SHORT
    one, but not the same stop price for a SHORT signal with a negative
    stop-loss percentage: the alert prints a stop above the entry
    price, the monitor watches one below it. *)
Theorem alert_levels_against_monitor (entryPrice stopLoss : Q) (targets : list Q) :
  alertPriceLevels "LONG" entryPrice stopLoss targets
  = calculatePriceLevels entryPrice stopLoss targets "LONG"
  /\ (alertPriceLevels "SHORT" entryPrice stopLoss targets).2
     = (calculatePriceLevels entryPrice stopLoss targets "SHORT").2
  /\ (0 < entryPrice -> stopLoss < 0 ->
      (calculatePriceLevels entryPrice stopLoss targets "SHORT").1 < entryPrice
      /\ entryPrice < (alertPriceLevels "SHORT" entryPrice stopLoss targets).1).
Proof.
  split; [reflexivity |]. split; [reflexivity |].
  intros Hentry Hstop. simpl.
  assert (Habs : 0 < Qabs stopLoss).
  { rewrite Qabs_neg by lra. lra. }
  assert (Hfraction : 0 < Qabs stopLoss / 100) by (apply Qlt_shift_div_l; lra).
  assert (Hraw : stopLoss / 100 < 0).
  { apply Qlt_shift_div_r; [reflexivity | lra]. }
  set (fraction := Qabs stopLoss / 100) in *. set (raw := stopLoss / 100) in *.
  split.
  - apply Qlt_le_trans with (entryPrice * 1); [| rewrite Qmult_1_r; apply Qle_refl].
    apply Qmult_lt_l; [exact Hentry | lra].
  - apply Qle_lt_trans with (entryPrice * 1); [rewrite Qmult_1_r; apply Qle_refl |].
    apply Qmult_lt_l; [exact Hentry | lra].
Qed.

(** A short from 100 with a stop-loss of -2.5 percent: the monitor
    watches 97.5, the alert says 102.5. *)
Lemma alert_levels_against_monitor_witness :
  (calculatePriceLevels 100 (-2.5) [2.0] "SHORT").1 < 100
  /\ 100 < (alertPriceLevels "SHORT" 100 (-2.5) [2.0]).1.
Proof.
  destruct (alert_levels_against_monitor 100 (-2.5) [2.0]) as (_ & _ & Hshort).
  apply Hshort; reflexivity.
Defined.

End ShortFacts.

(* ===================================================================== *)
(** * [groupSignalsByPair] *)
(* ===================================================================== *)

Section GroupingFacts.
Import Types Runtime DatabaseManager PriceMonitor MoreObservations.

Lemma group_push_keys (p : string) (s : Signal) (grouped : list (string * list Signal)) :
  map fst (group_push p s grouped)
  = if existsb (String.eqb p) (map fst grouped) then map fst grouped
    else (map fst grouped ++ [p])%list.
Proof.
  induction grouped as [| [p' ms] rest IH]; simpl; [done |].
  rewrite (String.eqb_sym p p').
  destruct (String.eqb_spec p' p) as [-> | Hne]; simpl; [done |].
  rewrite IH. by destruct (existsb _ _).
Qed.

Lemma group_push_In (p : string) (s : Signal) (grouped : list (string * list Signal))
    (q : string) (members : list Signal) :
  List.NoDup (map fst grouped) ->
  In (q, members) (group_push p s grouped) ->
  (q <> p /\ In (q, members) grouped)
  \/ (q = p /\ exists before, members = (before ++ [s])%list
                /\ (In (p, before) grouped
                    \/ before = [] /\ ~ In p (map fst grouped))).
Proof.
  induction grouped as [| [p' ms] rest IH]; simpl; intros Hnodup.
  - intros [[= <- <-] | []]. right. split; [done |]. exists []. split; [done |].
    right. split; [done | by intros []].
  - inversion Hnodup as [| ? ? Hfresh Hrest]; subst.
    destruct (String.eqb_spec p' p) as [-> | Hne]; simpl.
    + intros [[= <- <-] | Hin].
      * right. split; [done |]. exists ms. split; [done |]. left. by left.
      * left. split; [| by right]. intros ->. apply Hfresh.
        apply in_map_iff. by exists (p, members).
    + intros [[= <- <-] | Hin].
      * left. split; [done |]. by left.
      * destruct (IH Hrest Hin) as [[Hq Hold] | (-> & before & -> & Hwhere)].
        -- left. split; [done |]. by right.
        -- right. split; [done |]. exists before. split; [done |].
           destruct Hwhere as [Hold | [-> Hnew]]; [left; by right |].
           right. split; [done |]. intros [Heq | Hin']; [congruence | done].
Qed.

Lemma filter_snoc {A} (keep : A -> bool) (l : list A) (x : A) :
  List.filter keep (l ++ [x]) = (List.filter keep l ++ (if keep x then [x] else []))%list.
Proof. rewrite List.filter_app. simpl. by destruct (keep x). Qed.

Lemma filter_none {A} (keep : A -> bool) (l : list A) :
  (forall x, In x l -> keep x = false) -> List.filter keep l = [].
Proof.
  induction l as [| x l IH]; intros Hnone; simpl; [done |].
  rewrite (Hnone x) by (by left). apply IH. intros y Hy. apply Hnone. by right.
Qed.

Lemma grouping_push (processed : list Signal) (grouped : list (string * list Signal))
    (s : Signal) :
  grouping processed grouped ->
  grouping (processed ++ [s]) (group_push (pair (row s)) s grouped).
Proof.
  intros (Hnodup & Hgroups & Hkeys). set (p := pair (row s)).
  assert (Hnew : existsb (String.eqb p) (map fst grouped) = false ->
                 ~ In p (map fst grouped)).
  { intros Hnone Hin. apply not_true_iff_false in Hnone. apply Hnone.
    apply existsb_exists. exists p. split; [done | apply String.eqb_refl]. }
  split; [| split].
  - rewrite group_push_keys. destruct (existsb _ _) eqn:Hfound; [done |].
    apply NoDup_ListNoDup, NoDup_app. split; [by apply NoDup_ListNoDup |].
    split; [| apply NoDup_singleton].
    intros q Hq Hp. apply list_elem_of_In in Hq. apply list_elem_of_In in Hp.
    destruct Hp as [<- | []]. by apply Hnew.
  - intros q members Hin.
    apply group_push_In in Hin as [[Hq Hold] | (-> & before & -> & Hwhere)];
      [| | done].
    + destruct (Hgroups q members Hold) as [Hne ->]. split; [done |].
      rewrite filter_snoc. fold p.
      destruct (String.eqb_spec p q) as [Heq | _]; [congruence |].
      by rewrite app_nil_r.
    + split; [by destruct before |].
      rewrite filter_snoc. fold p. rewrite String.eqb_refl. f_equal.
      destruct Hwhere as [Hold | [-> Hfresh]]; [by destruct (Hgroups p before Hold) |].
      symmetry. apply filter_none. intros s' Hs'.
      destruct (String.eqb_spec (pair (row s')) p) as [Heq | Hne]; [| done].
      exfalso. apply Hfresh. rewrite <- Heq. by apply Hkeys.
  - intros s' Hs'. rewrite group_push_keys.
    apply in_app_iff in Hs' as [Hold | [<- | []]].
    + specialize (Hkeys s' Hold).
      destruct (existsb _ _); [done |]. apply in_app_iff. by left.
    + fold p. destruct (existsb _ _) eqn:Hfound.
      * apply existsb_exists in Hfound as (q & Hq & Heq).
        apply String.eqb_eq in Heq. by subst.
      * apply in_app_iff. right. by left.
Qed.

Lemma grouping_fold (l processed : list Signal) (grouped : list (string * list Signal)) :
  grouping processed grouped ->
  grouping (processed ++ l)
    (fold_left (fun grouped signal => group_push (pair (row signal)) signal grouped)
       l grouped).
Proof.
  revert processed grouped. induction l as [| s l IH]; intros processed grouped Hg.
  - by rewrite app_nil_r.
  - simpl. replace (processed ++ s :: l)%list with ((processed ++ [s]) ++ l)%list
      by (by rewrite <- app_assoc).
    apply IH. by apply grouping_push.
Qed.

(** X27: [groupSignalsByPair] partitions the signals by pair: no pair
    has two groups, the group of a pair holds exactly the signals of
    that pair in the order in which they came, no group is empty, and
    the pair of every signal has a group. *)
Theorem groupSignalsByPair_partition (activeSignals : list Signal) :
  List.NoDup (map fst (groupSignalsByPair activeSignals))
  /\ (forall p members, In (p, members) (groupSignalsByPair activeSignals) ->
        members <> []
        /\ members
           = List.filter (fun s => String.eqb (pair (row s)) p) activeSignals)
  /\ (forall s, In s activeSignals ->
        In (pair (row s)) (map fst (groupSignalsByPair activeSignals))).
Proof.
  apply (grouping_fold activeSignals [] []).
  split; [constructor |]. split; [by intros p members [] | by intros s []].
Qed.

End GroupingFacts.

(* ===================================================================== *)
(** * [calculateWalletPerformance] *)
(* ===================================================================== *)

Section WalletStatsFacts.
Import WalletStats.

Lemma wins_and_losses (l : list Participation) :
  (length (List.filter (has_outcome "WIN") l)
   + length (List.filter (has_outcome "LOSS") l) <= length l)%nat.
Proof.
  induction l as [| s l IH]; simpl; [lia |].
  destruct (has_outcome "WIN" s) eqn:Hw, (has_outcome "LOSS" s) eqn:Hl;
    simpl; try lia.
  exfalso. unfold has_outcome in Hw, Hl. destruct (sp_outcome s) as [o |]; [| done].
  apply String.eqb_eq in Hw, Hl. congruence.
Qed.

Lemma count_le (n m : nat) : (n <= m)%nat -> count n <= count m.
Proof. intros Hle. unfold count. rewrite <- Zle_Qle. lia. Qed.

Lemma count_pos (n : nat) : (0 < n)%nat -> 0 < count n.
Proof. intros Hpos. unfold count. change 0 with (inject_Z 0). rewrite <- Zlt_Qlt. lia. Qed.

(** X28: in what [calculateWalletPerformance] returns, the wins and the
    losses together are at most the signals (a signal without a row of
    [performance] or with the outcome PARTIAL is neither), the success
    rate lies between 0 and 100 and is the share of the wins among all
    signals of the wallet, and without a loss the win/loss ratio is
    the number of wins. *)
Theorem calculateWalletPerformance_rates (signalParticipations : list Participation)
    (systemCount : option Z) :
  let performance := calculateWalletPerformance signalParticipations systemCount in
  total_signals performance = length signalParticipations
  /\ (wins performance + losses performance <= total_signals performance)%nat
  /\ 0 <= success_rate performance <= 100
  /\ success_rate performance * count (total_signals performance)
     == 100 * count (wins performance)
  /\ (losses performance = 0%nat ->
      win_loss_ratio performance == count (wins performance)).
Proof.
  cbv zeta. unfold calculateWalletPerformance.
  destruct signalParticipations as [| s l]; simpl Nat.eqb; cbv iota.
  - simpl. repeat split; try lia; try lra; try reflexivity.
  - set (all := s :: l).
    pose proof (wins_and_losses all) as Hsum.
    set (won := length (List.filter (has_outcome "WIN") all)) in *.
    set (lost := length (List.filter (has_outcome "LOSS") all)) in *.
    assert (Htotal : (0 < length all)%nat) by (simpl; lia).
    replace (0 <? length all)%nat with true by (symmetry; by apply Nat.ltb_lt).
    cbn [success_rate win_loss_ratio total_signals wins losses].
    pose proof (count_pos (length all) Htotal) as Hpos.
    pose proof (count_le won (length all) ltac:(lia)) as Hwon.
    assert (Hzero : 0 <= count won).
    { change 0 with (count 0). apply count_le. lia. }
    assert (Hshare : count won / count (length all) * count (length all) == count won).
    { field. lra. }
    assert (Hshare0 : 0 <= count won / count (length all)).
    { apply Qle_shift_div_l; [exact Hpos |]. by rewrite Qmult_0_l. }
    assert (Hshare1 : count won / count (length all) <= 1).
    { apply Qle_shift_div_r; [exact Hpos |]. by rewrite Qmult_1_l. }
    set (share := count won / count (length all)) in *.
    set (total := count (length all)) in *. set (w := count won) in *.
    split; [reflexivity |]. split; [exact Hsum |]. split; [split; lra |].
    split; [nra |].
    intros ->. reflexivity.
Qed.

End WalletStatsFacts.
